(** * The rate retrieval engine of [api/convert.js]

    A shallow embedding of the serverless conversion endpoint
    ([api/convert.js]) and of the static table it falls back on
    ([utils/fallbackRates.js]): the query validator, the in-memory TTL
    cache, the upstream fetcher with its retry loop, and the handler that
    chains them.  It is followed by the Express server that serves the
    same table ([server.js]: the route [/api/convert], the session store
    and its guard), the request signing of the HMAC module, and the
    store of the security events ([utils/siem.js]).

    Conventions.
    - A JavaScript string is given by its UTF-8 bytes, a header value by
      its code units, which are below 256.  [trim] strips the white space
      of ECMAScript; [toUpperCase] is the ASCII table on ASCII strings and
      is left to the Unicode tables of the runtime on the other strings.
    - JavaScript numbers are kept abstract behind the interface
      [JsRuntime]: the code only parses, compares, multiplies and prints
      them, and no statement below depends on how a double rounds.  The
      instance [ExactRuntime] (exact decimals) evaluates the definitions.
    - The module-level [cache] Map and the console are threaded through the
      code as a state [St]; every cache access, upstream call, back-off
      sleep and log line is recorded, in order, in the trace of the state.
    - [process.env], [Date.now], the upstream service and the requests that
      are served while this one awaits are the [World] the handler runs
      in. *)

From Stdlib Require Import ZArith QArith Qabs Qround String Ascii List Bool Lia.
From stdpp Require Import base strings gmap pretty.
Import ListNotations.

Open Scope string_scope.
Open Scope Z_scope.
Open Scope list_scope.

(** ** Strings *)

Definition dquote : string := String "034"%char EmptyString.

(** [quoted s] is [s] between two double quote characters. *)
Definition quoted (s : string) : string := dquote +:+ s +:+ dquote.

Definition char_in (lo hi : N) (c : ascii) : bool :=
  (lo <=? N_of_ascii c)%N && (N_of_ascii c <=? hi)%N.

Definition is_digit : ascii -> bool := char_in 48 57.
Definition is_upper : ascii -> bool := char_in 65 90.
Definition is_lower : ascii -> bool := char_in 97 122.

Definition is_ascii (c : ascii) : bool := (N_of_ascii c <? 128)%N.

(** The ASCII members of the WhiteSpace and LineTerminator classes. *)
Definition is_space (c : ascii) : bool :=
  char_in 9 13 c || (N_of_ascii c =? 32)%N.

Definition upper_char (c : ascii) : ascii :=
  if is_lower c then ascii_of_N (N_of_ascii c - 32) else c.

(** [s.toUpperCase()] for a string [s] of ASCII characters. *)
Fixpoint upper_ascii (s : string) : string :=
  match s with
  | EmptyString => EmptyString
  | String c r => String (upper_char c) (upper_ascii r)
  end.

Definition bytes (codes : list N) : string :=
  fold_right (fun n s => String (ascii_of_N n) s) EmptyString codes.

(** The code points that [trim] strips, by their UTF-8 bytes: the
    WhiteSpace class (tab, vertical tab, form feed, space, U+00A0, U+FEFF
    and the category Zs, that is U+1680, U+2000 to U+200A, U+202F, U+205F
    and U+3000) and the LineTerminator class (line feed, carriage return,
    U+2028, U+2029). *)
Definition WHITE_SPACE : list string :=
  map bytes
    ([[9]; [10]; [11]; [12]; [13]; [32]; [194; 160]; [225; 154; 128]]
       ++ map (fun n => [226; 128; n])
            [128; 129; 130; 131; 132; 133; 134; 135; 136; 137; 138]
       ++ [[226; 128; 168]; [226; 128; 169]; [226; 128; 175];
           [226; 129; 159]; [227; 128; 128]; [239; 187; 191]])%N.

(** The same classes on the code units of a header value: of the code
    points above 127, U+00A0 only is below 256. *)
Definition HEADER_WHITE_SPACE : list string :=
  map bytes [[9]; [10]; [11]; [12]; [13]; [32]; [160]]%N.

(** [prefix_at p s]: [s] starts with [p]. *)
Fixpoint prefix_at (p s : string) : bool :=
  match p, s with
  | EmptyString, _ => true
  | String a p', String b s' => Ascii.eqb a b && prefix_at p' s'
  | String _ _, EmptyString => false
  end.

Fixpoint drop_chars (n : nat) (s : string) : string :=
  match n, s with
  | S n', String _ r => drop_chars n' r
  | _, _ => s
  end.

(** What is left of [s] after its leading members of [space]; [fuel]
    bounds their number. *)
Fixpoint strip_leading (space : list string) (fuel : nat) (s : string)
  : string :=
  match fuel with
  | O => s
  | S fuel' =>
      match find (fun w => prefix_at w s) space with
      | Some w => strip_leading space fuel' (drop_chars (String.length w) s)
      | None => s
      end
  end.

Definition trimStart (space : list string) (s : string) : string :=
  strip_leading space (String.length s) s.

Definition trimEnd (space : list string) (s : string) : string :=
  String.rev (strip_leading (map String.rev space) (String.length s)
                (String.rev s)).

(** [s.trim()] for a string given by its UTF-8 bytes, and for a header
    value. *)
Definition trim (s : string) : string :=
  trimEnd WHITE_SPACE (trimStart WHITE_SPACE s).

Definition header_trim (s : string) : string :=
  trimEnd HEADER_WHITE_SPACE (trimStart HEADER_WHITE_SPACE s).

(** [str_split sep s] is [s.split(sep)] for a one-character separator. *)
Fixpoint str_split (sep : ascii) (s : string) : list string :=
  match s with
  | EmptyString => [EmptyString]
  | String c r =>
      if Ascii.eqb c sep then EmptyString :: str_split sep r
      else match str_split sep r with
           | p :: ps => String c p :: ps
           | [] => [String c EmptyString]
           end
  end.

Fixpoint all_chars (p : ascii -> bool) (s : string) : bool :=
  match s with
  | EmptyString => true
  | String c r => p c && all_chars p r
  end.

(** [drop_digits s] is what is left of [s] after its leading digits. *)
Fixpoint drop_digits (s : string) : string :=
  match s with
  | String c r => if is_digit c then drop_digits r else s
  | EmptyString => EmptyString
  end.

Definition starts_with_digit (s : string) : bool :=
  match s with
  | String c _ => is_digit c
  | EmptyString => false
  end.

(** [search p s]: the unanchored regex [p], given as a test on the text
    that starts at a position, matches somewhere in [s]. *)
Fixpoint search (p : string -> bool) (s : string) : bool :=
  p s || match s with
         | EmptyString => false
         | String _ r => search p r
         end.

(** The regex [/^[A-Z]{3}$/]. *)
Definition ISO_CURRENCY_REGEX (s : string) : bool :=
  match s with
  | String a (String b (String c EmptyString)) =>
      is_upper a && is_upper b && is_upper c
  | _ => false
  end.

(** The regex [/^[+-]?\d+(?:\.\d+)?$/] of the amount check. *)
Definition PLAIN_DECIMAL_REGEX (s : string) : bool :=
  let unsigned :=
    match s with
    | String c r => if Ascii.eqb c "+" || Ascii.eqb c "-" then r else s
    | EmptyString => s
    end in
  starts_with_digit unsigned &&
  match drop_digits unsigned with
  | EmptyString => true
  | String c r =>
      Ascii.eqb c "." && starts_with_digit r && all_chars is_digit r
  end.

(** The regex [/status (5\d\d|429)/] of the retry test. *)
Definition STATUS_REGEX_at (s : string) : bool :=
  prefix_at "status 429" s ||
  match s with
  | String _ (String _ (String _ (String _ (String _ (String _ (String _
      (String a (String b (String c _))))))))) =>
      prefix_at "status " s && Ascii.eqb a "5" && is_digit b && is_digit c
  | _ => false
  end.

Definition STATUS_REGEX : string -> bool := search STATUS_REGEX_at.

(** The regex [/Unexpected upstream payload/]. *)
Definition PAYLOAD_REGEX : string -> bool :=
  search (prefix_at "Unexpected upstream payload").

Definition hex_digit (n : N) : ascii :=
  if (n <? 10)%N then ascii_of_N (48 + n) else ascii_of_N (55 + n).

Definition uri_unreserved (c : ascii) : bool :=
  is_digit c || is_upper c || is_lower c ||
  existsb (Ascii.eqb c) ["-"; "_"; "."; "!"; "~"; "*"; "'"; "("; ")"]%char.

(** [encodeURIComponent] on the UTF-8 bytes of its argument. *)
Fixpoint encodeURIComponent (s : string) : string :=
  match s with
  | EmptyString => EmptyString
  | String c r =>
      if uri_unreserved c then String c (encodeURIComponent r)
      else String "%" (String (hex_digit (N_of_ascii c / 16))
             (String (hex_digit (N_of_ascii c mod 16)) (encodeURIComponent r)))
  end.

(** ** Numbers and dates

    What the code asks of the JavaScript runtime about numbers and dates.
    [Number s] is the number a string converts to, [toFixed x d] is
    [x.toFixed(d)], [num_falsy x] is [!x], and [toISOString t] is
    [new Date(t).toISOString()] for [t] milliseconds after the epoch.
    [toUpperCase_unicode s] is [s.toUpperCase()] for a string that has
    characters outside ASCII, whose capitals the Unicode tables of the
    runtime give. *)

Class JsRuntime := {
  num : Type;
  Number : string -> num;
  Number_isFinite : num -> bool;
  Number_isNaN : num -> bool;
  Math_abs : num -> num;
  num_gt : num -> num -> bool;
  num_lt : num -> num -> bool;
  num_mul : num -> num -> num;
  toFixed : num -> Z -> string;
  num_falsy : num -> bool;
  toISOString : Z -> string;
  toUpperCase_unicode : string -> string
}.

(** [s.toUpperCase()]. *)
Definition toUpperCase `{JsRuntime} (s : string) : string :=
  if all_chars is_ascii s then upper_ascii s else toUpperCase_unicode s.

(** ** Values and objects *)

(** [prop k o] is [o[k]] on an object given by its own properties, in the
    order of [Object.keys]; [None] is [undefined]. *)
Definition prop {A : Type} (k : string) (o : list (string * A)) : option A :=
  snd <$> find (fun kv => String.eqb (fst kv) k) o.

Definition Object_keys {A : Type} (o : list (string * A)) : list string :=
  map fst o.

(** A [Set] of strings, by its members. *)
Definition has (s : list string) (k : string) : bool :=
  existsb (String.eqb k) s.

Section Engine.

Context `{JsRuntime}.

#[warnings="-register-all"]
Inductive JsVal :=
| JUndefined
| JNull
| JBool (b : bool)
| JNum (n : num)
| JStr (s : string)
| JArr (items : list JsVal)
| JObj (fields : list (string * JsVal)).

(** [get v k] is [v?.[k]] for a name [k] that is neither an index nor a
    property of a prototype: all the names the code reads are such. *)
Definition get (v : JsVal) (k : string) : JsVal :=
  match v with
  | JObj fields => default JUndefined (prop k fields)
  | _ => JUndefined
  end.

Definition truthy (v : JsVal) : bool :=
  match v with
  | JUndefined | JNull => false
  | JBool b => b
  | JNum n => negb (num_falsy n)
  | JStr s => negb (String.eqb s EmptyString)
  | JArr _ | JObj _ => true
  end.

Definition opt_num (o : option num) : JsVal :=
  match o with
  | Some n => JNum n
  | None => JNull
  end.

(** ** The query *)

(** A parsed query string: a parameter given once is a string, a
    parameter given several times is the array of its values. *)
Inductive QueryValue :=
| QStr (s : string)
| QArr (items : list string).

Definition Query := list (string * QueryValue).

Definition q_falsy (v : option QueryValue) : bool :=
  match v with
  | None => true
  | Some (QStr s) => String.eqb s EmptyString
  | Some (QArr _) => false
  end.

(** [String(v)]. *)
Definition q_String (v : option QueryValue) : string :=
  match v with
  | None => "undefined"
  | Some (QStr s) => s
  | Some (QArr items) => String.concat "," items
  end.

(** ** Validation config *)

Definition ALLOWED_QUERY_PARAMS : list string := ["from"; "to"; "amount"].
Definition MAX_AMOUNT : num := Number "1000000000000".
Definition MAX_DECIMALS : Z := 8.

Definition ALLOWED_CURRENCIES : list string :=
  ["USD"; "EUR"; "GBP"; "JPY"; "AUD"; "CAD"; "CHF"; "CNY"; "HKD"; "NZD";
   "SEK"; "KRW"; "SGD"; "NOK"; "MXN"; "INR"; "RUB"; "BRL"; "ZAR"; "TRY";
   "DKK"; "PLN"; "THB"; "MYR"; "IDR"; "HUF"; "CZK"; "ILS"; "PHP"; "CLP";
   "AED"; "SAR"; "COP"; "ARS"; "VND"; "EGP"; "NGN"; "KZT"; "PKR"; "BDT"].

Definition E_UNEXPECTED (k : string) : string :=
  "Unexpected parameter '" +:+ k +:+ "'.".
Definition E_MISSING : string :=
  "Missing required query parameters " +:+ quoted "from" +:+ " and "
    +:+ quoted "to" +:+ ".".
Definition E_FORMAT : string :=
  "Currency codes must be 3-letter ISO codes (A-Z).".
Definition E_UNSUPPORTED : string :=
  "Currency not supported. Use a standard ISO 4217 currency code.".
Definition E_AMOUNT_EMPTY : string :=
  "If provided, " +:+ quoted "amount" +:+ " must not be empty.".
Definition E_AMOUNT_PLAIN : string :=
  quoted "amount" +:+ " must be a plain decimal number without exponent.".
Definition E_AMOUNT_NUMERIC : string :=
  "Invalid numeric value for " +:+ quoted "amount" +:+ ".".
Definition E_AMOUNT_RANGE : string :=
  quoted "amount" +:+ " is out of allowed range.".
Definition E_AMOUNT_NEGATIVE : string :=
  quoted "amount" +:+ " must be zero or a positive value.".
Definition E_AMOUNT_DECIMALS : string :=
  quoted "amount" +:+ " may have at most " +:+ pretty MAX_DECIMALS
    +:+ " decimal places.".

Inductive Validation :=
| Invalid (error : string)
| Valid (from to : string) (amount : option num).

(** The checks on the trimmed text of [amount], in the order of the code;
    [inr] is the number that is kept. *)
Definition validateAmount (rawAmt : string) : string + num :=
  if (Z.of_nat (String.length rawAmt) =? 0) then inl E_AMOUNT_EMPTY
  else if negb (PLAIN_DECIMAL_REGEX rawAmt) then inl E_AMOUNT_PLAIN
  else
    let n := Number rawAmt in
    if negb (Number_isFinite n) || Number_isNaN n then inl E_AMOUNT_NUMERIC
    else if num_gt (Math_abs n) MAX_AMOUNT then inl E_AMOUNT_RANGE
    else if num_lt n (Number "0") then inl E_AMOUNT_NEGATIVE
    else
      let parts := str_split "." rawAmt in
      match parts !! 1%nat with
      | Some frac =>
          if negb (String.eqb frac EmptyString)
             && (MAX_DECIMALS <? Z.of_nat (String.length frac))
          then inl E_AMOUNT_DECIMALS
          else inr n
      | None => inr n
      end.

(** [validateAndNormalizeQuery], lines 47 to 99; the loop over the keys
    returns at the first key that is not allowed. *)
Definition validateAndNormalizeQuery (query : option Query) : Validation :=
  let keys := Object_keys (default [] query) in
  match find (fun k => negb (has ALLOWED_QUERY_PARAMS k)) keys with
  | Some k => Invalid (E_UNEXPECTED k)
  | None =>
      let rawFrom := query ≫= prop "from" in
      let rawTo := query ≫= prop "to" in
      if q_falsy rawFrom || q_falsy rawTo then Invalid E_MISSING
      else
        let from := toUpperCase (q_String rawFrom) in
        let to := toUpperCase (q_String rawTo) in
        if negb (ISO_CURRENCY_REGEX from) || negb (ISO_CURRENCY_REGEX to)
        then Invalid E_FORMAT
        else if negb (has ALLOWED_CURRENCIES from)
                || negb (has ALLOWED_CURRENCIES to)
        then Invalid E_UNSUPPORTED
        else if has keys "amount" then
          match validateAmount (trim (q_String (query ≫= prop "amount"))) with
          | inl error => Invalid error
          | inr n => Valid from to (Some n)
          end
        else Valid from to None
  end.

(** ** The static fallback table ([utils/fallbackRates.js]) *)

Definition FALLBACK_RATES : list (string * list (string * num)) :=
  [ ("USD", [ ("EUR", Number "0.85"); ("GBP", Number "0.73");
              ("JPY", Number "110.0"); ("CAD", Number "1.25");
              ("AUD", Number "1.35"); ("CHF", Number "0.92");
              ("CNY", Number "6.45"); ("INR", Number "75.0");
              ("BRL", Number "5.2"); ("PHP", Number "58.2");
              ("KRW", Number "1340"); ("MXN", Number "17.2") ]);
    ("EUR", [ ("USD", Number "1.18"); ("GBP", Number "0.86");
              ("JPY", Number "129.0"); ("CAD", Number "1.47");
              ("AUD", Number "1.59"); ("CHF", Number "1.08");
              ("CNY", Number "7.59"); ("INR", Number "88.0");
              ("BRL", Number "6.1"); ("PHP", Number "63.5") ]);
    ("PHP", [ ("USD", Number "0.017"); ("EUR", Number "0.016");
              ("JPY", Number "1.9"); ("GBP", Number "0.014");
              ("AUD", Number "0.023") ]);
    ("JPY", [ ("USD", Number "0.0091"); ("EUR", Number "0.0077");
              ("GBP", Number "0.0067"); ("PHP", Number "0.53");
              ("INR", Number "0.68") ]) ].

Record FallbackRate := {
  rate : num;
  lastUpdated : string;
  defaulted : bool
}.

(** [getFallbackRate], lines 10 to 20; [now] is the clock read by
    [new Date()]. *)
Definition getFallbackRate (now : Z) (fromCurrency toCurrency : string)
  : FallbackRate :=
  let base := prop fromCurrency FALLBACK_RATES in
  let found := base ≫= prop toCurrency in
  let hasRate := bool_decide (is_Some found) in
  {| rate := if hasRate then default (Number "1.0") found else Number "1.0";
     lastUpdated := toISOString now;
     defaulted := negb hasRate |}.

(** ** The cache, the console and the state they make *)

Record CacheEntry := { ts : Z; data : JsVal }.

Inductive Event :=
| Console (level : string) (args : list JsVal)
| CacheGet (key : string)
| CacheDelete (key : string)
| CacheSet (key : string) (entry : CacheEntry)
| Fetch (url : string) (timeout : Z)
| Sleep (ms : Z).

Record St := { cache : gmap string CacheEntry; trace : list Event }.

Definition M (A : Type) : Type := St -> A * St.

#[export] Instance M_ret : MRet M := fun A a s => (a, s).
#[export] Instance M_bind : MBind M :=
  fun A B k m s => let '(a, s') := m s in k a s'.

Definition emit (e : Event) : M unit :=
  fun s => (tt, {| cache := cache s; trace := trace s ++ [e] |}).

Definition cache_get (key : string) : M (option CacheEntry) :=
  fun s => (cache s !! key,
            {| cache := cache s; trace := trace s ++ [CacheGet key] |}).

Definition cache_delete (key : string) : M unit :=
  fun s => (tt, {| cache := delete key (cache s);
                   trace := trace s ++ [CacheDelete key] |}).

Definition cache_set (key : string) (entry : CacheEntry) : M unit :=
  fun s => (tt, {| cache := <[key := entry]> (cache s);
                   trace := trace s ++ [CacheSet key entry] |}).

(** ** Errors, responses of the upstream, and the world *)

Record JsError := { err_name : string; err_message : string }.

Definition Error (msg : string) : JsError :=
  {| err_name := "Error"; err_message := msg |}.

(** What [fetch] resolves to: [res_text] is [None] when reading the body
    rejects, [res_json] is the value [res.json()] resolves to or the error
    it rejects with. *)
Record HttpResponse := {
  res_status : Z;
  res_statusText : string;
  res_text : option string;
  res_json : JsError + JsVal
}.

Definition res_ok (res : HttpResponse) : bool :=
  (200 <=? res_status res) && (res_status res <=? 299).

Inductive Outcome :=
| Rejects (err : JsError)
| Resolves (res : HttpResponse).

(** The settings read from the environment when the module is loaded. *)
Record Config := { CACHE_TTL : Z; TIMEOUT_MS : Z; RETRIES : Z }.

Definition default_config : Config :=
  {| CACHE_TTL := 5 * 60 * 1000; TIMEOUT_MS := 8000; RETRIES := 1 |}.

(** The surroundings of one run of the handler: the credential, the three
    readings of the clock (in [getFallbackRate], in the first cache
    lookup, and when the handler resumes after the fetch), the outcome of
    each upstream call of this run, and what the requests served while
    this one awaits the upstream do to the cache. *)
Record World := {
  EXCHANGE_RATE_API_KEY : option string;
  now_fallback : Z;
  now_lookup : Z;
  now_resumed : Z;
  fetcher : Z -> Outcome;
  meanwhile : gmap string CacheEntry -> gmap string CacheEntry
}.

Record Request := { method : option string; query : option Query }.

Record Response := { http_status : Z; body : list (string * JsVal) }.

Definition EXCHANGE_API_BASE : string := "https://v6.exchangerate-api.com/v6".

Definition js_of_Z (z : Z) : JsVal := JNum (Number (pretty z)).

Definition js_of_query (q : option Query) : JsVal :=
  match q with
  | None => JUndefined
  | Some fields =>
      JObj (map (fun kv =>
                   (fst kv, match snd kv with
                            | QStr s => JStr s
                            | QArr items => JArr (map JStr items)
                            end)) fields)
  end.

(** [Object.keys(v || {})]. *)
Definition keys_or_empty (v : JsVal) : list string :=
  match v with
  | JObj fields => Object_keys fields
  | JArr items => map (fun i => pretty (Z.of_nat i)) (seq 0 (length items))
  | JStr s => map (fun i => pretty (Z.of_nat i)) (seq 0 (String.length s))
  | _ => []
  end.

Section Run.

Variable cfg : Config.
Variable w : World.

Definition getCacheKey (fromCurrency : string) : string :=
  "latest:" +:+ fromCurrency.

(** [readFromCache], lines 105 to 114; [now] is the clock read by
    [Date.now()]. *)
Definition readFromCache (now : Z) (fromCurrency : string)
  : M (option JsVal) :=
  let key := getCacheKey fromCurrency in
  entry ← cache_get key;
  match entry with
  | None => mret None
  | Some e =>
      if CACHE_TTL cfg <? now - ts e
      then cache_delete key;; mret None
      else mret (Some (data e))
  end.

(** [writeToCache], lines 116 to 119. *)
Definition writeToCache (now : Z) (fromCurrency : string) (d : JsVal)
  : M unit :=
  let key := getCacheKey fromCurrency in
  cache_set key {| ts := now; data := d |}.

(** [fetchWithTimeout], lines 122 to 131; [call] numbers the calls of one
    run, and the [Outcome] of a call is the settled promise, rejected with
    an [AbortError] when the timer fires. *)
Definition fetchWithTimeout (url : string) (ms : Z) (call : Z) : M Outcome :=
  emit (Fetch url ms);; mret (fetcher w call).

(** How the [try] block of one iteration completes. *)
Inductive Attempt :=
| Returned (d : JsVal)
| Threw (err : JsError)
| Completed.

Inductive Control := Break | Next.

(** The [try] block of the loop, lines 140 to 162. *)
Definition try_block (url : string) (attempt : Z) : M Attempt :=
  settled ← fetchWithTimeout url (TIMEOUT_MS cfg) attempt;
  match settled with
  | Rejects err => mret (Threw err)
  | Resolves res =>
      if negb (res_ok res) then
        let text := default "<unavailable>" (res_text res) in
        emit (Console "error"
                [JStr "Upstream non-OK";
                 JObj [("status", js_of_Z (res_status res));
                       ("statusText", JStr (res_statusText res));
                       ("url", JStr url);
                       ("body", JStr (substring 0 2000 text))]]);;
        let retryable :=
          (500 <=? res_status res) || (res_status res =? 429) in
        if negb retryable || (attempt =? RETRIES cfg)
        then mret (Threw (Error ("Upstream status " +:+ pretty (res_status res))))
        else mret Completed
      else
        match res_json res with
        | inl err => mret (Threw err)
        | inr d =>
            if negb (match get d "result" with
                     | JStr s => String.eqb s "success"
                     | _ => false
                     end)
               || negb (truthy (get d "conversion_rates"))
            then mret (Threw (Error "Unexpected upstream payload"))
            else mret (Returned d)
        end
  end.

(** [String(err)] for an error object. *)
Definition err_toString (err : JsError) : string :=
  if String.eqb (err_message err) EmptyString then err_name err
  else if String.eqb (err_name err) EmptyString then err_message err
  else err_name err +:+ ": " +:+ err_message err.

(** The [catch] block of the loop, lines 163 to 175. *)
Definition catch_block (attempt : Z) (err : JsError) : M Control :=
  let msg := if String.eqb (err_message err) EmptyString
             then err_toString err else err_message err in
  let isAbort := String.eqb (err_name err) "AbortError" in
  let retryable := isAbort || STATUS_REGEX msg || PAYLOAD_REGEX msg in
  if negb retryable || (attempt =? RETRIES cfg) then mret Break
  else
    let delayMs := 200 * 2 ^ attempt in
    emit (Sleep delayMs);; mret Next.

(** The [while] loop of [fetchRates] and the [throw] that follows it;
    [fuel] bounds the iterations, [inl] is a thrown error. *)
Fixpoint fetch_loop (fuel : nat) (url : string) (attempt : Z)
    (lastErr : option JsError) : M (JsError + JsVal) :=
  match fuel with
  | O => mret (inl (default (Error "Upstream fetch failed") lastErr))
  | S fuel' =>
      if attempt <=? RETRIES cfg then
        completion ← try_block url attempt;
        match completion with
        | Returned d => mret (inr d)
        | Completed => fetch_loop fuel' url (attempt + 1) lastErr
        | Threw err =>
            control ← catch_block attempt err;
            match control with
            | Break => mret (inl err)
            | Next => fetch_loop fuel' url (attempt + 1) (Some err)
            end
        end
      else mret (inl (default (Error "Upstream fetch failed") lastErr))
  end.

(** [fetchRates], lines 134 to 180. *)
Definition fetchRates (fromCurrency apiKey : string) : M (JsError + JsVal) :=
  let url := EXCHANGE_API_BASE +:+ "/" +:+ encodeURIComponent apiKey
               +:+ "/latest/" +:+ encodeURIComponent fromCurrency in
  fetch_loop (Z.to_nat (RETRIES cfg + 1)) url 0 None.

(** The handler resumes after [await]: the requests served in the
    meantime have had their way with the cache. *)
Definition resumed : M unit :=
  fun s => (tt, {| cache := meanwhile w (cache s); trace := trace s |}).

Definition json (code : Z) (payload : list (string * JsVal)) : M Response :=
  mret {| http_status := code; body := payload |}.

Definition failure (error : string) : list (string * JsVal) :=
  [("success", JBool false); ("error", JStr error)].

Definition success (r : num) (convertedAmount : option num)
    (from to : string) (updated : JsVal) (source : string)
  : list (string * JsVal) :=
  [("success", JBool true); ("rate", JNum r);
   ("convertedAmount", opt_num convertedAmount);
   ("from", JStr from); ("to", JStr to);
   ("lastUpdated", updated); ("source", JStr source)].

(** [amount !== null ? Number((amount * rate).toFixed(6)) : null]. *)
Definition converted (amount : option num) (r : num) : option num :=
  (fun a => Number (toFixed (num_mul a r) 6)) <$> amount.

(** The value [table.conversion_rates?.[toCurrency]] when its [typeof] is
    number. *)
Definition rate_in (table : JsVal) (toCurrency : string) : option num :=
  match get (get table "conversion_rates") toCurrency with
  | JNum r => Some r
  | _ => None
  end.

(** [cached && typeof cached.conversion_rates?.[toCurrency] === 'number'],
    with the number. *)
Definition cached_rate (cached : option JsVal) (toCurrency : string)
  : option num :=
  cached ≫= (fun c => if truthy c then rate_in c toCurrency else None).

Definition E_METHOD : string := "Method Not Allowed. Use GET.".

Definition E_PAIR (fromCurrency toCurrency : string) : string :=
  "Exchange rate from " +:+ fromCurrency +:+ " to " +:+ toCurrency
    +:+ " not available.".

Definition str_truthy (s : option string) : bool :=
  match s with
  | Some s => negb (String.eqb s EmptyString)
  | None => false
  end.

(** [handler], lines 182 to 296. *)
Definition handler (req : Request) : M Response :=
  if str_truthy (method req)
     && negb (String.eqb (toUpperCase (default EmptyString (method req))) "GET")
  then json 405 (failure E_METHOD)
  else
  match validateAndNormalizeQuery (Some (default [] (query req))) with
  | Invalid error =>
      emit (Console "warn" [JStr "Validation failed for /api/convert:";
                            JStr error; JStr "query="; js_of_query (query req)]);;
      json 400 (failure error)
  | Valid fromCurrency toCurrency amount =>
      let fallbackRate :=
        getFallbackRate (now_fallback w) fromCurrency toCurrency in
      let apiKey := EXCHANGE_RATE_API_KEY w in
      if negb (str_truthy apiKey) then
        emit (Console "warn"
                [JStr "Missing EXCHANGE_RATE_API_KEY environment variable; using fallback data";
                 JObj [("fallbackDefaulted", JBool (defaulted fallbackRate))]]);;
        json 200 (success (rate fallbackRate)
                    (converted amount (rate fallbackRate))
                    fromCurrency toCurrency
                    (JStr (lastUpdated fallbackRate)) "fallback")
      else
        cached ← readFromCache (now_lookup w) fromCurrency;
        match cached_rate cached toCurrency with
        | Some r =>
            json 200 (success r (converted amount r) fromCurrency toCurrency
                        (get (default JNull cached) "time_last_update_utc")
                        "cache")
        | None =>
            fetched ← fetchRates fromCurrency (default EmptyString apiKey);
            resumed;;
            match fetched with
            | inr d =>
                writeToCache (now_resumed w) fromCurrency d;;
                match rate_in d toCurrency with
                | None =>
                    emit (Console "warn"
                            [JStr "Rate missing for pair";
                             JObj [("fromCurrency", JStr fromCurrency);
                                   ("toCurrency", JStr toCurrency);
                                   ("payloadKeys",
                                    JArr (map JStr (keys_or_empty
                                            (get d "conversion_rates"))))]]);;
                    json 400 (failure (E_PAIR fromCurrency toCurrency))
                | Some r =>
                    json 200 (success r (converted amount r)
                                fromCurrency toCurrency
                                (get d "time_last_update_utc") "upstream")
                end
            | inl err =>
                cached ← readFromCache (now_resumed w) fromCurrency;
                match cached_rate cached toCurrency with
                | Some r =>
                    emit (Console "warn"
                            [JStr "Using cached data due to upstream failure";
                             JObj [("error", JStr (err_message err))]]);;
                    json 200 (success r (converted amount r)
                                fromCurrency toCurrency
                                (get (default JNull cached) "time_last_update_utc")
                                "cache-fallback")
                | None =>
                    let isAbort := String.eqb (err_name err) "AbortError" in
                    emit (Console "warn"
                            [JStr "Upstream fetch failed, using fallback data";
                             JObj [("message", JStr (err_message err));
                                   ("timeout", if isAbort
                                               then js_of_Z (TIMEOUT_MS cfg)
                                               else JUndefined);
                                   ("fallbackDefaulted",
                                    JBool (defaulted fallbackRate))]]);;
                    json 200 (success (rate fallbackRate)
                                (converted amount (rate fallbackRate))
                                fromCurrency toCurrency
                                (JStr (lastUpdated fallbackRate)) "fallback")
                end
            end
        end
  end.

End Run.

End Engine.

(** * The Express server ([server.js])

    The route [/api/convert] of the Express server, which serves the same
    conversions as the serverless handler from the same static table, the
    session store that guards it, and the helper of [utils/logger.js]
    that names the client in its log lines.

    The calls that the route makes to the logging functions
    ([logSiemEvent], [logger.warn], [logError]) and to [fetch] are
    recorded, in order, as the [Effect]s of a run.  A header value is a
    string of code units below 256, as Node decodes header bytes.  The
    query of a request is a [Query], as it reaches the route: the values
    that are objects, which the parser of Express builds from bracketed
    names, are left out. *)

Section Server.

Context `{JsRuntime}.

(** An Express request, by the fields that the code reads. *)
Record ExpressRequest := {
  req_method : string;
  req_originalUrl : option string;
  req_url : option string;
  req_path : string;
  req_query : option Query;
  req_body : JsVal;
  req_headers : list (string * string);
  req_ip : option string;
  req_connection_remoteAddress : option string;
  req_socket_remoteAddress : option string;
  req_correlationId : JsVal
}.

Definition js_of_string (s : option string) : JsVal :=
  match s with
  | Some s => JStr s
  | None => JUndefined
  end.

(** [a || b] on strings that may be undefined. *)
Definition str_or (a b : option string) : option string :=
  if str_truthy a then a else b.

(** [getClientIP], [utils/logger.js] lines 206 to 213. *)
Definition getClientIP (req : ExpressRequest) : string :=
  let forwarded :=
    match prop "x-forwarded-for" (req_headers req) with
    | Some h =>
        if negb (String.eqb h EmptyString)
        then Some (header_trim (hd EmptyString (str_split "," h)))
        else None
    | None => None
    end in
  default "unknown"
    (str_or (req_ip req)
       (str_or (req_connection_remoteAddress req)
          (str_or (req_socket_remoteAddress req)
             (str_or forwarded
                (str_or (prop "x-real-ip" (req_headers req))
                   (Some "unknown")))))).

(** What the [catch] block of the route has caught. *)
Inductive Thrown :=
| ThrownError (err : JsError)
| ThrownNew (message : JsVal)
| ThrownTypeError (target : JsVal).

(** The calls of a run, in order: [logSiemEvent(eventType, details, req,
    req.correlationId)], [logger.<level>(message, meta)],
    [logError(error, context)] and [fetch(url)].  [ThrownNew v] is
    [new Error(v)], [ThrownTypeError v] the error of reading a property of
    [v], which is null or undefined. *)
Inductive Effect :=
| SiemCall (eventType : string) (details : list (string * JsVal))
| LoggerCall (level message : string) (meta : list (string * JsVal))
| LogErrorCall (error : Thrown) (context : list (string * JsVal))
| FetchCall (url : string).

(** ** Validation config, lines 212 to 219 *)

Definition SERVER_ALLOWED_CURRENCIES : list string :=
  ["USD"; "EUR"; "GBP"; "JPY"; "AUD"; "CAD"; "CHF"; "CNY"; "HKD"; "NZD";
   "SEK"; "KRW"; "SGD"; "NOK"; "MXN"; "INR"; "RUB"; "BRL"; "ZAR"; "TRY";
   "DKK"; "PLN"; "THB"; "MYR"; "IDR"; "HUF"; "CZK"; "ILS"; "PHP"; "CLP";
   "AED"; "SAR"; "COP"; "ARS"; "VND"; "EGP"; "NGN"; "KZT"; "PKR"; "BDT"].

Definition validateCurrencyCode (code : string) : bool :=
  ISO_CURRENCY_REGEX code && has SERVER_ALLOWED_CURRENCIES code.

Definition E_CODES : string :=
  "Currency codes must be supported 3-letter ISO codes.".
Definition E_AMOUNT_INVALID : string :=
  "Invalid or negative " +:+ quoted "amount" +:+ " provided.".
Definition E_AMOUNT_8_DECIMALS : string :=
  quoted "amount" +:+ " may have at most 8 decimal places.".

(** ** The route, lines 389 to 518 *)

(** The surroundings of one run of the route: the credential, the clock
    read in [getFallbackRate] and the clock read when the response is
    built, and how the one upstream call settles. *)
Record RouteWorld := {
  route_api_key : option string;
  route_now_fallback : Z;
  route_now_respond : Z;
  route_upstream : Outcome
}.

Definition with_correlation (req : ExpressRequest)
    (payload : list (string * JsVal)) : list (string * JsVal) :=
  payload ++ [("correlationId", req_correlationId req)].

Definition refuse (req : ExpressRequest) (error : string) : Response :=
  {| http_status := 400; body := with_correlation req (failure error) |}.

(** [respondWithRate], lines 417 to 461. *)
Definition respondWithRate (rw : RouteWorld) (req : ExpressRequest)
    (fromCurrency toCurrency : string) (r : num) (source : string)
    (updated : JsVal) : list Effect * Response :=
  let respond (convertedAmount : option num) : list Effect * Response :=
    ([], {| http_status := 200;
            body := with_correlation req
                      (success r convertedAmount fromCurrency toCurrency
                         (if truthy updated then updated
                          else JStr (toISOString (route_now_respond rw)))
                         source) |}) in
  let query := default [] (req_query req) in
  if has (Object_keys query) "amount" then
    let rawAmt := trim (q_String (prop "amount" query)) in
    if negb (PLAIN_DECIMAL_REGEX rawAmt) then
      ([SiemCall "VALIDATION_FAILED"
          [("reason", JStr "Invalid amount format");
           ("providedAmount", JStr rawAmt);
           ("path", JStr (req_path req))]],
       refuse req E_AMOUNT_PLAIN)
    else
      let n := Number rawAmt in
      if negb (Number_isFinite n) || Number_isNaN n || num_lt n (Number "0")
      then
        ([SiemCall "VALIDATION_FAILED"
            [("reason", JStr "Invalid or negative amount");
             ("providedAmount", JStr rawAmt);
             ("parsedValue", JNum n);
             ("path", JStr (req_path req))]],
         refuse req E_AMOUNT_INVALID)
      else
        match str_split "." rawAmt !! 1%nat with
        | Some frac =>
            if negb (String.eqb frac EmptyString)
               && (8 <? Z.of_nat (String.length frac))
            then
              ([SiemCall "VALIDATION_FAILED"
                  [("reason", JStr "Amount exceeds decimal precision limit");
                   ("providedAmount", JStr rawAmt);
                   ("decimalPlaces", js_of_Z (Z.of_nat (String.length frac)));
                   ("path", JStr (req_path req))]],
               refuse req E_AMOUNT_8_DECIMALS)
            else respond (Some (Number (toFixed (num_mul n r) 6)))
        | None => respond (Some (Number (toFixed (num_mul n r) 6)))
        end
  else respond None.

(** The [try] block of the route after the call of [fetch], lines 477 to
    501: what it throws, or the response it returns. *)
Definition route_try (rw : RouteWorld) (req : ExpressRequest)
    (fromCurrency toCurrency : string) : Thrown + list Effect * Response :=
  match route_upstream rw with
  | Rejects err => inl (ThrownError err)
  | Resolves response =>
      if negb (res_ok response)
      then inl (ThrownError
                  (Error ("Upstream API error: "
                            +:+ pretty (res_status response))))
      else
        match res_json response with
        | inl err => inl (ThrownError err)
        | inr (JNull as d) | inr (JUndefined as d) => inl (ThrownTypeError d)
        | inr d =>
            if negb (match get d "result" with
                     | JStr s => String.eqb s "success"
                     | _ => false
                     end)
               || negb (truthy (get d "conversion_rates"))
            then inl (if truthy (get d "error") then ThrownNew (get d "error")
                      else ThrownError
                             (Error "Unexpected response from ExchangeRate-API"))
            else
              match get (get d "conversion_rates") toCurrency with
              | JNum r =>
                  inr (respondWithRate rw req fromCurrency toCurrency r
                         "upstream" (get d "time_last_update_utc"))
              | _ =>
                  inr ([LoggerCall "warn" "Exchange rate not available"
                          [("fromCurrency", JStr fromCurrency);
                           ("toCurrency", JStr toCurrency);
                           ("path", JStr (req_path req));
                           ("ip", JStr (getClientIP req))]],
                       {| http_status := 400;
                          body := failure (E_PAIR fromCurrency toCurrency) |})
              end
        end
  end.

(** [effects >> run]: the calls [effects], then the run. *)
Definition preceded {A : Type} (effects : list Effect)
    (run : list Effect * A) : list Effect * A :=
  (effects ++ fst run, snd run).

(** The handler of [app.get('/api/convert', ...)]. *)
Definition convert_route (rw : RouteWorld) (req : ExpressRequest)
  : list Effect * Response :=
  let query := default [] (req_query req) in
  let from := prop "from" query in
  let to := prop "to" query in
  let apiKey := route_api_key rw in
  if q_falsy from || q_falsy to then
    ([SiemCall "VALIDATION_FAILED"
        [("reason", JStr "Missing required query parameters");
         ("providedParams", JArr (map JStr (Object_keys query)));
         ("path", JStr (req_path req))]],
     refuse req E_MISSING)
  else
    let fromCurrency := toUpperCase (q_String from) in
    let toCurrency := toUpperCase (q_String to) in
    if negb (validateCurrencyCode fromCurrency)
       || negb (validateCurrencyCode toCurrency)
    then
      ([SiemCall "VALIDATION_FAILED"
          [("reason", JStr "Invalid currency code");
           ("fromCurrency", JStr fromCurrency);
           ("toCurrency", JStr toCurrency);
           ("path", JStr (req_path req))]],
       refuse req E_CODES)
    else
      let fallback :=
        getFallbackRate (route_now_fallback rw) fromCurrency toCurrency in
      if negb (str_truthy apiKey) then
        preceded
          [LoggerCall "warn"
             "Exchange rate API key is not configured; using fallback data"
             [("path", JStr (req_path req));
              ("ip", JStr (getClientIP req));
              ("fromCurrency", JStr fromCurrency);
              ("toCurrency", JStr toCurrency);
              ("fallbackDefaulted", JBool (defaulted fallback))]]
          (respondWithRate rw req fromCurrency toCurrency (rate fallback)
             "fallback" (JStr (lastUpdated fallback)))
      else
        let url := EXCHANGE_API_BASE +:+ "/" +:+ default EmptyString apiKey
                     +:+ "/latest/" +:+ fromCurrency in
        preceded [FetchCall url]
          match route_try rw req fromCurrency toCurrency with
          | inr answered => answered
          | inl error =>
              preceded
                [LogErrorCall error
                   [("path", JStr (req_path req));
                    ("fromCurrency", JStr fromCurrency);
                    ("toCurrency", JStr toCurrency);
                    ("ip", JStr (getClientIP req));
                    ("userAgent",
                     js_of_string (prop "user-agent" (req_headers req)))];
                 LoggerCall "warn" "Using fallback rate due to upstream failure"
                   [("fromCurrency", JStr fromCurrency);
                    ("toCurrency", JStr toCurrency);
                    ("path", JStr (req_path req));
                    ("fallbackDefaulted", JBool (defaulted fallback))]]
                (respondWithRate rw req fromCurrency toCurrency
                   (rate fallback) "fallback" (JStr (lastUpdated fallback)))
          end.

(** ** Sessions, lines 108 to 149 *)

Record Session := { username : string; expiresAt : Z }.

Definition Sessions := gmap string Session.

(** [createSession], lines 116 to 121; [token] is what [uuidv4()]
    returns, [now] the clock, [ttl] is [SESSION_TTL_MS]. *)
Definition createSession (token : string) (now ttl : Z) (user : string)
    (activeSessions : Sessions) : (string * Z) * Sessions :=
  let expires := now + ttl in
  ((token, expires),
   <[token := {| username := user; expiresAt := expires |}]> activeSessions).

(** [validateSession], lines 123 to 131. *)
Definition validateSession (now : Z) (token : option string)
    (activeSessions : Sessions) : option Session * Sessions :=
  match (if str_truthy token
         then activeSessions !! default EmptyString token else None) with
  | None => (None, activeSessions)
  | Some session =>
      if expiresAt session <=? now
      then (None, delete (default EmptyString token) activeSessions)
      else (Some session, activeSessions)
  end.

(** The class [\s] and the line terminators, on code units below 256. *)
Definition regex_space (c : ascii) : bool :=
  is_space c || (N_of_ascii c =? 160)%N.

Definition line_terminator (c : ascii) : bool :=
  (N_of_ascii c =? 10)%N || (N_of_ascii c =? 13)%N.

(** [strip_prefix_ci p s]: what follows [p] in [s], when [s] starts with
    [p] up to the case of the ASCII letters. *)
Fixpoint strip_prefix_ci (p s : string) : option string :=
  match p, s with
  | EmptyString, _ => Some s
  | String a p', String b s' =>
      if Ascii.eqb (upper_char a) (upper_char b) then strip_prefix_ci p' s'
      else None
  | String _ _, EmptyString => None
  end.

(** The leading [\s] characters of a string, and what follows them. *)
Fixpoint span_space (s : string) : string * string :=
  match s with
  | String c r =>
      if regex_space c
      then let '(ws, rest) := span_space r in (String c ws, rest)
      else (EmptyString, s)
  | EmptyString => (EmptyString, EmptyString)
  end.

Fixpoint last_char (s : string) : option ascii :=
  match s with
  | EmptyString => None
  | String c EmptyString => Some c
  | String _ r => last_char r
  end.

(** The group of [/^Bearer\s+(.+)$/i] on a header, when it matches.  The
    greedy [\s+] takes all the white space after the word, unless nothing
    follows it: then it gives its last character back to the group. *)
Definition bearer_token (header : string) : option string :=
  match strip_prefix_ci "Bearer" header with
  | None => None
  | Some rest =>
      let '(ws, token) := span_space rest in
      match ws, token with
      | EmptyString, _ => None
      | String _ _, String _ _ =>
          if all_chars (fun c => negb (line_terminator c)) token
          then Some token else None
      | String _ ws', EmptyString =>
          match last_char ws' with
          | Some c => if line_terminator c then None
                      else Some (String c EmptyString)
          | None => None
          end
      end
  end.

(** What a middleware does with a request: it answers it, or it passes
    it on with [req.user.username] and [req.authToken] set. *)
Inductive Guarded :=
| Refuses (resp : Response)
| Passes (user authToken : string).

Definition E_UNAUTHORIZED : string := "Unauthorized. Please log in again.".

(** [authMiddleware], lines 133 to 149. *)
Definition authMiddleware (now : Z) (req : ExpressRequest)
    (activeSessions : Sessions) : list Effect * Guarded * Sessions :=
  let header := default EmptyString
                  (str_or (prop "authorization" (req_headers req))
                     (Some EmptyString)) in
  let token := bearer_token header in
  match validateSession now token activeSessions with
  | (None, sessions) =>
      ([SiemCall "AUTH_FAILED"
          [("reason", JStr "Missing or invalid token");
           ("path", JStr (req_path req))]],
       Refuses {| http_status := 401;
                  body := with_correlation req (failure E_UNAUTHORIZED) |},
       sessions)
  | (Some session, sessions) =>
      ([], Passes (username session) (default EmptyString token), sessions)
  end.

(** [app.get('/api/convert', authMiddleware, ...)], line 389: the route
    behind its guard. *)
Definition convert_endpoint (now : Z) (rw : RouteWorld)
    (req : ExpressRequest) (activeSessions : Sessions)
  : list Effect * Response * Sessions :=
  match authMiddleware now req activeSessions with
  | (effects, Refuses resp, sessions) => (effects, resp, sessions)
  | (effects, Passes _ _, sessions) =>
      (preceded effects (convert_route rw req), sessions)
  end.

(** [app.post('/api/logout', authMiddleware, ...)], lines 301 to 309. *)
Definition logout_endpoint (now : Z) (req : ExpressRequest)
    (activeSessions : Sessions) : list Effect * Response * Sessions :=
  match authMiddleware now req activeSessions with
  | (effects, Refuses resp, sessions) => (effects, resp, sessions)
  | (effects, Passes user authToken, sessions) =>
      (effects ++ [SiemCall "AUTH_LOGOUT" [("username", JStr user)]],
       {| http_status := 200;
          body := with_correlation req [("success", JBool true)] |},
       if negb (String.eqb authToken EmptyString)
       then delete authToken sessions else sessions)
  end.

(** ** The vocabulary of the properties of the server *)

(** The URLs of the upstream calls of a run. *)
Definition fetched_urls (effects : list Effect) : list string :=
  omap (fun e => match e with
                 | FetchCall url => Some url
                 | _ => None
                 end) effects.

Definition route_url (rw : RouteWorld) (fromCurrency : string) : string :=
  EXCHANGE_API_BASE +:+ "/" +:+ default EmptyString (route_api_key rw)
    +:+ "/latest/" +:+ fromCurrency.

(** The conditions under which [respondWithRate] keeps the text of an
    amount. *)
Definition route_amount_accepted (t : string) (n : num) : Prop :=
  PLAIN_DECIMAL_REGEX t = true
  /\ n = Number t
  /\ Number_isFinite n = true
  /\ Number_isNaN n = false
  /\ num_lt n (Number "0") = false
  /\ forall frac, str_split "." t !! 1%nat = Some frac ->
                  Z.of_nat (String.length frac) <= 8.

(** The request passes the checks of the route: its codes are, in upper
    case, [fromCurrency] and [toCurrency], both of the whitelist, and its
    amount is absent or kept as [amount]. *)
Definition route_accepts (req : ExpressRequest)
    (fromCurrency toCurrency : string) (amount : option num) : Prop :=
  let query := default [] (req_query req) in
  fromCurrency = toUpperCase (q_String (prop "from" query))
  /\ toCurrency = toUpperCase (q_String (prop "to" query))
  /\ In fromCurrency SERVER_ALLOWED_CURRENCIES
  /\ In toCurrency SERVER_ALLOWED_CURRENCIES
  /\ match amount with
     | None => prop "amount" query = None
     | Some n =>
         exists v, prop "amount" query = Some v
                   /\ route_amount_accepted (trim (q_String (Some v))) n
     end.

(** The upstream call fails: it rejects, or it resolves with a status
    that is not 2xx, or with a body that is no JSON, or with a payload
    that is not of the expected shape. *)
Definition upstream_failed (settled : Outcome) : Prop :=
  match settled with
  | Rejects _ => True
  | Resolves response =>
      res_ok response = false
      \/ match res_json response with
         | inl _ => True
         | inr d =>
             get d "result" <> JStr "success"
             \/ truthy (get d "conversion_rates") = false
         end
  end.

(** The response of the route that serves the static table. *)
Definition route_fallback_response (rw : RouteWorld) (req : ExpressRequest)
    (fromCurrency toCurrency : string) (amount : option num) : Response :=
  let fallback :=
    getFallbackRate (route_now_fallback rw) fromCurrency toCurrency in
  {| http_status := 200;
     body := with_correlation req
               (success (rate fallback) (converted amount (rate fallback))
                  fromCurrency toCurrency
                  (JStr (if String.eqb (lastUpdated fallback) EmptyString
                         then toISOString (route_now_respond rw)
                         else lastUpdated fallback))
                  "fallback") |}.

(** The value of the Authorization header, or the empty string. *)
Definition authorization (req : ExpressRequest) : string :=
  default EmptyString (prop "authorization" (req_headers req)).

(** The session that the request presents a token of, when there is one
    and it has not expired. *)
Definition live_session (now : Z) (req : ExpressRequest)
    (activeSessions : Sessions) : option Session :=
  token ← bearer_token (authorization req);
  session ← activeSessions !! token;
  if expiresAt session <=? now then None else Some session.

(** The one event of a request that the guard turns away. *)
Definition auth_failed (req : ExpressRequest) : Effect :=
  SiemCall "AUTH_FAILED"
    [("reason", JStr "Missing or invalid token");
     ("path", JStr (req_path req))].

Definition unauthorized (req : ExpressRequest) : Response :=
  {| http_status := 401;
     body := with_correlation req (failure E_UNAUTHORIZED) |}.

End Server.

(** * Request signing (the HMAC module, [utils/fallbackRates.js] lines 26
      to 245)

    What the module asks of Node: [createHmac algorithm secret text] is
    [crypto.createHmac(algorithm, secret).update(text).digest('hex')],
    [JSON_stringify] is [JSON.stringify] on a truthy value, and
    [Date_getTime s] is [new Date(s).getTime()], [None] for [NaN]. *)

Class NodeRuntime `{JsRuntime} := {
  createHmac : string -> string -> string -> string;
  JSON_stringify : JsVal -> string;
  Date_getTime : string -> option Z
}.

Definition lower_char (c : ascii) : ascii :=
  if is_upper c then ascii_of_N (N_of_ascii c + 32) else c.

Fixpoint toLowerCase (s : string) : string :=
  match s with
  | EmptyString => EmptyString
  | String c r => String (lower_char c) (toLowerCase r)
  end.

(** The number of bytes of [Buffer.from(s)]: a code unit below 128 is one
    byte of UTF-8, one from 128 to 255 is two. *)
Fixpoint byteLength (s : string) : nat :=
  match s with
  | EmptyString => O
  | String c r =>
      ((if (N_of_ascii c <? 128)%N then 1 else 2) + byteLength r)%nat
  end.

Section Signing.

Context `{NodeRuntime}.

Definition HMAC_ALGORITHM : string := "sha256".
Definition SIGNATURE_HEADER : string := "X-Signature".
Definition TIMESTAMP_HEADER : string := "X-Timestamp".
Definition CLIENT_ID_HEADER : string := "X-Client-ID".
Definition MAX_TIMESTAMP_SKEW : Z := 5 * 60 * 1000.

Definition newline : string := String "010"%char EmptyString.

(** The canonical string that is signed, line 58. *)
Definition stringToSign (method path timestamp : string) (body : JsVal)
  : string :=
  let bodyString := if truthy body then JSON_stringify body else EmptyString in
  method +:+ newline +:+ path +:+ newline +:+ timestamp +:+ newline
    +:+ bodyString.

(** [generateSignature], lines 55 to 64. *)
Definition generateSignature (method path timestamp : string) (body : JsVal)
    (secret : string) : string :=
  createHmac HMAC_ALGORITHM secret (stringToSign method path timestamp body).

(** [crypto.timingSafeEqual(Buffer.from(a), Buffer.from(b))]: it throws
    when the two buffers differ in length. *)
Definition timingSafeEqual (a b : string) : JsError + bool :=
  if Nat.eqb (byteLength a) (byteLength b) then inr (String.eqb a b)
  else inl {| err_name := "RangeError";
              err_message := "Input buffers must have the same byte length" |}.

(** The result of a verification: [{ valid: false, error, timeDiff }] or
    [{ valid: true, clientId }]. *)
Inductive Verification :=
| Unverified (error : string) (timeDiff : option string)
| Verified (clientId : string).

(** [verifySignature], lines 73 to 128; [now] is the clock read by
    [Date.now()], [inl] is a thrown error.  [Math.round] of a time
    difference in seconds is taken on integers, which is exact below 2^53
    milliseconds. *)
Definition verifySignature (now : Z) (req : ExpressRequest) (secret : string)
  : JsError + Verification :=
  let signature := prop (toLowerCase SIGNATURE_HEADER) (req_headers req) in
  let timestamp := prop (toLowerCase TIMESTAMP_HEADER) (req_headers req) in
  let clientId := prop (toLowerCase CLIENT_ID_HEADER) (req_headers req) in
  if negb (str_truthy signature)
  then inr (Unverified "Missing signature header" None)
  else if negb (str_truthy timestamp)
  then inr (Unverified "Missing timestamp header" None)
  else if negb (str_truthy clientId)
  then inr (Unverified "Missing client ID header" None)
  else
    match Date_getTime (default EmptyString timestamp) with
    | None => inr (Unverified "Invalid timestamp format" None)
    | Some requestTime =>
        let timeDiff := Z.abs (now - requestTime) in
        if MAX_TIMESTAMP_SKEW <? timeDiff
        then inr (Unverified "Request timestamp too old or too far in future"
                    (Some (pretty ((timeDiff + 500) / 1000) +:+ " seconds")))
        else
          let expectedSignature :=
            generateSignature (req_method req) (req_path req)
              (default EmptyString timestamp) (req_body req) secret in
          match timingSafeEqual (default EmptyString signature)
                  expectedSignature with
          | inl err => inl err
          | inr false => inr (Unverified "Invalid signature" None)
          | inr true => inr (Verified (default EmptyString clientId))
          end
    end.

(** The options of the middleware, with their defaults. *)
Record HmacOptions := { optional : bool; logFailures : bool }.

Definition default_options : HmacOptions :=
  {| optional := false; logFailures := true |}.

(** The secret given to the middleware: a value, undefined when it is
    not configured, or a function from the client id to the secret of
    that client. *)
Inductive Secret :=
| SecretValue (secret : option string)
| SecretFunction (lookup : option string -> option string).

(** What the middleware does with a request: it answers it, or it calls
    [next()], with [req.authenticatedClient] set unless it skipped the
    verification. *)
Inductive HmacOutcome :=
| HmacAnswered (resp : Response)
| HmacNext (authenticatedClient : option (list (string * JsVal))).

Definition hmac_refusal (req : ExpressRequest) (error : string) : Response :=
  {| http_status := 401; body := with_correlation req (failure error) |}.

(** [hmacAuthMiddleware], lines 137 to 195; [now_verify] is the clock
    read in [verifySignature], [now_passed] the clock read for
    [authenticatedAt]. *)
Definition hmacAuthMiddleware (secret : Secret) (options : HmacOptions)
    (now_verify now_passed : Z) (req : ExpressRequest)
  : JsError + list Effect * HmacOutcome :=
  if optional options
     && negb (str_truthy (prop (toLowerCase SIGNATURE_HEADER) (req_headers req)))
  then inr ([], HmacNext None)
  else
    let clientId := prop (toLowerCase CLIENT_ID_HEADER) (req_headers req) in
    let actualSecret :=
      match secret with
      | SecretFunction lookup => lookup clientId
      | SecretValue s => s
      end in
    if negb (str_truthy actualSecret) then
      inr ([SiemCall "UNAUTHORIZED_ACCESS"
              [("reason", JStr "No secret configured for client");
               ("clientId",
                js_of_string (str_or clientId (Some "unknown")))]],
           HmacAnswered (hmac_refusal req "Authentication required"))
    else
      match verifySignature now_verify req (default EmptyString actualSecret)
      with
      | inl err => inl err
      | inr (Unverified error timeDiff) =>
          inr (if logFailures options
               then [SiemCall "UNAUTHORIZED_ACCESS"
                       [("reason", JStr "HMAC verification failed");
                        ("error", JStr error);
                        ("clientId",
                         js_of_string (str_or clientId (Some "unknown")));
                        ("timeDiff", js_of_string timeDiff)]]
               else [],
               HmacAnswered (hmac_refusal req "Authentication failed"))
      | inr (Verified verifiedId) =>
          inr ([],
               HmacNext
                 (Some [("clientId", JStr verifiedId);
                        ("authenticatedAt", JStr (toISOString now_passed));
                        ("method",
                         JStr ("HMAC-" +:+ toUpperCase HMAC_ALGORITHM))]))
      end.

(** [createSignedRequestHeaders], lines 224 to 234; [now] is the clock
    read by [new Date()]. *)
Definition createSignedRequestHeaders (now : Z) (method path : string)
    (body : JsVal) (clientId secret : string) : list (string * string) :=
  let timestamp := toISOString now in
  let signature := generateSignature method path timestamp body secret in
  [(SIGNATURE_HEADER, signature);
   (TIMESTAMP_HEADER, timestamp);
   (CLIENT_ID_HEADER, clientId);
   ("Content-Type", "application/json")].

(** The headers of a request as Node hands them over: the names in lower
    case. *)
Definition received (headers : list (string * string))
  : list (string * string) :=
  map (fun kv => (toLowerCase (fst kv), snd kv)) headers.

(** The fields of a request that the signature covers, with the two
    headers of the signature itself. *)
Definition signed_part (req : ExpressRequest)
  : string * string * JsVal * option string * option string :=
  (req_method req, req_path req, req_body req,
   prop (toLowerCase SIGNATURE_HEADER) (req_headers req),
   prop (toLowerCase TIMESTAMP_HEADER) (req_headers req)).

End Signing.

(** * Security events ([utils/siem.js]) *)

Section Siem.

Context `{JsRuntime}.

Definition SEVERITY_LEVELS : list (string * Z) :=
  [("CRITICAL", 10); ("HIGH", 8); ("MEDIUM", 6); ("LOW", 4); ("INFO", 2)].

Record EventConfig := { category : string; severity : Z }.

(** [EVENT_TYPES], lines 34 to 47, with the categories and the severities
    written out. *)
Definition EVENT_TYPES : list (string * EventConfig) :=
  [("LOGIN_SUCCESS", {| category := "auth"; severity := 2 |});
   ("LOGIN_FAILURE", {| category := "auth"; severity := 6 |});
   ("UNAUTHORIZED_ACCESS", {| category := "authz"; severity := 8 |});
   ("RATE_LIMIT_EXCEEDED", {| category := "rate_limit"; severity := 6 |});
   ("CORS_BLOCKED", {| category := "cors"; severity := 6 |});
   ("VALIDATION_FAILED", {| category := "validation"; severity := 4 |});
   ("SUSPICIOUS_PATTERN", {| category := "suspicious"; severity := 8 |});
   ("PATH_TRAVERSAL_ATTEMPT", {| category := "suspicious"; severity := 10 |});
   ("SQL_INJECTION_ATTEMPT", {| category := "suspicious"; severity := 10 |});
   ("XSS_ATTEMPT", {| category := "suspicious"; severity := 8 |});
   ("API_KEY_MISSING", {| category := "config"; severity := 6 |});
   ("SYSTEM_ERROR", {| category := "system"; severity := 8 |})].

(** An event of the metrics store: the SIEM event, with its timestamp
    replaced by the number [stamp]. *)
Record StoredEvent := { stamp : Z; stored : list (string * JsVal) }.

Definition maxAge : Z := 24 * 60 * 60 * 1000.
Definition maxEvents : Z := 10000.

(** [SecurityMetrics.cleanup], lines 65 to 75; [now] is the clock. *)
Definition cleanup (now : Z) (events : list StoredEvent) : list StoredEvent :=
  let cutoff := now - maxAge in
  let recent := List.filter (fun e => cutoff <? stamp e) events in
  if maxEvents <? Z.of_nat (length recent)
  then drop (length recent - Z.to_nat maxEvents) recent
  else recent.

(** [SecurityMetrics.addEvent], lines 57 to 63. *)
Definition addEvent (now_added now_cleanup : Z) (event : list (string * JsVal))
    (events : list StoredEvent) : list StoredEvent :=
  cleanup now_cleanup (events ++ [{| stamp := now_added; stored := event |}]).

(** The surroundings of one call of [logSiemEvent]: the environment, the
    identifier that [uuidv4()] would return, and the three readings of the
    clock. *)
Record SiemWorld := {
  NODE_ENV : option string;
  HOSTNAME : option string;
  siem_uuid : string;
  siem_now_created : Z;
  siem_now_added : Z;
  siem_now_cleanup : Z
}.

Definition eventConfig (eventType : string) : EventConfig :=
  default {| category := "system"; severity := 2 |} (prop eventType EVENT_TYPES).

(** [createSiemEvent], lines 147 to 184, for an event type that is not a
    property of [Object.prototype]. *)
Definition createSiemEvent (sw : SiemWorld) (eventType : string)
    (details : list (string * JsVal)) (req : option ExpressRequest)
    (correlationId : JsVal) (metrics : list StoredEvent)
  : list (string * JsVal) * list StoredEvent :=
  let config := eventConfig eventType in
  let event :=
    [("correlationId",
      if truthy correlationId then correlationId else JStr (siem_uuid sw));
     ("timestamp", JStr (toISOString (siem_now_created sw)));
     ("eventType", JStr eventType);
     ("category", JStr (category config));
     ("severity", js_of_Z (severity config));
     ("severityName",
      js_of_string
        (fst <$> find (fun kv => snd kv =? severity config) SEVERITY_LEVELS));
     ("sourceIP",
      JStr (match req with
            | Some r => getClientIP r
            | None => "system"
            end));
     ("userAgent",
      js_of_string
        (str_or (req ≫= (fun r => prop "user-agent" (req_headers r)))
           (Some "unknown")));
     ("method", js_of_string (req_method <$> req));
     ("path",
      js_of_string (req ≫= (fun r => str_or (req_originalUrl r) (req_url r))));
     ("query", match req with
               | Some r => js_of_query (req_query r)
               | None => JUndefined
               end);
     ("details", JObj details);
     ("application", JStr "currency-converter");
     ("environment", js_of_string (str_or (NODE_ENV sw) (Some "development")));
     ("host", js_of_string (str_or (HOSTNAME sw) (Some "localhost")))] in
  (event,
   addEvent (siem_now_added sw) (siem_now_cleanup sw) event metrics).

(** [logSiemEvent], lines 194 to 207: the correlation id it returns, the
    line it logs, and the metrics store afterwards. *)
Definition logSiemEvent (sw : SiemWorld) (eventType : string)
    (details : list (string * JsVal)) (req : option ExpressRequest)
    (correlationId : JsVal) (metrics : list StoredEvent)
  : JsVal * list Effect * list StoredEvent :=
  let '(event, metrics') :=
    createSiemEvent sw eventType details req correlationId metrics in
  let level :=
    if 8 <=? severity (eventConfig eventType) then "error"
    else if 6 <=? severity (eventConfig eventType) then "warn"
    else "info" in
  (default JUndefined (prop "correlationId" event),
   [LoggerCall level "SIEM Security Event" event],
   metrics').

End Siem.

(** ** An exact runtime

    Numbers as exact decimals ([None] is [NaN]): what a double is when
    nothing rounds.  It runs the definitions on concrete requests.  Of the
    characters outside ASCII, [toUpperCase] maps the ones whose capitals
    are ASCII letters and keeps the others, whose capitals are outside
    ASCII in the runtime as well. *)

Module Exact.

Fixpoint digits (acc : Z) (s : string) : Z :=
  match s with
  | String c r =>
      if is_digit c then digits (10 * acc + (Z.of_N (N_of_ascii c) - 48)) r
      else acc
  | EmptyString => acc
  end.

Definition parse (s : string) : Q :=
  let negative := prefix_at "-" s in
  let unsigned :=
    match s with
    | String c r => if Ascii.eqb c "+" || Ascii.eqb c "-" then r else s
    | EmptyString => s
    end in
  let frac :=
    match drop_digits unsigned with
    | String _ r => r
    | EmptyString => EmptyString
    end in
  let scale := 10 ^ Z.of_nat (String.length frac) in
  let magnitude := digits 0 unsigned * scale + digits 0 frac in
  Qred (Qmake (if negative then - magnitude else magnitude) (Z.to_pos scale)).

Definition Number (s : string) : option Q :=
  if PLAIN_DECIMAL_REGEX s then Some (parse s) else None.

Fixpoint zeros (n : nat) : string :=
  match n with
  | O => EmptyString
  | S n' => String "0" (zeros n')
  end.

Definition pad (width : nat) (s : string) : string :=
  zeros (width - String.length s) +:+ s.

(** [x.toFixed(d)]: the integer [n] nearest to [|x| * 10^d], the larger
    one at a tie, printed with [d] digits after the point. *)
Definition toFixed (x : option Q) (d : Z) : string :=
  match x with
  | None => "NaN"
  | Some q =>
      let n := Qfloor (Qabs q * inject_Z (10 ^ d) + (1 # 2)) in
      (if (Qnum q <? 0) then "-" else EmptyString)
        +:+ pretty (n / 10 ^ d)
        +:+ (if 0 <? d then "." +:+ pad (Z.to_nat d) (pretty (n mod 10 ^ d))
             else EmptyString)
  end.

Definition lift2 (f : Q -> Q -> bool) (a b : option Q) : bool :=
  match a, b with
  | Some x, Some y => f x y
  | _, _ => false
  end.

(** Days since the epoch to year, month and day of the civil calendar. *)
Definition civil (days : Z) : Z * Z * Z :=
  let z := days + 719468 in
  let era := z / 146097 in
  let doe := z - era * 146097 in
  let yoe := (doe - doe / 1460 + doe / 36524 - doe / 146096) / 365 in
  let doy := doe - (365 * yoe + yoe / 4 - yoe / 100) in
  let mp := (5 * doy + 2) / 153 in
  let d := doy - (153 * mp + 2) / 5 + 1 in
  let m := if mp <? 10 then mp + 3 else mp - 9 in
  (yoe + era * 400 + (if m <=? 2 then 1 else 0), m, d).

(** For the years 0000 to 9999. *)
Definition toISOString (t : Z) : string :=
  let '(y, m, d) := civil (t / 86400000) in
  let ms := t mod 86400000 in
  let p2 z := pad 2 (pretty z) in
  pad 4 (pretty y) +:+ "-" +:+ p2 m +:+ "-" +:+ p2 d +:+ "T"
    +:+ p2 (ms / 3600000) +:+ ":" +:+ p2 (ms / 60000 mod 60) +:+ ":"
    +:+ p2 (ms / 1000 mod 60) +:+ "." +:+ pad 3 (pretty (ms mod 1000)) +:+ "Z".

(** The characters outside ASCII whose capitals are ASCII letters, by
    their UTF-8 bytes: U+00DF, U+0131, U+017F and the ligatures U+FB00 to
    U+FB06. *)
Definition CAPITALS : list (string * string) :=
  [(bytes [195; 159]%N, "SS"); (bytes [196; 177]%N, "I");
   (bytes [197; 191]%N, "S"); (bytes [239; 172; 128]%N, "FF");
   (bytes [239; 172; 129]%N, "FI"); (bytes [239; 172; 130]%N, "FL");
   (bytes [239; 172; 131]%N, "FFI"); (bytes [239; 172; 132]%N, "FFL");
   (bytes [239; 172; 133]%N, "ST"); (bytes [239; 172; 134]%N, "ST")].

Fixpoint toUpperCase (fuel : nat) (s : string) : string :=
  match fuel, s with
  | S fuel', String c r =>
      match find (fun kv => prefix_at (fst kv) s) CAPITALS with
      | Some kv =>
          snd kv +:+ toUpperCase fuel' (drop_chars (String.length (fst kv)) s)
      | None => String (upper_char c) (toUpperCase fuel' r)
      end
  | _, _ => EmptyString
  end.

End Exact.

#[export] Instance ExactRuntime : JsRuntime := {|
  num := option Q;
  Number := Exact.Number;
  Number_isFinite x := bool_decide (is_Some x);
  Number_isNaN x := negb (bool_decide (is_Some x));
  Math_abs x := Qabs <$> x;
  num_gt := Exact.lift2 (fun a b => negb (Qle_bool a b));
  num_lt := Exact.lift2 (fun a b => negb (Qle_bool b a));
  num_mul a b := match a, b with
                 | Some x, Some y => Some (Qred (x * y))
                 | _, _ => None
                 end;
  toFixed := Exact.toFixed;
  num_falsy x := match x with
                 | Some q => Qeq_bool q 0
                 | None => true
                 end;
  toISOString := Exact.toISOString;
  toUpperCase_unicode s := Exact.toUpperCase (String.length s) s
|}.

(** ** A Node runtime for the scenarios

    The digest is HMAC with SHA-256 (RFC 2104, FIPS 180-4) on the UTF-8
    bytes; [JSON.stringify] prints the numbers that JavaScript prints
    without an exponent; of the formats that [Date] parses, the one that
    [toISOString] prints is read. *)

Module Sha256.

Definition word (x : Z) : Z := x mod 2 ^ 32.

Definition rotr (n x : Z) : Z :=
  Z.lor (Z.shiftr x n) (word (Z.shiftl x (32 - n))).

Definition xor3 (a b c : Z) : Z := Z.lxor (Z.lxor a b) c.

Definition Ch (x y z : Z) : Z :=
  Z.lxor (Z.land x y) (Z.land (Z.lxor x (2 ^ 32 - 1)) z).

Definition Maj (x y z : Z) : Z :=
  xor3 (Z.land x y) (Z.land x z) (Z.land y z).

Definition Sigma0 (x : Z) : Z := xor3 (rotr 2 x) (rotr 13 x) (rotr 22 x).
Definition Sigma1 (x : Z) : Z := xor3 (rotr 6 x) (rotr 11 x) (rotr 25 x).
Definition sigma0 (x : Z) : Z := xor3 (rotr 7 x) (rotr 18 x) (Z.shiftr x 3).
Definition sigma1 (x : Z) : Z := xor3 (rotr 17 x) (rotr 19 x) (Z.shiftr x 10).

(** The constants of FIPS 180-4: the first 32 bits of the fractional
    parts of the cube roots of the first 64 primes, and of the square
    roots of the first 8. *)
Definition prime (n : Z) : bool :=
  forallb (fun d => negb (n mod d =? 0)) (seqZ 2 (Z.sqrt n - 1)).

Definition primes : list Z := List.filter prime (seqZ 2 310).

(** The largest root of a cube at most [n], between [lo] and [hi]. *)
Fixpoint cube_root (fuel : nat) (lo hi n : Z) : Z :=
  match fuel with
  | O => lo
  | S fuel' =>
      let mid := (lo + hi) / 2 in
      if mid * mid * mid <=? n then cube_root fuel' mid hi n
      else cube_root fuel' lo mid n
  end.

Definition K : list Z :=
  map (fun p => word (cube_root 40 0 (2 ^ 36) (p * 2 ^ 96))) primes.

Definition H0 : list Z :=
  map (fun p => word (Z.sqrt (p * 2 ^ 64))) (take 8 primes).

(** The message schedule: [n] more words after the words [w], the latest
    first. *)
Fixpoint schedule (n : nat) (w : list Z) : list Z :=
  match n with
  | O => w
  | S n' =>
      match w with
      | w1 :: w2 :: _ :: _ :: _ :: _ :: w7 :: _ :: _ :: _ :: _ :: _ :: _ :: _
        :: w15 :: w16 :: _ =>
          schedule n' (word (sigma1 w2 + w7 + sigma0 w15 + w16) :: w)
      | _ => w
      end
  end.

Definition round (state : list Z) (kw : Z * Z) : list Z :=
  match state with
  | [a; b; c; d; e; f; g; h] =>
      let t1 := h + Sigma1 e + Ch e f g + fst kw + snd kw in
      let t2 := Sigma0 a + Maj a b c in
      [word (t1 + t2); a; b; c; word (d + t1); e; f; g]
  | _ => state
  end.

(** The big-endian words of a list of bytes. *)
Fixpoint words (bytes : list Z) (fuel : nat) : list Z :=
  match fuel, bytes with
  | S fuel', a :: b :: c :: d :: rest =>
      (((a * 256 + b) * 256 + c) * 256 + d) :: words rest fuel'
  | _, _ => []
  end.

Definition compress (state : list Z) (block : list Z) : list Z :=
  let w := rev (schedule 48 (rev (words block 16))) in
  let final := fold_left round (combine K w) state in
  map (fun p => word (fst p + snd p)) (combine state final).

Fixpoint blocks (bytes : list Z) (fuel : nat) (state : list Z) : list Z :=
  match fuel with
  | O => state
  | S fuel' =>
      match bytes with
      | [] => state
      | _ => blocks (drop 64 bytes) fuel' (compress state (take 64 bytes))
      end
  end.

Fixpoint big_endian (width : nat) (x : Z) : list Z :=
  match width with
  | O => []
  | S width' => big_endian width' (x / 256) ++ [x mod 256]
  end.

Definition pad (bytes : list Z) : list Z :=
  let l := Z.of_nat (length bytes) in
  bytes ++ [128] ++ repeat 0 (Z.to_nat ((55 - l) mod 64))
    ++ big_endian 8 (8 * l).

Definition digest (bytes : list Z) : list Z :=
  let padded := pad bytes in
  concat (map (big_endian 4) (blocks padded (length padded) H0)).

(** HMAC with SHA-256, RFC 2104. *)
Definition hmac (key text : list Z) : list Z :=
  let key := if 64 <? Z.of_nat (length key) then digest key else key in
  let key := key ++ repeat 0 (64 - length key) in
  digest (map (Z.lxor 92) key ++ digest (map (Z.lxor 54) key ++ text)).

(** The bytes of [Buffer.from(s)]: the UTF-8 encoding of the code units. *)
Fixpoint utf8 (s : string) : list Z :=
  match s with
  | EmptyString => []
  | String c r =>
      let n := Z.of_N (N_of_ascii c) in
      (if n <? 128 then [n] else [192 + n / 64; 128 + n mod 64]) ++ utf8 r
  end.

Definition hex_char (n : Z) : ascii :=
  ascii_of_N (Z.to_N (if n <? 10 then 48 + n else 87 + n)).

Fixpoint hex (bytes : list Z) : string :=
  match bytes with
  | [] => EmptyString
  | b :: rest => String (hex_char (b / 16)) (String (hex_char (b mod 16)) (hex rest))
  end.

End Sha256.

Module Node.

Definition backslash : string := String "092"%char EmptyString.

Definition escape_char (c : ascii) : string :=
  let n := N_of_ascii c in
  if (n =? 34)%N then backslash +:+ dquote
  else if (n =? 92)%N then backslash +:+ backslash
  else if (n =? 8)%N then backslash +:+ "b"
  else if (n =? 12)%N then backslash +:+ "f"
  else if (n =? 10)%N then backslash +:+ "n"
  else if (n =? 13)%N then backslash +:+ "r"
  else if (n =? 9)%N then backslash +:+ "t"
  else if (n <? 32)%N
  then backslash +:+ "u00"
         +:+ String (Sha256.hex_char (Z.of_N n / 16))
               (String (Sha256.hex_char (Z.of_N n mod 16)) EmptyString)
  else String c EmptyString.

Fixpoint escape (s : string) : string :=
  match s with
  | EmptyString => EmptyString
  | String c r => escape_char c +:+ escape r
  end.

Definition quote (s : string) : string := quoted (escape s).

(** The least number of decimals, up to [fuel] more than [d], with which
    [q] is printed exactly. *)
Fixpoint decimals (fuel : nat) (d : Z) (q : Q) : Z :=
  match fuel with
  | O => d
  | S fuel' =>
      if Qeq_bool (inject_Z (Qfloor (q * inject_Z (10 ^ d)))) (q * inject_Z (10 ^ d))
      then d else decimals fuel' (d + 1) q
  end.

Definition print_number (x : option Q) : string :=
  match x with
  | None => "null"
  | Some q => Exact.toFixed x (decimals 20 0 q)
  end.

(** [JSON.stringify]; [None] is undefined. *)
Fixpoint stringify (v : JsVal) : option string :=
  match v with
  | JUndefined => None
  | JNull => Some "null"
  | JBool b => Some (if b then "true" else "false")
  | JNum n => Some (print_number n)
  | JStr s => Some (quote s)
  | JArr items =>
      Some ("[" +:+ String.concat ","
                      (map (fun item => default "null" (stringify item)) items)
              +:+ "]")
  | JObj fields =>
      Some ("{" +:+ String.concat ","
                      (omap (fun kv =>
                               match kv with
                               | (k, x) =>
                                   (fun text => quote k +:+ ":" +:+ text)
                                     <$> stringify x
                               end) fields)
              +:+ "}")
  end.

Definition days_from_civil (y m d : Z) : Z :=
  let y := if m <=? 2 then y - 1 else y in
  let era := y / 400 in
  let yoe := y - era * 400 in
  let doy := (153 * (if 2 <? m then m - 3 else m + 9) + 2) / 5 + d - 1 in
  let doe := yoe * 365 + yoe / 4 - yoe / 100 + doy in
  era * 146097 + doe - 719468.

(** The number written in the [len] characters from [start], when they
    are digits. *)
Definition field (start len : nat) (s : string) : option Z :=
  let text := substring start len s in
  if all_chars is_digit text && Nat.eqb (String.length text) len
  then Some (Exact.digits 0 text) else None.

(** The time of a string of the form YYYY-MM-DDTHH:mm:ss.sssZ. *)
Definition getTime (s : string) : option Z :=
  if Nat.eqb (String.length s) 24
     && String.eqb (substring 4 1 s) "-" && String.eqb (substring 7 1 s) "-"
     && String.eqb (substring 10 1 s) "T" && String.eqb (substring 13 1 s) ":"
     && String.eqb (substring 16 1 s) ":" && String.eqb (substring 19 1 s) "."
     && String.eqb (substring 23 1 s) "Z"
  then
    y ← field 0 4 s; m ← field 5 2 s; d ← field 8 2 s;
    h ← field 11 2 s; mi ← field 14 2 s; se ← field 17 2 s;
    ms ← field 20 3 s;
    if (1 <=? m) && (m <=? 12) && (1 <=? d) && (d <=? 31)
       && (h <=? 23) && (mi <=? 59) && (se <=? 59)
    then Some (days_from_civil y m d * 86400000
               + h * 3600000 + mi * 60000 + se * 1000 + ms)
    else None
  else None.

End Node.

#[export] Instance ExactNode : NodeRuntime := {|
  createHmac algorithm secret text :=
    if String.eqb algorithm "sha256"
    then Sha256.hex (Sha256.hmac (Sha256.utf8 secret) (Sha256.utf8 text))
    else EmptyString;
  JSON_stringify v := default EmptyString (Node.stringify v);
  Date_getTime := Node.getTime
|}.

(** * The vocabulary of the properties *)

Section Vocabulary.

Context `{JsRuntime}.

Definition blank : St := {| cache := ∅; trace := [] |}.

(** An action that only writes to the trace: it neither reads nor changes
    the cache, and what it logs does not depend on the state. *)
Definition logs_only {A : Type} (m : M A) : Prop :=
  forall s, m s = (fst (m blank),
                   {| cache := cache s;
                      trace := trace s ++ trace (snd (m blank)) |}).

(** What the upstream fetch of a run returns and logs. *)
Definition upstream_result cfg w (fromCurrency : string) : JsError + JsVal :=
  fst (fetchRates cfg w fromCurrency
         (default EmptyString (EXCHANGE_RATE_API_KEY w)) blank).

Definition upstream_events cfg w (fromCurrency : string) : list Event :=
  trace (snd (fetchRates cfg w fromCurrency
                (default EmptyString (EXCHANGE_RATE_API_KEY w)) blank)).

(** The method check lets a request through: no method, or GET in any
    letter case. *)
Definition method_allowed (req : Request) : bool :=
  negb (str_truthy (method req)
        && negb (String.eqb
                   (toUpperCase (default EmptyString (method req))) "GET")).

(** The events that consult the cache or the upstream. *)
Definition consults (e : Event) : bool :=
  match e with
  | CacheGet _ | CacheDelete _ | CacheSet _ _ | Fetch _ _ => true
  | Console _ _ | Sleep _ => false
  end.

Definition log (s : St) (events : list Event) : St :=
  {| cache := cache s; trace := trace s ++ events |}.

Definition validation_warning (error : string) (q : option Query) : Event :=
  Console "warn" [JStr "Validation failed for /api/convert:";
                  JStr error; JStr "query="; js_of_query q].

Definition fallback_response (fb : FallbackRate) (from to : string)
    (amount : option num) : Response :=
  {| http_status := 200;
     body := success (rate fb) (converted amount (rate fb)) from to
               (JStr (lastUpdated fb)) "fallback" |}.

Definition table_response (r : num) (table : JsVal) (from to : string)
    (amount : option num) (source : string) : Response :=
  {| http_status := 200;
     body := success r (converted amount r) from to
               (get table "time_last_update_utc") source |}.

Definition bad_request (error : string) : Response :=
  {| http_status := 400; body := failure error |}.

(** The request gets as far as the first cache lookup, which leaves the
    state [s1] and finds no rate for the pair. *)
Definition misses_cache cfg w req s from to amount (s1 : St) : Prop :=
  method_allowed req = true /\
  validateAndNormalizeQuery (Some (default [] (query req)))
  = Valid from to amount /\
  str_truthy (EXCHANGE_RATE_API_KEY w) = true /\
  exists cached,
    readFromCache cfg (now_lookup w) from s = (cached, s1) /\
    cached_rate cached to = None.

(** The state in which the handler resumes after the fetch. *)
Definition after_fetch cfg w (from : string) (s1 : St) : St :=
  {| cache := meanwhile w (cache s1);
     trace := trace s1 ++ upstream_events cfg w from |}.

Definition pair_warning (from to : string) (d : JsVal) : Event :=
  Console "warn"
    [JStr "Rate missing for pair";
     JObj [("fromCurrency", JStr from); ("toCurrency", JStr to);
           ("payloadKeys",
            JArr (map JStr (keys_or_empty (get d "conversion_rates"))))]].

Definition failure_warning cfg (err : JsError) (fb : FallbackRate) : Event :=
  Console "warn"
    [JStr "Upstream fetch failed, using fallback data";
     JObj [("message", JStr (err_message err));
           ("timeout", if String.eqb (err_name err) "AbortError"
                       then js_of_Z (TIMEOUT_MS cfg) else JUndefined);
           ("fallbackDefaulted", JBool (defaulted fb))]].

Definition credential_warning (fallbackDefaulted : bool) : Event :=
  Console "warn"
    [JStr ("Missing EXCHANGE_RATE_API_KEY environment variable; "
             +:+ "using fallback data");
     JObj [("fallbackDefaulted", JBool fallbackDefaulted)]].

Definition stale_warning (err : JsError) : Event :=
  Console "warn" [JStr "Using cached data due to upstream failure";
                  JObj [("error", JStr (err_message err))]].

(** The events that read or change the cache. *)
Definition is_cache_event (e : Event) : bool :=
  match e with
  | CacheGet _ | CacheDelete _ | CacheSet _ _ => true
  | _ => false
  end.

(** An action that only writes to the trace, and no cache event. *)
Definition quiet {A : Type} (m : M A) : Prop :=
  logs_only m
  /\ Forall (fun e => is_cache_event e = false) (trace (snd (m blank))).

(** The run answers with a failure and has consulted neither the cache nor
    the upstream: the cache is as it was and the trace has grown by log
    lines only. *)
Definition rejected_untouched (r : Response * St) (s : St) : Prop :=
  prop "success" (body (fst r)) = Some (JBool false)
  /\ cache (snd r) = cache s
  /\ exists events : list Event,
       trace (snd r) = trace s ++ events
       /\ Forall (fun e => consults e = false) events.

Definition absent_or_empty (v : option QueryValue) : Prop :=
  v = None \/ v = Some (QStr EmptyString).

(** The malformations of the trimmed text of an amount: not a plain
    decimal (exponent notation, text that is no number), a number that the
    comparison of the code, [Math.abs(num) > MAX_AMOUNT], finds too large,
    a negative number, more than [MAX_DECIMALS] digits after the point. *)
Definition not_plain (t : string) : Prop := PLAIN_DECIMAL_REGEX t = false.
Definition too_large (t : string) : Prop :=
  num_gt (Math_abs (Number t)) MAX_AMOUNT = true.
Definition negative (t : string) : Prop :=
  num_lt (Number t) (Number "0") = true.
Definition too_precise (t : string) : Prop :=
  exists frac, str_split "." t !! 1%nat = Some frac
               /\ MAX_DECIMALS < Z.of_nat (String.length frac).

Definition malformed_amount (t : string) : Prop :=
  not_plain t \/ too_large t \/ negative t \/ too_precise t.

(** The errors of the checks that come before the amount. *)
Definition precedes_amount (e : string) : Prop :=
  (exists k, e = E_UNEXPECTED k) \/ e = E_MISSING \/ e = E_FORMAT
  \/ e = E_UNSUPPORTED.

(** The text converts to a number that is finite. *)
Definition numeric (t : string) : Prop :=
  Number_isFinite (Number t) = true /\ Number_isNaN (Number t) = false.

(** [e] is the message of the first check, in the order of the code, that
    the text [t] fails: each case states that the checks before it
    pass. *)
Definition amount_case (t e : string) : Prop :=
  (t = EmptyString /\ e = E_AMOUNT_EMPTY)
  \/ (t <> EmptyString /\ not_plain t /\ e = E_AMOUNT_PLAIN)
  \/ (~ not_plain t /\ ~ numeric t /\ e = E_AMOUNT_NUMERIC)
  \/ (~ not_plain t /\ numeric t /\ too_large t /\ e = E_AMOUNT_RANGE)
  \/ (~ not_plain t /\ numeric t /\ ~ too_large t /\ negative t
      /\ e = E_AMOUNT_NEGATIVE)
  \/ (~ not_plain t /\ numeric t /\ ~ too_large t /\ ~ negative t
      /\ too_precise t /\ e = E_AMOUNT_DECIMALS).

(** The checks that come before the amount pass: the parameter names are
    allowed, and from and to are, in upper case, codes of the
    whitelist. *)
Definition reaches_amount (q : Query) : Prop :=
  Forall (fun k => In k ALLOWED_QUERY_PARAMS) (Object_keys q)
  /\ In (toUpperCase (q_String (prop "from" q))) ALLOWED_CURRENCIES
  /\ In (toUpperCase (q_String (prop "to" q))) ALLOWED_CURRENCIES.

Definition amount_errors : list string :=
  [E_AMOUNT_EMPTY; E_AMOUNT_PLAIN; E_AMOUNT_NUMERIC; E_AMOUNT_RANGE;
   E_AMOUNT_NEGATIVE; E_AMOUNT_DECIMALS].

(** [Run cfg w req s resp s']: the ways a run of the handler on [req] from
    the state [s] ends, with the response and the final state of each. *)
Inductive Run cfg w (req : Request) (s : St) : Response -> St -> Prop :=
| RunMethod :
    method_allowed req = false ->
    Run cfg w req s {| http_status := 405; body := failure E_METHOD |} s
| RunInvalid error :
    method_allowed req = true ->
    validateAndNormalizeQuery (Some (default [] (query req))) = Invalid error ->
    Run cfg w req s (bad_request error)
      (log s [validation_warning error (query req)])
| RunNoCredential from to amount :
    method_allowed req = true ->
    validateAndNormalizeQuery (Some (default [] (query req)))
    = Valid from to amount ->
    str_truthy (EXCHANGE_RATE_API_KEY w) = false ->
    Run cfg w req s
      (fallback_response (getFallbackRate (now_fallback w) from to)
         from to amount)
      (log s [credential_warning
                (defaulted (getFallbackRate (now_fallback w) from to))])
| RunCached from to amount cached s1 r :
    method_allowed req = true ->
    validateAndNormalizeQuery (Some (default [] (query req)))
    = Valid from to amount ->
    str_truthy (EXCHANGE_RATE_API_KEY w) = true ->
    readFromCache cfg (now_lookup w) from s = (cached, s1) ->
    cached_rate cached to = Some r ->
    Run cfg w req s
      (table_response r (default JNull cached) from to amount "cache") s1
| RunUpstream from to amount s1 d r :
    misses_cache cfg w req s from to amount s1 ->
    upstream_result cfg w from = inr d ->
    rate_in d to = Some r ->
    Run cfg w req s (table_response r d from to amount "upstream")
      {| cache := <[getCacheKey from := {| ts := now_resumed w; data := d |}]>
                    (meanwhile w (cache s1));
         trace := (trace s1 ++ upstream_events cfg w from)
                    ++ [CacheSet (getCacheKey from)
                          {| ts := now_resumed w; data := d |}] |}
| RunPairMissing from to amount s1 d :
    misses_cache cfg w req s from to amount s1 ->
    upstream_result cfg w from = inr d ->
    rate_in d to = None ->
    Run cfg w req s (bad_request (E_PAIR from to))
      {| cache := <[getCacheKey from := {| ts := now_resumed w; data := d |}]>
                    (meanwhile w (cache s1));
         trace := ((trace s1 ++ upstream_events cfg w from)
                     ++ [CacheSet (getCacheKey from)
                           {| ts := now_resumed w; data := d |}])
                    ++ [pair_warning from to d] |}
| RunStale from to amount s1 err cached s3 r :
    misses_cache cfg w req s from to amount s1 ->
    upstream_result cfg w from = inl err ->
    readFromCache cfg (now_resumed w) from (after_fetch cfg w from s1)
    = (cached, s3) ->
    cached_rate cached to = Some r ->
    Run cfg w req s
      (table_response r (default JNull cached) from to amount "cache-fallback")
      (log s3 [stale_warning err])
| RunFallback from to amount s1 err cached s3 :
    misses_cache cfg w req s from to amount s1 ->
    upstream_result cfg w from = inl err ->
    readFromCache cfg (now_resumed w) from (after_fetch cfg w from s1)
    = (cached, s3) ->
    cached_rate cached to = None ->
    Run cfg w req s
      (fallback_response (getFallbackRate (now_fallback w) from to)
         from to amount)
      (log s3 [failure_warning cfg err
                 (getFallbackRate (now_fallback w) from to)]).

(** The response is a success that carries a rate, from one of [sources]. *)
Definition answers_rate (resp : Response) (from to : string)
    (sources : list string) : Prop :=
  exists r convertedAmount updated source,
    resp = {| http_status := 200;
              body := success r convertedAmount from to updated source |}
    /\ In source sources.

(** The text the [catch] block matches its patterns against, and its
    verdict. *)
Definition catch_message (err : JsError) : string :=
  if String.eqb (err_message err) EmptyString then err_toString err
  else err_message err.

Definition catch_retryable (err : JsError) : bool :=
  String.eqb (err_name err) "AbortError"
  || STATUS_REGEX (catch_message err) || PAYLOAD_REGEX (catch_message err).

Definition rates_url (apiKey fromCurrency : string) : string :=
  EXCHANGE_API_BASE +:+ "/" +:+ encodeURIComponent apiKey
    +:+ "/latest/" +:+ encodeURIComponent fromCurrency.

(** The number of upstream calls in a trace. *)
Definition is_fetch (e : Event) : bool :=
  match e with
  | Fetch _ _ => true
  | _ => false
  end.

Definition calls (events : list Event) : nat :=
  length (List.filter is_fetch events).

(** The payload passes the shape check of [fetchRates], line 158. *)
Definition well_formed (d : JsVal) : Prop :=
  get d "result" = JStr "success" /\ truthy (get d "conversion_rates") = true.

(** An event that consults the cache or the upstream does so for the base
    currency [base]: under its cache key, or at its URL with the
    configured timeout. *)
Definition concerns cfg (apiKey base : string) (e : Event) : Prop :=
  match e with
  | CacheGet k | CacheDelete k | CacheSet k _ => k = getCacheKey base
  | Fetch url ms => url = rates_url apiKey base /\ ms = TIMEOUT_MS cfg
  | Console _ _ | Sleep _ => True
  end.

(** An action that only writes to the trace, and only events in [P]. *)
Definition emits (P : Event -> Prop) {A : Type} (m : M A) : Prop :=
  logs_only m /\ Forall P (trace (snd (m blank))).

(** The calls and the sleeps of a run of [fetchRates] in which every
    attempt from [attempt] on is retried: [retries] more attempts follow
    the first. *)
Fixpoint backoff_schedule (url : string) (ms attempt : Z) (retries : nat)
  : list Event :=
  Fetch url ms ::
  match retries with
  | O => []
  | S n => Sleep (200 * 2 ^ attempt) :: backoff_schedule url ms (attempt + 1) n
  end.

(** The time spent in the back-off sleeps of a trace, in milliseconds. *)
Definition slept (events : list Event) : Z :=
  fold_right (fun e total => match e with
                             | Sleep ms => ms + total
                             | _ => total
                             end) 0 events.

(** The conditions under which the text of an amount is kept. *)
Definition amount_accepted (t : string) (n : num) : Prop :=
  t <> EmptyString
  /\ PLAIN_DECIMAL_REGEX t = true
  /\ n = Number t
  /\ Number_isFinite n = true
  /\ Number_isNaN n = false
  /\ num_gt (Math_abs n) MAX_AMOUNT = false
  /\ num_lt n (Number "0") = false
  /\ forall frac, str_split "." t !! 1%nat = Some frac ->
                  Z.of_nat (String.length frac) <= MAX_DECIMALS.

(** Every entry of the cache holds a payload that passed the shape
    check. *)
Definition cache_well_formed (c : gmap string CacheEntry) : Prop :=
  forall k e, c !! k = Some e -> well_formed (data e).

End Vocabulary.

(** * Scenarios

    Concrete requests and worlds, run with the exact runtime. *)

Definition usd_table : JsVal :=
  JObj [("result", JStr "success");
        ("time_last_update_utc", JStr "Sun, 01 Nov 2026 00:00:01 +0000");
        ("conversion_rates",
         JObj [("USD", JNum (Number "1")); ("EUR", JNum (Number "0.85"))])].

Definition answers (d : JsVal) : Outcome :=
  Resolves {| res_status := 200; res_statusText := "OK";
              res_text := None; res_json := inr d |}.

Definition refuses (code : Z) (reason : string) : Outcome :=
  Resolves {| res_status := code; res_statusText := reason;
              res_text := Some "{}"; res_json := inr (JObj []) |}.

Definition network_error : JsError :=
  {| err_name := "TypeError"; err_message := "fetch failed" |}.

Definition abort_error : JsError :=
  {| err_name := "AbortError"; err_message := "This operation was aborted" |}.

Definition get_request (q : Query) : Request :=
  {| method := Some "GET"; query := Some q |}.

Definition post_request (q : Query) : Request :=
  {| method := Some "POST"; query := Some q |}.

Definition usd_to (to : string) : Query :=
  [("from", QStr "usd"); ("to", QStr to)].

(** A world with a credential, alone on the cache, at one o'clock of the
    epoch; the fetch returns after [elapsed] milliseconds. *)
Definition world_with (upstream : Z -> Outcome) (elapsed : Z) : World :=
  {| EXCHANGE_RATE_API_KEY := Some "secret";
     now_fallback := 3600000;
     now_lookup := 3600000;
     now_resumed := 3600000 + elapsed;
     fetcher := upstream;
     meanwhile := fun c => c |}.

Definition world_without_credential : World :=
  {| EXCHANGE_RATE_API_KEY := None;
     now_fallback := 3600000;
     now_lookup := 3600000;
     now_resumed := 3600000;
     fetcher := fun _ => Rejects network_error;
     meanwhile := fun c => c |}.

(** The upstream is down; another request stores a table for USD, stamped
    [stored], while this one awaits its two timeouts. *)
Definition world_outage (stored : Z) : World :=
  {| EXCHANGE_RATE_API_KEY := Some "secret";
     now_fallback := 10000;
     now_lookup := 10000;
     now_resumed := 26200;
     fetcher := fun _ => Rejects abort_error;
     meanwhile := <["latest:USD" := {| ts := stored; data := usd_table |}]> |}.

Definition short_ttl : Config :=
  {| CACHE_TTL := 5000; TIMEOUT_MS := 8000; RETRIES := 1 |}.

Definition url_usd : string :=
  "https://v6.exchangerate-api.com/v6/secret/latest/USD".

(** The first call is refused with 503, the second is answered. *)
Definition flaky (call : Z) : Outcome :=
  if call =? 0 then refuses 503 "Service Unavailable" else answers usd_table.


(** A state whose cache holds a table for EUR. *)
Definition eur_cached : St :=
  {| cache := {["latest:EUR" := {| ts := 3500000; data := usd_table |}]};
     trace := [] |}.

(** A request to the Express server for [/api/convert]. *)
Definition express_request (q : Query) (headers : list (string * string))
  : ExpressRequest :=
  {| req_method := "GET";
     req_originalUrl := Some "/api/convert";
     req_url := Some "/api/convert";
     req_path := "/api/convert";
     req_query := Some q;
     req_body := JObj [];
     req_headers := headers;
     req_ip := Some "203.0.113.7";
     req_connection_remoteAddress := None;
     req_socket_remoteAddress := None;
     req_correlationId := JStr "c-1" |}.

Definition route_world (key : option string) (settled : Outcome)
  : RouteWorld :=
  {| route_api_key := key;
     route_now_fallback := 3600000;
     route_now_respond := 3600000;
     route_upstream := settled |}.

Definition ann_session : Session :=
  {| username := "ann@example.org"; expiresAt := 3601000 |}.

(** A store with the session of the token t-1, until one second past one
    o'clock. *)
Definition one_session : Sessions := {["t-1" := ann_session]}.

(** A signed POST, made at noon of 2 November 2026. *)
Definition noon : Z := 1793620800000.

Definition order : JsVal :=
  JObj [("key", JStr "value"); ("amount", JNum (Number "100"))].

Definition signed_headers : list (string * string) :=
  createSignedRequestHeaders noon "POST" "/api/some-endpoint" order
    "example-app" "s3cret".

Definition signed_request (headers : list (string * string)) (q : Query)
  : ExpressRequest :=
  {| req_method := "POST";
     req_originalUrl := Some "/api/some-endpoint";
     req_url := Some "/api/some-endpoint";
     req_path := "/api/some-endpoint";
     req_query := Some q;
     req_body := order;
     req_headers := headers;
     req_ip := Some "203.0.113.7";
     req_connection_remoteAddress := None;
     req_socket_remoteAddress := None;
     req_correlationId := JStr "c-2" |}.

(** * Proof tools *)

(** Evaluates the two sides of an equation, or of a disequation, and
    compares the results. *)
Ltac evaluated :=
  lazymatch goal with
  | |- ?l = ?r =>
      let l' := eval vm_compute in l in
      let r' := eval vm_compute in r in
      change (l' = r'); reflexivity
  | |- ?l <> ?r =>
      let l' := eval vm_compute in l in
      let r' := eval vm_compute in r in
      change (l' <> r'); discriminate
  end.

(** Proves [misses_cache] for a run that starts with an empty cache. *)
Ltac misses :=
  split; [ evaluated | split; [ evaluated | split; [ evaluated | ] ] ];
  exists None; split; evaluated.

(** Identifies the validated requests of two hypotheses on one query. *)
Ltac same_request :=
  repeat match goal with
    | H : misses_cache _ _ _ _ _ _ _ _ |- _ =>
        destruct H as (? & ? & ? & ? & ? & ?)
    | H1 : ?v = Valid _ _ _, H2 : ?v = Valid _ _ _ |- _ =>
        rewrite H1 in H2; injection H2 as <- <- <-
    | H1 : ?v = Valid _ _ _, H2 : ?v = Invalid _ |- _ =>
        rewrite H1 in H2; discriminate H2
    | H1 : ?b = true, H2 : ?b = false |- _ =>
        rewrite H1 in H2; discriminate H2
    end.

(** * Properties *)

Section Properties.

Context `{JsRuntime}.

(** ** Running the actions *)

Lemma logs_only_ret {A : Type} (a : A) : logs_only (mret a : M A).
Proof.
  intros [c t]. unfold mret, M_ret. simpl. by rewrite app_nil_r.
Qed.

Lemma logs_only_emit (e : Event) : logs_only (emit e).
Proof. intros [c t]. reflexivity. Qed.

Lemma logs_only_bind {A B : Type} (m : M A) (k : A -> M B) :
  logs_only m -> (forall a, logs_only (k a)) -> logs_only (m ≫= k).
Proof.
  intros Hm Hk s. unfold mbind, M_bind.
  rewrite (Hm s). rewrite (Hk (fst (m blank))).
  destruct (m blank) as [a [c1 t1]] eqn:E. simpl.
  rewrite (Hk a {| cache := c1; trace := t1 |}). simpl.
  specialize (Hm blank). rewrite E in Hm. simpl in Hm.
  injection Hm as Hc. subst c1.
  by rewrite app_assoc.
Qed.

Lemma logs_only_try_block cfg w url attempt :
  logs_only (try_block cfg w url attempt).
Proof.
  unfold try_block, fetchWithTimeout.
  repeat first
    [ apply logs_only_ret
    | apply logs_only_emit
    | apply logs_only_bind; [| intros ? ]
    | match goal with
      | |- logs_only (match ?x with _ => _ end) => destruct x
      | |- logs_only (if ?b then _ else _) => destruct b
      end ].
Qed.

Lemma logs_only_catch_block cfg attempt err :
  logs_only (catch_block cfg attempt err).
Proof.
  unfold catch_block.
  repeat first
    [ apply logs_only_ret
    | apply logs_only_emit
    | apply logs_only_bind; [| intros ? ]
    | match goal with
      | |- logs_only (match ?x with _ => _ end) => destruct x
      | |- logs_only (if ?b then _ else _) => destruct b
      end ].
Qed.

Lemma logs_only_fetch_loop cfg w fuel url attempt lastErr :
  logs_only (fetch_loop cfg w fuel url attempt lastErr).
Proof.
  revert attempt lastErr.
  induction fuel as [|fuel IH]; intros attempt lastErr; simpl.
  - apply logs_only_ret.
  - destruct (attempt <=? RETRIES cfg); [| apply logs_only_ret ].
    apply logs_only_bind; [ apply logs_only_try_block | ].
    intros [d | err |]; [ apply logs_only_ret | | apply IH ].
    apply logs_only_bind; [ apply logs_only_catch_block | ].
    intros [|]; [ apply logs_only_ret | apply IH ].
Qed.

Lemma logs_only_fetchRates cfg w fromCurrency apiKey :
  logs_only (fetchRates cfg w fromCurrency apiKey).
Proof. apply logs_only_fetch_loop. Qed.

(** The loop never stops for want of fuel: past [RETRIES + 1 - attempt]
    iterations more fuel changes nothing. *)
Lemma fetch_loop_fuel cfg w url fuel fuel' attempt lastErr s :
  (Z.to_nat (RETRIES cfg + 1 - attempt) <= fuel)%nat ->
  (fuel <= fuel')%nat ->
  fetch_loop cfg w fuel' url attempt lastErr s
  = fetch_loop cfg w fuel url attempt lastErr s.
Proof.
  revert fuel' attempt lastErr s.
  induction fuel as [|fuel IH]; intros fuel' attempt lastErr s Hf Hle.
  - assert (RETRIES cfg < attempt) as Hgt by lia.
    apply Z.leb_gt in Hgt.
    destruct fuel'; simpl; [ done | by rewrite Hgt ].
  - destruct fuel' as [|fuel']; [ lia | ]. simpl.
    destruct (attempt <=? RETRIES cfg) eqn:E; [| done ].
    apply Z.leb_le in E.
    unfold mbind, M_bind.
    destruct (try_block cfg w url attempt s) as [[d | err |] s1]; [ done | | ].
    + destruct (catch_block cfg attempt err s1) as [[|] s2]; [ done | ].
      apply IH; lia.
    + apply IH; lia.
Qed.

Lemma fetchRates_run cfg w fromCurrency s :
  fetchRates cfg w fromCurrency
    (default EmptyString (EXCHANGE_RATE_API_KEY w)) s
  = (upstream_result cfg w fromCurrency,
     {| cache := cache s;
        trace := trace s ++ upstream_events cfg w fromCurrency |}).
Proof. apply logs_only_fetchRates. Qed.

(** ** The handler, stage by stage *)

Lemma handler_method_refused cfg w req s :
  method_allowed req = false ->
  handler cfg w req s
  = ({| http_status := 405; body := failure E_METHOD |}, s).
Proof.
  unfold method_allowed, handler. intros Hm.
  apply negb_false_iff in Hm. rewrite Hm. reflexivity.
Qed.

Lemma handler_invalid cfg w req s error :
  method_allowed req = true ->
  validateAndNormalizeQuery (Some (default [] (query req))) = Invalid error ->
  handler cfg w req s
  = (bad_request error, log s [validation_warning error (query req)]).
Proof.
  unfold method_allowed, handler. intros Hm Hv.
  apply negb_true_iff in Hm. rewrite Hm, Hv. reflexivity.
Qed.

Lemma handler_without_credential cfg w req s from to amount :
  method_allowed req = true ->
  validateAndNormalizeQuery (Some (default [] (query req)))
  = Valid from to amount ->
  str_truthy (EXCHANGE_RATE_API_KEY w) = false ->
  let fb := getFallbackRate (now_fallback w) from to in
  handler cfg w req s
  = (fallback_response fb from to amount,
     log s [credential_warning (defaulted fb)]).
Proof.
  unfold method_allowed, handler. intros Hm Hv Hk.
  apply negb_true_iff in Hm. rewrite Hm, Hv, Hk. reflexivity.
Qed.

Lemma handler_cache_hit cfg w req s from to amount cached s1 r :
  method_allowed req = true ->
  validateAndNormalizeQuery (Some (default [] (query req)))
  = Valid from to amount ->
  str_truthy (EXCHANGE_RATE_API_KEY w) = true ->
  readFromCache cfg (now_lookup w) from s = (cached, s1) ->
  cached_rate cached to = Some r ->
  handler cfg w req s
  = (table_response r (default JNull cached) from to amount "cache", s1).
Proof.
  unfold method_allowed, handler. intros Hm Hv Hk Hr Hc.
  apply negb_true_iff in Hm. rewrite Hm, Hv, Hk. simpl.
  unfold mbind at 1, M_bind at 1. rewrite Hr, Hc. reflexivity.
Qed.

Lemma handler_fetched cfg w req s from to amount s1 d :
  misses_cache cfg w req s from to amount s1 ->
  upstream_result cfg w from = inr d ->
  let s2 := after_fetch cfg w from s1 in
  let entry := {| ts := now_resumed w; data := d |} in
  let s3 := {| cache := <[getCacheKey from := entry]> (cache s2);
               trace := trace s2 ++ [CacheSet (getCacheKey from) entry] |} in
  handler cfg w req s
  = match rate_in d to with
    | Some r => (table_response r d from to amount "upstream", s3)
    | None => (bad_request (E_PAIR from to), log s3 [pair_warning from to d])
    end.
Proof.
  intros (Hm & Hv & Hk & cached & Hr & Hc) Hu. unfold method_allowed in Hm.
  unfold handler. apply negb_true_iff in Hm. rewrite Hm, Hv, Hk. simpl.
  unfold mbind at 1, M_bind at 1. rewrite Hr, Hc.
  unfold mbind at 1, M_bind at 1. rewrite fetchRates_run, Hu.
  destruct (rate_in d to); reflexivity.
Qed.

Lemma handler_fetch_failed cfg w req s from to amount s1 err cached s3 :
  misses_cache cfg w req s from to amount s1 ->
  upstream_result cfg w from = inl err ->
  readFromCache cfg (now_resumed w) from (after_fetch cfg w from s1)
  = (cached, s3) ->
  let fb := getFallbackRate (now_fallback w) from to in
  handler cfg w req s
  = match cached_rate cached to with
    | Some r =>
        (table_response r (default JNull cached) from to amount
           "cache-fallback",
         log s3 [stale_warning err])
    | None =>
        (fallback_response fb from to amount,
         log s3 [failure_warning cfg err fb])
    end.
Proof.
  intros (Hm & Hv & Hk & cached1 & Hr & Hc) Hu Hr2. unfold method_allowed in Hm.
  unfold handler. apply negb_true_iff in Hm. rewrite Hm, Hv, Hk. simpl.
  unfold mbind at 1, M_bind at 1. rewrite Hr, Hc.
  unfold mbind at 1, M_bind at 1. rewrite fetchRates_run, Hu.
  unfold mbind at 1, M_bind at 1. simpl.
  unfold mbind at 1, M_bind at 1.
  unfold after_fetch in Hr2. rewrite Hr2.
  destruct (cached_rate cached to); reflexivity.
Qed.

(** ** The cache *)

Lemma readFromCache_run cfg now base s :
  readFromCache cfg now base s
  = let key := getCacheKey base in
    match cache s !! key with
    | None => (None, log s [CacheGet key])
    | Some e =>
        if CACHE_TTL cfg <? now - ts e
        then (None, {| cache := delete key (cache s);
                       trace := trace s ++ [CacheGet key; CacheDelete key] |})
        else (Some (data e), log s [CacheGet key])
    end.
Proof.
  unfold readFromCache, cache_get, cache_delete, log, mbind, M_bind. simpl.
  destruct (cache s !! getCacheKey base) as [e|]; [| reflexivity ].
  destruct (CACHE_TTL cfg <? now - ts e); [| reflexivity ].
  simpl. by rewrite <- app_assoc.
Qed.

Lemma quiet_ret {A : Type} (a : A) : quiet (mret a : M A).
Proof. split; [ apply logs_only_ret | constructor ]. Qed.

Lemma quiet_emit (e : Event) : is_cache_event e = false -> quiet (emit e).
Proof. intros He. split; [ apply logs_only_emit | by constructor ]. Qed.

Lemma quiet_bind {A B : Type} (m : M A) (k : A -> M B) :
  quiet m -> (forall a, quiet (k a)) -> quiet (m ≫= k).
Proof.
  intros [Hm Fm] Hk. split.
  - apply logs_only_bind; [ done | intros a; apply Hk ].
  - unfold mbind, M_bind.
    destruct (m blank) as [a s1] eqn:E. simpl in Fm.
    destruct (Hk a) as [Hka Fk]. rewrite (Hka s1). simpl.
    apply Forall_app. split; [ exact Fm | exact Fk ].
Qed.

Lemma quiet_fetch_loop cfg w fuel url attempt lastErr :
  quiet (fetch_loop cfg w fuel url attempt lastErr).
Proof.
  revert attempt lastErr.
  induction fuel as [|fuel IH]; intros attempt lastErr; simpl.
  - apply quiet_ret.
  - destruct (attempt <=? RETRIES cfg); [| apply quiet_ret ].
    apply quiet_bind.
    + unfold try_block, fetchWithTimeout.
      repeat first
        [ apply quiet_ret
        | apply quiet_emit; reflexivity
        | apply quiet_bind; [| intros ? ]
        | match goal with
          | |- quiet (match ?x with _ => _ end) => destruct x
          | |- quiet (if ?b then _ else _) => destruct b
          end ].
    + intros [d | err |]; [ apply quiet_ret | | apply IH ].
      apply quiet_bind.
      * unfold catch_block.
        match goal with |- quiet (if ?b then _ else _) => destruct b end;
          [ apply quiet_ret | ].
        apply quiet_bind; [ by apply quiet_emit | intros; apply quiet_ret ].
      * intros [|]; [ apply quiet_ret | apply IH ].
Qed.

Lemma upstream_events_quiet cfg w from :
  Forall (fun e => is_cache_event e = false) (upstream_events cfg w from).
Proof. apply quiet_fetch_loop. Qed.

(** A run whose fetch failed ends with the second cache lookup and one
    warning. *)
Lemma failed_run cfg w req s from to amount s1 err :
  misses_cache cfg w req s from to amount s1 ->
  upstream_result cfg w from = inl err ->
  exists warning,
    snd (handler cfg w req s)
    = log (snd (readFromCache cfg (now_resumed w) from
                  (after_fetch cfg w from s1))) [warning]
    /\ is_cache_event warning = false.
Proof.
  intros Hmiss Hu.
  destruct (readFromCache cfg (now_resumed w) from (after_fetch cfg w from s1))
    as [cached s3] eqn:Hr2.
  rewrite (handler_fetch_failed _ _ _ _ _ _ _ _ _ _ _ Hmiss Hu Hr2).
  destruct (cached_rate cached to); simpl; eauto.
Qed.

(** C7. The contract of the rate cache.  For every base currency: a read
    returns the stored table exactly when there is an entry whose age
    [now - ts] is at most the TTL; when the age exceeds the TTL the read
    reports absent and evicts the entry; a write replaces whatever entry
    the base had by the new table stamped with the current time; and a run
    whose upstream fetch fails writes nothing: its trace has no [CacheSet],
    every entry it finds when it resumes is still there afterwards, save
    the expired entry of its own base, and a later read within the TTL
    returns it. *)
Theorem C7_cache_contract cfg w :
  (forall now base s d,
      fst (readFromCache cfg now base s) = Some d <->
      exists e, cache s !! getCacheKey base = Some e
                /\ now - ts e <= CACHE_TTL cfg /\ data e = d)
  /\ (forall now base s e,
        cache s !! getCacheKey base = Some e ->
        CACHE_TTL cfg < now - ts e ->
        fst (readFromCache cfg now base s) = None
        /\ cache (snd (readFromCache cfg now base s))
           = delete (getCacheKey base) (cache s))
  /\ (forall now base d s,
        cache (snd (writeToCache now base d s))
        = <[getCacheKey base := {| ts := now; data := d |}]> (cache s))
  /\ (forall req s from to amount s1 err,
        misses_cache cfg w req s from to amount s1 ->
        upstream_result cfg w from = inl err ->
        let s' := snd (handler cfg w req s) in
        (exists events : list Event,
            trace s' = trace s1 ++ events
            /\ Forall (fun ev => forall k v, ev <> CacheSet k v) events)
        /\ (forall k e,
              meanwhile w (cache s1) !! k = Some e ->
              (k = getCacheKey from -> now_resumed w - ts e <= CACHE_TTL cfg) ->
              cache s' !! k = Some e
              /\ (k = getCacheKey from ->
                  forall later, later - ts e <= CACHE_TTL cfg ->
                    fst (readFromCache cfg later from s') = Some (data e)))).
Proof.
  split; [| split; [| split ] ].
  - intros now base s d. rewrite readFromCache_run. simpl.
    destruct (cache s !! getCacheKey base) as [e|] eqn:E.
    + destruct (CACHE_TTL cfg <? now - ts e) eqn:T; simpl.
      * apply Z.ltb_lt in T. split; [ done | ].
        intros (e' & He & Hage & _). injection He as <-. lia.
      * apply Z.ltb_ge in T. split.
        -- intros [= <-]. by exists e.
        -- intros (e' & He & _ & <-). by injection He as <-.
    + split; [ done | ]. by intros (e' & He & _).
  - intros now base s e He Hage. rewrite readFromCache_run. simpl.
    rewrite He. apply Z.ltb_lt in Hage. by rewrite Hage.
  - reflexivity.
  - intros req s from to amount s1 err Hmiss Hu s'.
    destruct (failed_run _ _ _ _ _ _ _ _ _ Hmiss Hu) as (warning & Hs' & Hw).
    subst s'. rewrite Hs'. clear Hs'.
    pose proof (upstream_events_quiet cfg w from) as Hq.
    assert (forall ev, is_cache_event ev = false -> forall k v, ev <> CacheSet k v)
      as Hne by (intros [] Hev k v; done).
    rewrite readFromCache_run. simpl.
    set (key := getCacheKey from).
    assert (forall middle,
               Forall (fun ev => forall k v, ev <> CacheSet k v) middle ->
               Forall (fun ev => forall k v, ev <> CacheSet k v)
                 (upstream_events cfg w from ++ middle ++ [warning])) as Hall.
    { intros middle Hmid. apply Forall_app; split;
        [ eapply Forall_impl; [ exact Hq | exact Hne ] | ].
      apply Forall_app; split; [ exact Hmid | ].
      constructor; [ by apply Hne | constructor ]. }
    destruct (meanwhile w (cache s1) !! key) as [e0|] eqn:E.
    + destruct (CACHE_TTL cfg <? now_resumed w - ts e0) eqn:T; simpl.
      * apply Z.ltb_lt in T. split.
        -- exists (upstream_events cfg w from
                   ++ [CacheGet key; CacheDelete key] ++ [warning]).
           split; [ by rewrite <- !app_assoc | ].
           apply Hall. repeat constructor; done.
        -- intros k e Hk Hfresh.
           destruct (decide (k = key)) as [-> | Hkne].
           ++ rewrite E in Hk. injection Hk as ->.
              specialize (Hfresh eq_refl). lia.
           ++ split; [ by rewrite lookup_delete_ne | done ].
      * split.
        -- exists (upstream_events cfg w from ++ [CacheGet key] ++ [warning]).
           split; [ by rewrite <- !app_assoc | ].
           apply Hall. repeat constructor; done.
        -- intros k e Hk _. split; [ done | ].
           intros -> later Hl. rewrite readFromCache_run. simpl.
           fold key. rewrite Hk. apply Z.ltb_ge in Hl. by rewrite Hl.
    + simpl. split.
      * exists (upstream_events cfg w from ++ [CacheGet key] ++ [warning]).
        split; [ by rewrite <- !app_assoc | ].
        apply Hall. repeat constructor; done.
      * intros k e Hk _. split; [ done | ].
        intros -> later Hl. rewrite readFromCache_run. simpl.
        fold key. rewrite Hk. apply Z.ltb_ge in Hl. by rewrite Hl.
Qed.

(** ** The validator *)

Lemma length_0_empty (t : string) :
  (Z.of_nat (String.length t) =? 0) = true <-> t = EmptyString.
Proof.
  destruct t; simpl; [ done | ].
  split; done.
Qed.

Lemma validateAmount_error t e :
  validateAmount t = inl e -> amount_case t e.
Proof.
  unfold validateAmount, amount_case, numeric, not_plain, too_large, negative,
    too_precise.
  destruct (Z.of_nat (String.length t) =? 0) eqn:E0.
  { apply length_0_empty in E0. intros [= <-]. by left. }
  assert (t <> EmptyString) as Hne.
  { intros ->. by rewrite (proj2 (length_0_empty EmptyString)) in E0. }
  destruct (PLAIN_DECIMAL_REGEX t) eqn:Ep; simpl.
  2:{ intros [= <-]. right; left. done. }
  destruct (Number_isFinite (Number t)) eqn:Ef; simpl.
  2:{ intros [= <-]. right; right; left. split; [ done | ].
      split; [ by intros [? _] | done ]. }
  destruct (Number_isNaN (Number t)) eqn:En; simpl.
  { intros [= <-]. right; right; left. split; [ done | ].
    split; [ by intros [_ ?] | done ]. }
  destruct (num_gt (Math_abs (Number t)) MAX_AMOUNT) eqn:Eg.
  { intros [= <-]. do 3 right; left. done. }
  destruct (num_lt (Number t) (Number "0")) eqn:El.
  { intros [= <-]. do 4 right; left. done. }
  destruct (str_split "." t !! 1%nat) as [frac|] eqn:Es; [| done ].
  destruct (negb (String.eqb frac EmptyString)
            && (MAX_DECIMALS <? Z.of_nat (String.length frac))) eqn:Ed; [| done ].
  intros [= <-]. do 5 right. repeat (split; [ done | ]). split; [| done ].
  exists frac. split; [ done | ].
  apply andb_true_iff in Ed as [_ Ed]. by apply Z.ltb_lt in Ed.
Qed.

(** The cases of [amount_case] exclude one another: the text of an amount
    has one message. *)
Lemma amount_case_one_message t e e' :
  amount_case t e -> amount_case t e' -> e' = e.
Proof.
  unfold amount_case.
  intros [H1 | [H1 | [H1 | [H1 | [H1 | H1]]]]]
         [H2 | [H2 | [H2 | [H2 | [H2 | H2]]]]];
    try (destruct_and!; subst; first [ reflexivity | tauto | congruence ]).
  all: destruct_and!; subst; exfalso;
    match goal with
    | Hn : not_plain EmptyString -> False |- _ => by apply Hn
    | Hn : ~ not_plain EmptyString |- _ => by apply Hn
    end.
Qed.

Lemma validateAmount_malformed t :
  malformed_amount t -> exists e, validateAmount t = inl e.
Proof.
  unfold malformed_amount, not_plain, too_large, negative, too_precise,
    validateAmount.
  intros Hbad.
  destruct (Z.of_nat (String.length t) =? 0); [ eauto | ].
  destruct (PLAIN_DECIMAL_REGEX t); simpl; [| eauto ].
  destruct (negb (Number_isFinite (Number t)) || Number_isNaN (Number t));
    [ eauto | ].
  destruct (num_gt (Math_abs (Number t)) MAX_AMOUNT); [ eauto | ].
  destruct (num_lt (Number t) (Number "0")); [ eauto | ].
  destruct Hbad as [Hb | [Hb | [Hb | (frac & Hs & Hlen)]]]; try done.
  rewrite Hs.
  assert (String.eqb frac EmptyString = false) as ->.
  { destruct frac; [ simpl in Hlen; unfold MAX_DECIMALS in Hlen; lia | done ]. }
  apply Z.ltb_lt in Hlen. rewrite Hlen. simpl. eauto.
Qed.

Lemma prop_has {A : Type} (k : string) (o : list (string * A)) v :
  prop k o = Some v -> has (Object_keys o) k = true.
Proof.
  unfold prop, has, Object_keys. intros Hp.
  destruct (find (fun kv => String.eqb kv.1 k) o) as [[k' v']|] eqn:F;
    [| done ].
  apply find_some in F as [Hin Heq]. simpl in Heq.
  apply String.eqb_eq in Heq. subst k'.
  apply existsb_exists. exists k. split; [| apply String.eqb_refl ].
  apply in_map_iff. by exists (k, v').
Qed.

Lemma validate_unexpected (q : Query) :
  (exists k, In k (Object_keys q) /\ has ALLOWED_QUERY_PARAMS k = false) ->
  exists k, validateAndNormalizeQuery (Some q) = Invalid (E_UNEXPECTED k).
Proof.
  intros (k & Hin & Hk). unfold validateAndNormalizeQuery.
  cbn [default from_option id mbind option_bind].
  destruct (find _ (Object_keys q)) as [k'|] eqn:F; [ eauto | ].
  apply (find_none _ _ F) in Hin. cbv beta in Hin. rewrite Hk in Hin. done.
Qed.

Lemma validate_expected (q : Query) :
  Forall (fun k => has ALLOWED_QUERY_PARAMS k = true) (Object_keys q) ->
  find (fun k => negb (has ALLOWED_QUERY_PARAMS k)) (Object_keys q) = None.
Proof.
  intros Hall.
  destruct (find _ (Object_keys q)) as [k|] eqn:F; [| done ].
  apply find_some in F as [Hin Hk]. cbv beta in Hk.
  rewrite List.Forall_forall in Hall. rewrite (Hall _ Hin) in Hk. done.
Qed.

Lemma q_falsy_absent_or_empty v : absent_or_empty v -> q_falsy v = true.
Proof. by intros [-> | ->]. Qed.

Lemma validate_missing (q : Query) :
  Forall (fun k => has ALLOWED_QUERY_PARAMS k = true) (Object_keys q) ->
  absent_or_empty (prop "from" q) \/ absent_or_empty (prop "to" q) ->
  validateAndNormalizeQuery (Some q) = Invalid E_MISSING.
Proof.
  intros Hall Habs. unfold validateAndNormalizeQuery.
  cbn [default from_option id mbind option_bind].
  rewrite (validate_expected q Hall).
  destruct Habs as [Ha | Ha]; apply q_falsy_absent_or_empty in Ha; rewrite Ha;
    [ done | by rewrite orb_true_r ].
Qed.

Lemma has_In (l : list string) k : has l k = true <-> In k l.
Proof.
  unfold has. rewrite existsb_exists. split.
  - intros (x & Hin & Heq). apply String.eqb_eq in Heq. by subst.
  - intros Hin. exists k. split; [ done | apply String.eqb_refl ].
Qed.

Lemma whitelisted_is_iso code :
  In code ALLOWED_CURRENCIES -> ISO_CURRENCY_REGEX code = true.
Proof.
  assert (forallb ISO_CURRENCY_REGEX ALLOWED_CURRENCIES = true) as Hall
    by reflexivity.
  rewrite forallb_forall in Hall. apply Hall.
Qed.

Lemma whitelisted_is_given v :
  In (toUpperCase (q_String v)) ALLOWED_CURRENCIES -> q_falsy v = false.
Proof.
  intros Hin. apply has_In in Hin.
  destruct v as [[s | items] |]; [| done | done ].
  destruct s; [ done | done ].
Qed.

(** The error of a query with an amount is that of a check before the
    amount exactly when one of them fails, and that of the amount
    otherwise. *)
Lemma validate_amount_in_order (q : Query) v e :
  prop "amount" q = Some v ->
  validateAndNormalizeQuery (Some q) = Invalid e ->
  (precedes_amount e /\ ~ reaches_amount q)
  \/ (reaches_amount q /\ validateAmount (trim (q_String (Some v))) = inl e).
Proof.
  intros Hv. unfold validateAndNormalizeQuery, precedes_amount, reaches_amount.
  cbn [default from_option id mbind option_bind].
  destruct (find _ (Object_keys q)) as [k|] eqn:F.
  { intros [= <-]. left. split; [ eauto | ]. intros (Hkeys & _).
    apply find_some in F as [Hin Hk]. cbv beta in Hk.
    rewrite List.Forall_forall in Hkeys.
    apply negb_true_iff in Hk. apply Hkeys, has_In in Hin. congruence. }
  assert (Forall (fun k => In k ALLOWED_QUERY_PARAMS) (Object_keys q))
    as Hkeys.
  { apply List.Forall_forall. intros k Hin.
    apply (find_none _ _ F) in Hin. cbv beta in Hin.
    apply negb_false_iff in Hin. by apply has_In. }
  destruct (q_falsy (prop "from" q) || q_falsy (prop "to" q)) eqn:G.
  { intros [= <-]. left. split; [ eauto | ]. intros (_ & Wf & Wt).
    rewrite (whitelisted_is_given _ Wf), (whitelisted_is_given _ Wt) in G.
    discriminate G. }
  destruct (negb (ISO_CURRENCY_REGEX _) || negb (ISO_CURRENCY_REGEX _)) eqn:R.
  { intros [= <-]. left. split; [ eauto | ]. intros (_ & Wf & Wt).
    rewrite (whitelisted_is_iso _ Wf), (whitelisted_is_iso _ Wt) in R.
    discriminate R. }
  destruct (negb (has ALLOWED_CURRENCIES _) || negb (has ALLOWED_CURRENCIES _))
    eqn:W.
  { intros [= <-]. left. split; [ eauto 6 | ]. intros (_ & Wf & Wt).
    rewrite (proj2 (has_In _ _) Wf), (proj2 (has_In _ _) Wt) in W.
    discriminate W. }
  apply orb_false_iff in W as [Wf Wt].
  apply negb_false_iff, has_In in Wf. apply negb_false_iff, has_In in Wt.
  rewrite (prop_has _ _ _ Hv), Hv.
  destruct (validateAmount _) as [e'|n]; [| done ].
  intros [= <-]. by right.
Qed.

Lemma validate_malformed_amount (q : Query) v :
  prop "amount" q = Some v ->
  malformed_amount (trim (q_String (Some v))) ->
  exists e, validateAndNormalizeQuery (Some q) = Invalid e.
Proof.
  intros Hv Hbad. apply validateAmount_malformed in Hbad as [e He].
  unfold validateAndNormalizeQuery. cbn [default from_option id mbind option_bind].
  destruct (find _ (Object_keys q)) as [k|]; [ eauto | ].
  destruct (q_falsy (prop "from" q) || q_falsy (prop "to" q)); [ eauto | ].
  destruct (negb (ISO_CURRENCY_REGEX _) || negb (ISO_CURRENCY_REGEX _));
    [ eauto | ].
  destruct (negb (has ALLOWED_CURRENCIES _) || negb (has ALLOWED_CURRENCIES _));
    [ eauto | ].
  rewrite (prop_has _ _ _ Hv), Hv, He. eauto.
Qed.

(** Whatever the method, a request whose query is invalid is turned away
    before the cache or the upstream is consulted. *)
Lemma handler_rejects cfg w req s e :
  validateAndNormalizeQuery (Some (default [] (query req))) = Invalid e ->
  rejected_untouched (handler cfg w req s) s
  /\ (method_allowed req = true -> fst (handler cfg w req s) = bad_request e).
Proof.
  intros Hv. destruct (method_allowed req) eqn:Hm.
  - rewrite (handler_invalid _ _ _ _ _ Hm Hv). split; [| done ].
    split; [ done | ]. split; [ done | ].
    eexists. split; [ reflexivity | ]. by repeat constructor.
  - rewrite (handler_method_refused _ _ _ _ Hm). split; [| done ].
    split; [ done | ]. split; [ done | ].
    exists []. split; [ by rewrite app_nil_r | constructor ].
Qed.

Lemma amount_errors_distinct : NoDup amount_errors.
Proof.
  apply (bool_decide_unpack _). by vm_compute.
Qed.

(** C8, amended.  The validator fails closed and without side effects.
    A query with a parameter name other than from, to, amount, and a query
    whose amount is, once trimmed, malformed (not a plain decimal, as with
    exponent notation or text that is no number; a number that the
    comparison of the code, [Math.abs(num) > MAX_AMOUNT], finds too large;
    a negative number; more than 8 digits after the point), is refused
    with an error.  For a query with an amount the error is that of an
    earlier check (parameter names, from and to) exactly when one of them
    fails; otherwise it is the message of the first check, in the order of
    the code, that the trimmed amount fails, and no other message fits
    that amount; the six checks have six messages.  Whatever its method,
    such a request is answered with a failure and neither the cache nor
    the upstream is consulted; the failure is the validator's error for a
    request that passes the check of the method. *)
Theorem C8_validator_fails_closed cfg w req s :
  let q := default [] (query req) in
  (exists k, In k (Object_keys q) /\ has ALLOWED_QUERY_PARAMS k = false)
  \/ (exists v, prop "amount" q = Some v
                /\ malformed_amount (trim (q_String (Some v)))) ->
  exists e,
    validateAndNormalizeQuery (Some q) = Invalid e
    /\ (forall v, prop "amount" q = Some v ->
          (precedes_amount e /\ ~ reaches_amount q)
          \/ (reaches_amount q
              /\ amount_case (trim (q_String (Some v))) e
              /\ forall e', amount_case (trim (q_String (Some v))) e' ->
                            e' = e))
    /\ NoDup amount_errors
    /\ rejected_untouched (handler cfg w req s) s
    /\ (method_allowed req = true ->
        fst (handler cfg w req s) = bad_request e).
Proof.
  intros q Hbad.
  assert (exists e, validateAndNormalizeQuery (Some q) = Invalid e) as [e He].
  { destruct Hbad as [Hk | (v & Hv & Hm)].
    - destruct (validate_unexpected q Hk) as [k Hk']. eauto.
    - eapply validate_malformed_amount; eauto. }
  exists e. split; [ exact He | ].
  split.
  { intros v Hv.
    destruct (validate_amount_in_order q v e Hv He) as [Hp | [Hr Ha]];
      [ by left | right ].
    apply validateAmount_error in Ha. split; [ exact Hr | ].
    split; [ exact Ha | ]. intros e' He'.
    by apply (amount_case_one_message _ _ _ Ha). }
  split; [ apply amount_errors_distinct | ].
  by apply handler_rejects.
Qed.

(** C10, amended.  For every query whose parameter names are all among
    from, to, amount and in which from or to is absent or is the empty
    string, validation fails with the one message [E_MISSING]; whatever
    the method, the handler answers such a request with a failure without
    consulting the cache or the upstream, and with that message once the
    method check is passed. *)
Theorem C10_missing_from_or_to cfg w req s :
  let q := default [] (query req) in
  Forall (fun k => has ALLOWED_QUERY_PARAMS k = true) (Object_keys q) ->
  absent_or_empty (prop "from" q) \/ absent_or_empty (prop "to" q) ->
  validateAndNormalizeQuery (Some q) = Invalid E_MISSING
  /\ rejected_untouched (handler cfg w req s) s
  /\ (method_allowed req = true ->
      fst (handler cfg w req s) = bad_request E_MISSING).
Proof.
  intros q Hall Habs.
  pose proof (validate_missing q Hall Habs) as Hv.
  split; [ exact Hv | ]. by apply handler_rejects.
Qed.

(** ** The paths through the handler *)

(** Every run of the handler takes one of these paths. *)
Lemma handler_run cfg w req s :
  Run cfg w req s (fst (handler cfg w req s)) (snd (handler cfg w req s)).
Proof.
  destruct (method_allowed req) eqn:Hm.
  2:{ rewrite (handler_method_refused _ _ _ _ Hm). by constructor. }
  destruct (validateAndNormalizeQuery (Some (default [] (query req))))
    as [error | from to amount] eqn:Hv.
  { rewrite (handler_invalid _ _ _ _ _ Hm Hv). by constructor. }
  destruct (str_truthy (EXCHANGE_RATE_API_KEY w)) eqn:Hk.
  2:{ rewrite (handler_without_credential _ _ _ _ _ _ _ Hm Hv Hk).
      by constructor. }
  destruct (readFromCache cfg (now_lookup w) from s) as [cached s1] eqn:Hr.
  destruct (cached_rate cached to) as [r|] eqn:Hc.
  { rewrite (handler_cache_hit _ _ _ _ _ _ _ _ _ _ Hm Hv Hk Hr Hc).
    by econstructor. }
  assert (misses_cache cfg w req s from to amount s1) as Hmiss.
  { unfold misses_cache. eauto 10. }
  destruct (upstream_result cfg w from) as [err | d] eqn:Hu.
  - destruct (readFromCache cfg (now_resumed w) from
                (after_fetch cfg w from s1)) as [cached2 s3] eqn:Hr2.
    rewrite (handler_fetch_failed _ _ _ _ _ _ _ _ _ _ _ Hmiss Hu Hr2).
    destruct (cached_rate cached2 to) eqn:Hc2; simpl.
    + by eapply RunStale.
    + by eapply RunFallback.
  - rewrite (handler_fetched _ _ _ _ _ _ _ _ _ Hmiss Hu).
    destruct (rate_in d to) eqn:Hrate; simpl.
    + by eapply RunUpstream.
    + by eapply RunPairMissing.
Qed.

(** C1, amended.  For every request that passes the method check (no
    method, or GET) and whose query passes validation, the handler returns a
    success carrying a numeric rate, from the upstream, the cache, the
    cache after a failure or the static table, unless the upstream
    answered without a numeric rate for the pair: without a credential the
    static table answers, and whatever error the upstream fetch ends with,
    the cache or the static table answers. *)
Theorem C1_answered_unless_pair_missing cfg w req s from to amount :
  method_allowed req = true ->
  validateAndNormalizeQuery (Some (default [] (query req)))
  = Valid from to amount ->
  let resp := fst (handler cfg w req s) in
  (answers_rate resp from to ["upstream"; "cache"; "cache-fallback"; "fallback"]
   \/ (resp = bad_request (E_PAIR from to)
       /\ exists d, upstream_result cfg w from = inr d /\ rate_in d to = None))
  /\ (str_truthy (EXCHANGE_RATE_API_KEY w) = false ->
      answers_rate resp from to ["fallback"])
  /\ (forall s1 err,
        misses_cache cfg w req s from to amount s1 ->
        upstream_result cfg w from = inl err ->
        answers_rate resp from to ["cache-fallback"; "fallback"]).
Proof.
  intros Hm Hv resp. subst resp. unfold answers_rate.
  split; [| split ].
  - pose proof (handler_run cfg w req s) as Hrun.
    inversion Hrun; same_request;
      try (left; do 4 eexists; split; [ reflexivity | simpl; tauto ]).
    right. split; [ done | eauto ].
  - intros Hk. rewrite (handler_without_credential _ _ _ _ _ _ _ Hm Hv Hk).
    do 4 eexists. split; [ reflexivity | simpl; tauto ].
  - intros s1 err Hmiss Hu.
    destruct (readFromCache cfg (now_resumed w) from
                (after_fetch cfg w from s1)) as [cached s3] eqn:Hr2.
    rewrite (handler_fetch_failed _ _ _ _ _ _ _ _ _ _ _ Hmiss Hu Hr2).
    destruct (cached_rate cached to); simpl;
      do 4 eexists; (split; [ reflexivity | simpl; tauto ]).
Qed.

(** C2, amended.  The cache read made after an upstream failure applies
    the same TTL check as any read.  An entry of the base that is older
    than the TTL at that moment is evicted and counts as absent: the
    static fallback is served.  A response tagged cache-fallback comes
    from an entry whose age is at most the TTL, and such an entry with a
    numeric rate for the target is served with that tag. *)
Theorem C2_degraded_read_checks_ttl cfg w req s from to amount s1 err :
  misses_cache cfg w req s from to amount s1 ->
  upstream_result cfg w from = inl err ->
  let key := getCacheKey from in
  let found := meanwhile w (cache s1) in
  let resp := fst (handler cfg w req s) in
  (forall e,
      found !! key = Some e ->
      CACHE_TTL cfg < now_resumed w - ts e ->
      resp = fallback_response (getFallbackRate (now_fallback w) from to)
               from to amount
      /\ cache (snd (handler cfg w req s)) = delete key found)
  /\ (prop "source" (body resp) = Some (JStr "cache-fallback") ->
      exists e r,
        found !! key = Some e
        /\ now_resumed w - ts e <= CACHE_TTL cfg
        /\ cached_rate (Some (data e)) to = Some r
        /\ resp = table_response r (data e) from to amount "cache-fallback")
  /\ (forall e r,
        found !! key = Some e ->
        now_resumed w - ts e <= CACHE_TTL cfg ->
        cached_rate (Some (data e)) to = Some r ->
        resp = table_response r (data e) from to amount "cache-fallback").
Proof.
  intros Hmiss Hu key found resp. subst resp.
  destruct (readFromCache cfg (now_resumed w) from
              (after_fetch cfg w from s1)) as [cached s3] eqn:Hr2.
  rewrite (handler_fetch_failed _ _ _ _ _ _ _ _ _ _ _ Hmiss Hu Hr2).
  rewrite readFromCache_run in Hr2. simpl in Hr2. fold key found in Hr2.
  destruct (found !! key) as [e0|] eqn:E.
  - destruct (CACHE_TTL cfg <? now_resumed w - ts e0) eqn:T;
      injection Hr2 as <- <-.
    + apply Z.ltb_lt in T. simpl. split; [| split ].
      * by intros e [= <-] _.
      * done.
      * intros e r [= <-] Hfresh. lia.
    + apply Z.ltb_ge in T. split; [| split ].
      * intros e [= <-] Hold. lia.
      * destruct (cached_rate (Some (data e0)) to) as [r|] eqn:Hc; simpl;
          [| done ].
        intros _. by exists e0, r.
      * intros e r [= <-] _ Hc. by rewrite Hc.
  - injection Hr2 as <- <-. simpl. split; [| split ]; done.
Qed.

(** C6.  When the upstream fetch succeeds and the table it returns has no
    numeric rate for the target currency, the handler writes the fetched
    table to the cache and then answers with status 400 and the failure
    whose error names the pair; the run ends there, with no second cache
    lookup and no fallback. *)
Theorem C6_pair_not_available_is_terminal cfg w req s from to amount s1 d :
  misses_cache cfg w req s from to amount s1 ->
  upstream_result cfg w from = inr d ->
  rate_in d to = None ->
  let entry := {| ts := now_resumed w; data := d |} in
  handler cfg w req s
  = ({| http_status := 400;
        body := [("success", JBool false);
                 ("error", JStr ("Exchange rate from " +:+ from +:+ " to "
                                   +:+ to +:+ " not available."))] |},
     {| cache := <[getCacheKey from := entry]> (meanwhile w (cache s1));
        trace := trace s1 ++ upstream_events cfg w from
                   ++ [CacheSet (getCacheKey from) entry;
                       pair_warning from to d] |}).
Proof.
  intros Hmiss Hu Hnone entry.
  rewrite (handler_fetched _ _ _ _ _ _ _ _ _ Hmiss Hu), Hnone.
  unfold bad_request, failure, E_PAIR, log, after_fetch. simpl.
  by rewrite <- !app_assoc.
Qed.

(** C9.  A response served from the static fallback table has exactly
    the fields success, rate, convertedAmount, from, to, lastUpdated and
    source, so the [defaulted] flag of the fallback rate is not in it,
    while the last thing the run logs is a warning whose details carry
    that flag as [fallbackDefaulted]. *)
Theorem C9_defaulted_flag_is_logged_not_served cfg w req s :
  let resp := fst (handler cfg w req s) in
  prop "source" (body resp) = Some (JStr "fallback") ->
  Object_keys (body resp)
  = ["success"; "rate"; "convertedAmount"; "from"; "to"; "lastUpdated";
     "source"]
  /\ ~ In "defaulted" (Object_keys (body resp))
  /\ ~ In "fallbackDefaulted" (Object_keys (body resp))
  /\ exists from to amount earlier message details,
       validateAndNormalizeQuery (Some (default [] (query req)))
       = Valid from to amount
       /\ resp = fallback_response (getFallbackRate (now_fallback w) from to)
                   from to amount
       /\ trace (snd (handler cfg w req s))
          = earlier ++ [Console "warn" [JStr message; JObj details]]
       /\ prop "fallbackDefaulted" details
          = Some (JBool (defaulted (getFallbackRate (now_fallback w) from to))).
Proof.
  intros resp. subst resp.
  pose proof (handler_run cfg w req s) as Hrun.
  inversion Hrun as [ | | from to amount | | | | | from to amount s1 err cached s3 Hmiss ];
    simpl; try discriminate; intros _.
  - split; [ done | ]. split; [ simpl; intuition discriminate | ].
    split; [ simpl; intuition discriminate | ].
    exists from, to, amount. do 3 eexists.
    split; [ done | ]. split; [ done | ]. split; reflexivity.
  - split; [ done | ]. split; [ simpl; intuition discriminate | ].
    split; [ simpl; intuition discriminate | ].
    destruct Hmiss as (_ & Hv & _).
    exists from, to, amount. do 3 eexists.
    split; [ done | ]. split; [ done | ]. split; reflexivity.
Qed.

(** ** The static table on a pair of equal codes *)

Lemma fallback_same_currency now X :
  getFallbackRate now X X
  = {| rate := Number "1.0"; lastUpdated := toISOString now;
       defaulted := true |}.
Proof.
  unfold getFallbackRate, prop, FALLBACK_RATES. cbn [find fst snd].
  repeat match goal with
    | |- context [String.eqb ?a X] =>
        destruct (String.eqb_spec a X) as [<- | _]; [ reflexivity | ]
    end.
  reflexivity.
Qed.

(** C4, amended.  For every supported currency code X and every valid
    amount, a request from X to X that finds no upstream credential
    configured is answered from the static table, which has no entry for
    the pair: the rate is exactly 1, the converted amount is the amount
    times 1 rounded to 6 decimals, the source is the fallback, and neither
    the cache nor the upstream is consulted.  With a credential the
    request takes the cache and the upstream like any other pair. *)
Theorem C4_same_currency_without_credential cfg w req s X amount :
  method_allowed req = true ->
  validateAndNormalizeQuery (Some (default [] (query req)))
  = Valid X X amount ->
  str_truthy (EXCHANGE_RATE_API_KEY w) = false ->
  handler cfg w req s
  = ({| http_status := 200;
        body := success (Number "1.0") (converted amount (Number "1.0")) X X
                  (JStr (toISOString (now_fallback w))) "fallback" |},
     log s [credential_warning true]).
Proof.
  intros Hm Hv Hk.
  rewrite (handler_without_credential _ _ _ _ _ _ _ Hm Hv Hk).
  unfold fallback_response. by rewrite fallback_same_currency.
Qed.

(** ** The retry loop *)

Lemma catch_block_run cfg attempt err s :
  catch_block cfg attempt err s
  = if negb (catch_retryable err) || (attempt =? RETRIES cfg) then (Break, s)
    else (Next, log s [Sleep (200 * 2 ^ attempt)]).
Proof.
  unfold catch_block, catch_retryable, catch_message.
  by destruct (negb _ || _).
Qed.

Lemma fuel_two cfg :
  0 < RETRIES cfg ->
  Z.to_nat (RETRIES cfg + 1) = S (S (Z.to_nat (RETRIES cfg - 1))).
Proof. lia. Qed.

Lemma fuel_one cfg :
  0 <= RETRIES cfg -> Z.to_nat (RETRIES cfg + 1) = S (Z.to_nat (RETRIES cfg)).
Proof. lia. Qed.

(** A well-formed answer of the upstream ends the loop with its table. *)
Lemma try_block_success cfg w url attempt res d s :
  fetcher w attempt = Resolves res ->
  res_ok res = true ->
  res_json res = inr d ->
  get d "result" = JStr "success" ->
  truthy (get d "conversion_rates") = true ->
  try_block cfg w url attempt s
  = (Returned d, log s [Fetch url (TIMEOUT_MS cfg)]).
Proof.
  intros Hf Hok Hj Hr Hc. unfold try_block, fetchWithTimeout, mbind, M_bind.
  simpl. by rewrite Hf, Hok, Hj, Hr, Hc.
Qed.

(** C3, the defect.  A rejection of [fetch] that the [catch] block does
    not classify as retryable ends [fetchRates] at once with that error,
    after the one call, although retries remain.  A network error is such
    a rejection: it is not an AbortError and its message matches neither
    pattern. *)
Theorem C3_network_error_is_not_retried cfg w from apiKey s err :
  0 <= RETRIES cfg ->
  fetcher w 0 = Rejects err ->
  catch_retryable err = false ->
  fetchRates cfg w from apiKey s
  = (inl err, log s [Fetch (rates_url apiKey from) (TIMEOUT_MS cfg)]).
Proof.
  intros Hr Hf Hc. unfold fetchRates. rewrite (fuel_one cfg Hr).
  cbn [fetch_loop]. fold (rates_url apiKey from).
  assert ((0 <=? RETRIES cfg) = true) as -> by by apply Z.leb_le.
  unfold mbind at 1, M_bind at 1.
  unfold try_block, fetchWithTimeout. unfold mbind at 1, M_bind at 1. simpl.
  rewrite Hf. unfold mret at 1, M_ret at 1.
  unfold mbind at 1, M_bind at 1. rewrite catch_block_run, Hc. reflexivity.
Qed.

(** The sibling path: a rejection the [catch] block classifies as
    retryable is retried after the back-off. *)
Lemma retried_rejection_backs_off cfg w from apiKey s err res d :
  0 < RETRIES cfg ->
  fetcher w 0 = Rejects err ->
  catch_retryable err = true ->
  fetcher w 1 = Resolves res ->
  res_ok res = true ->
  res_json res = inr d ->
  get d "result" = JStr "success" ->
  truthy (get d "conversion_rates") = true ->
  fetchRates cfg w from apiKey s
  = (inr d, log s [Fetch (rates_url apiKey from) (TIMEOUT_MS cfg);
                   Sleep 200;
                   Fetch (rates_url apiKey from) (TIMEOUT_MS cfg)]).
Proof.
  intros Hr Hf Hc Hf1 Hok Hj Hres Hrates.
  unfold fetchRates. rewrite (fuel_two cfg Hr).
  cbn [fetch_loop]. fold (rates_url apiKey from).
  assert ((0 <=? RETRIES cfg) = true) as -> by (apply Z.leb_le; lia).
  assert ((0 + 1 <=? RETRIES cfg) = true) as -> by (apply Z.leb_le; lia).
  assert ((0 =? RETRIES cfg) = false) as H0 by (apply Z.eqb_neq; lia).
  unfold mbind at 1, M_bind at 1.
  unfold try_block at 1, fetchWithTimeout. unfold mbind at 1, M_bind at 1.
  simpl. rewrite Hf. unfold mret at 1, M_ret at 1.
  unfold mbind at 1, M_bind at 1. rewrite catch_block_run, Hc, H0. simpl.
  unfold mbind at 1, M_bind at 1.
  rewrite (try_block_success _ _ _ _ _ _ _ Hf1 Hok Hj Hres Hrates).
  unfold mret, M_ret, log. simpl. by rewrite <- !app_assoc.
Qed.

(** A retryable status on an attempt that is not the last: the [try]
    block logs the response and completes without throwing. *)
Lemma try_block_retried_status cfg w url attempt res s :
  fetcher w attempt = Resolves res ->
  res_ok res = false ->
  (500 <=? res_status res) || (res_status res =? 429) = true ->
  (attempt =? RETRIES cfg) = false ->
  exists details,
    try_block cfg w url attempt s
    = (Completed, log s [Fetch url (TIMEOUT_MS cfg); Console "error" details]).
Proof.
  intros Hf Hnok Hst Hlast. eexists.
  unfold try_block, fetchWithTimeout, mbind, M_bind. simpl.
  rewrite Hf, Hnok. simpl. rewrite Hst, Hlast. simpl.
  unfold log. simpl. rewrite <- !app_assoc. reflexivity.
Qed.

(** C5, the defect.  A response with a retryable status (429, or 500 and
    above) on an attempt that is not the last is retried with no back-off:
    the next call follows the log line at once, no [Sleep] in between. *)
Theorem C5_retried_status_skips_backoff cfg w from apiKey s res res' d :
  0 < RETRIES cfg ->
  fetcher w 0 = Resolves res ->
  res_ok res = false ->
  (500 <=? res_status res) || (res_status res =? 429) = true ->
  fetcher w 1 = Resolves res' ->
  res_ok res' = true ->
  res_json res' = inr d ->
  get d "result" = JStr "success" ->
  truthy (get d "conversion_rates") = true ->
  exists details,
    fetchRates cfg w from apiKey s
    = (inr d, log s [Fetch (rates_url apiKey from) (TIMEOUT_MS cfg);
                     Console "error" details;
                     Fetch (rates_url apiKey from) (TIMEOUT_MS cfg)]).
Proof.
  intros Hr Hf Hnok Hst Hf1 Hok Hj Hres Hrates.
  unfold fetchRates. rewrite (fuel_two cfg Hr).
  cbn [fetch_loop]. fold (rates_url apiKey from).
  assert ((0 <=? RETRIES cfg) = true) as -> by (apply Z.leb_le; lia).
  assert ((0 + 1 <=? RETRIES cfg) = true) as -> by (apply Z.leb_le; lia).
  assert ((0 =? RETRIES cfg) = false) as H0 by (apply Z.eqb_neq; lia).
  destruct (try_block_retried_status cfg w (rates_url apiKey from) 0 res s
              Hf Hnok Hst H0) as [details Htry].
  exists details.
  unfold mbind at 1, M_bind at 1. rewrite Htry.
  unfold mbind at 1, M_bind at 1.
  rewrite (try_block_success _ _ _ _ _ _ _ Hf1 Hok Hj Hres Hrates).
  unfold mret, M_ret, log. simpl. rewrite <- !app_assoc. reflexivity.
Qed.

(** ** What the retry loop does keep of its contract *)


(** A timeout and a payload that fails the shape check are retryable for
    the [catch] block. *)
Lemma timeout_and_payload_retryable message :
  catch_retryable {| err_name := "AbortError"; err_message := message |} = true
  /\ catch_retryable (Error "Unexpected upstream payload") = true.
Proof. split; reflexivity. Qed.

(** On the last attempt the [catch] block leaves the loop without a
    sleep, whatever the error. *)
Lemma final_attempt_never_sleeps cfg err s :
  catch_block cfg (RETRIES cfg) err s = (Break, s).
Proof.
  rewrite catch_block_run, Z.eqb_refl. by rewrite orb_true_r.
Qed.

(** The message of a status from 100 to 499 other than 429 matches
    neither pattern of the [catch] block. *)
Lemma status_message_not_retryable (n : Z) :
  100 <= n < 500 -> n <> 429 ->
  catch_retryable (Error ("Upstream status " +:+ pretty n)) = false.
Proof.
  intros Hn H429.
  assert (forallb (fun k => (k =? 429)
                            || negb (catch_retryable
                                       (Error ("Upstream status " +:+ pretty k))))
            (seqZ 100 400) = true) as Hall by (vm_compute; reflexivity).
  rewrite forallb_forall in Hall.
  assert (In n (seqZ 100 400)) as Hin.
  { apply list_elem_of_In, elem_of_seqZ. lia. }
  specialize (Hall n Hin). apply orb_true_iff in Hall as [Hall | Hall].
  - apply Z.eqb_eq in Hall. lia.
  - by apply negb_true_iff in Hall.
Qed.

(** A status that the [try] block does not take for retryable is thrown
    as an error that names it. *)
Lemma try_block_fatal_status cfg w url attempt res s :
  fetcher w attempt = Resolves res ->
  res_ok res = false ->
  (500 <=? res_status res) || (res_status res =? 429) = false ->
  exists details,
    try_block cfg w url attempt s
    = (Threw (Error ("Upstream status " +:+ pretty (res_status res))),
       log s [Fetch url (TIMEOUT_MS cfg); Console "error" details]).
Proof.
  intros Hf Hnok Hst. eexists.
  unfold try_block, fetchWithTimeout, mbind, M_bind. simpl.
  rewrite Hf, Hnok. simpl. rewrite Hst. simpl.
  unfold log. simpl. rewrite <- !app_assoc. reflexivity.
Qed.

(** A response with a status from 100 to 499 that is neither a success
    nor 429 ends [fetchRates] at once, with the error of that status and
    no further call. *)
Lemma client_error_fails_at_once cfg w from apiKey s res :
  0 <= RETRIES cfg ->
  fetcher w 0 = Resolves res ->
  res_ok res = false ->
  100 <= res_status res < 500 ->
  res_status res <> 429 ->
  exists details,
    fetchRates cfg w from apiKey s
    = (inl (Error ("Upstream status " +:+ pretty (res_status res))),
       log s [Fetch (rates_url apiKey from) (TIMEOUT_MS cfg);
              Console "error" details]).
Proof.
  intros Hr Hf Hnok Hrange H429.
  assert ((500 <=? res_status res) || (res_status res =? 429) = false) as Hst.
  { apply orb_false_iff. split; [ apply Z.leb_gt | apply Z.eqb_neq ]; lia. }
  destruct (try_block_fatal_status cfg w (rates_url apiKey from) 0 res s
              Hf Hnok Hst) as [details Htry].
  exists details.
  unfold fetchRates. rewrite (fuel_one cfg Hr).
  cbn [fetch_loop]. fold (rates_url apiKey from).
  assert ((0 <=? RETRIES cfg) = true) as -> by by apply Z.leb_le.
  unfold mbind at 1, M_bind at 1. rewrite Htry.
  unfold mbind at 1, M_bind at 1.
  by rewrite catch_block_run, (status_message_not_retryable _ Hrange H429).
Qed.

(** The trace of a sequence of two actions is the trace of the first
    followed by the trace of the second. *)
Lemma trace_bind {A B : Type} (m : M A) (k : A -> M B) :
  (forall a, logs_only (k a)) ->
  trace (snd ((m ≫= k) blank))
  = trace (snd (m blank)) ++ trace (snd (k (fst (m blank)) blank)).
Proof.
  intros Hk. unfold mbind, M_bind.
  destruct (m blank) as [a s1]. by rewrite (Hk a s1).
Qed.

Lemma calls_app (l1 l2 : list Event) :
  calls (l1 ++ l2) = (calls l1 + calls l2)%nat.
Proof. unfold calls. by rewrite List.filter_app, length_app. Qed.

Lemma try_block_calls_once cfg w url attempt :
  calls (trace (snd (try_block cfg w url attempt blank))) = 1%nat.
Proof.
  unfold try_block, fetchWithTimeout, mbind, M_bind. simpl.
  destruct (fetcher w attempt) as [err | res]; [ reflexivity | ].
  destruct (negb (res_ok res)); simpl.
  - destruct (negb _ || _); reflexivity.
  - destruct (res_json res) as [err | d]; [ reflexivity | ].
    destruct (negb _ || negb _); reflexivity.
Qed.

Lemma catch_block_calls_nothing cfg attempt err :
  calls (trace (snd (catch_block cfg attempt err blank))) = 0%nat.
Proof.
  rewrite catch_block_run. by destruct (negb _ || _).
Qed.

(** The guard of the loop, [attempt <= RETRIES], bounds the calls: however
    many iterations the loop is allowed, from [attempt] on it calls the
    upstream at most [RETRIES + 1 - attempt] times, and not at all once
    [attempt] is above [RETRIES]. *)
Lemma fetch_loop_calls_guarded cfg w fuel url attempt lastErr :
  (calls (trace (snd (fetch_loop cfg w fuel url attempt lastErr blank)))
   <= Z.to_nat (RETRIES cfg + 1 - attempt))%nat.
Proof.
  revert attempt lastErr.
  induction fuel as [|fuel IH]; intros attempt lastErr; cbn [fetch_loop].
  - cbn. lia.
  - destruct (attempt <=? RETRIES cfg) eqn:Hguard; [| cbn; lia ].
    apply Z.leb_le in Hguard.
    rewrite trace_bind.
    2:{ intros [d | err |]; [ apply logs_only_ret | | apply logs_only_fetch_loop ].
        apply logs_only_bind; [ apply logs_only_catch_block | ].
        intros [|]; [ apply logs_only_ret | apply logs_only_fetch_loop ]. }
    rewrite calls_app, try_block_calls_once.
    destruct (fst (try_block cfg w url attempt blank)) as [d | err |].
    + cbn. lia.
    + rewrite trace_bind.
      2:{ intros [|]; [ apply logs_only_ret | apply logs_only_fetch_loop ]. }
      rewrite calls_app, catch_block_calls_nothing.
      destruct (fst (catch_block cfg attempt err blank)).
      * cbn. lia.
      * specialize (IH (attempt + 1) (Some err)). lia.
    + specialize (IH (attempt + 1) lastErr). lia.
Qed.

(** The loop of [fetchRates] calls the upstream at most [RETRIES + 1]
    times, the first attempt and up to [RETRIES] more, by its guard
    [attempt <= RETRIES] and not by the number of iterations it is allowed
    here: with any [fuel] and from any [attempt], the calls are at most
    [RETRIES + 1 - attempt], none when [attempt] is above [RETRIES]; a run
    of [fetchRates], which starts at the attempt 0, makes at most
    [RETRIES + 1]. *)
Lemma at_most_retries_more_calls cfg w fuel url attempt lastErr from :
  (calls (trace (snd (fetch_loop cfg w fuel url attempt lastErr blank)))
   <= Z.to_nat (RETRIES cfg + 1 - attempt))%nat
  /\ (calls (upstream_events cfg w from) <= Z.to_nat (RETRIES cfg + 1))%nat.
Proof.
  split; [ apply fetch_loop_calls_guarded | ].
  unfold upstream_events, fetchRates.
  pose proof (fetch_loop_calls_guarded cfg w (Z.to_nat (RETRIES cfg + 1))
                (rates_url (default EmptyString (EXCHANGE_RATE_API_KEY w)) from)
                0 None) as Hcalls.
  by rewrite Z.sub_0_r in Hcalls.
Qed.

End Properties.

(** * What the engine guarantees *)

Section Guarantees.

Context `{JsRuntime}.

(** ** The validator *)

Lemma has_keys_prop {A : Type} k (o : list (string * A)) :
  has (Object_keys o) k = true -> exists v, prop k o = Some v.
Proof.
  rewrite has_In. unfold Object_keys, prop. intros Hin.
  apply in_map_iff in Hin as ([k' v] & Hk & Hin). simpl in Hk. subst k'.
  destruct (find _ o) as [[k' v']|] eqn:F; [ by exists v' | ].
  apply (find_none _ _ F) in Hin. simpl in Hin.
  by rewrite String.eqb_refl in Hin.
Qed.

Lemma prop_absent {A : Type} k (o : list (string * A)) :
  has (Object_keys o) k = false <-> prop k o = None.
Proof.
  split.
  - intros Hk. destruct (prop k o) as [v|] eqn:E; [| done ].
    apply prop_has in E. by rewrite E in Hk.
  - intros Hp. destruct (has (Object_keys o) k) eqn:E; [| done ].
    apply has_keys_prop in E as [v Hv]. by rewrite Hv in Hp.
Qed.

Lemma validateAmount_accepts t n :
  validateAmount t = inr n <-> amount_accepted t n.
Proof.
  unfold validateAmount, amount_accepted. split.
  - destruct (Z.of_nat (String.length t) =? 0) eqn:E0; [ done | ].
    assert (t <> EmptyString) as Hne.
    { intros ->. by rewrite (proj2 (length_0_empty EmptyString)) in E0. }
    destruct (PLAIN_DECIMAL_REGEX t) eqn:Ep; simpl; [| done ].
    destruct (Number_isFinite (Number t)) eqn:Ef; simpl; [| done ].
    destruct (Number_isNaN (Number t)) eqn:En; simpl; [ done | ].
    destruct (num_gt (Math_abs (Number t)) MAX_AMOUNT) eqn:Eg; [ done | ].
    destruct (num_lt (Number t) (Number "0")) eqn:El; [ done | ].
    destruct (str_split "." t !! 1%nat) as [frac|] eqn:Es.
    + destruct (negb (String.eqb frac EmptyString)
                && (MAX_DECIMALS <? Z.of_nat (String.length frac))) eqn:Ed;
        [ done | ].
      intros [= <-]. repeat split; try done.
      intros frac' [= <-]. apply andb_false_iff in Ed as [Ed | Ed].
      * apply negb_false_iff, String.eqb_eq in Ed. by subst frac.
      * by apply Z.ltb_ge in Ed.
    + intros [= <-]. repeat split; done.
  - intros (Hne & -> & -> & -> & -> & -> & -> & Hfrac).
    destruct (Z.of_nat (String.length t) =? 0) eqn:E0.
    { by apply length_0_empty in E0. }
    simpl. destruct (str_split "." t !! 1%nat) as [frac|]; [| done ].
    specialize (Hfrac frac eq_refl). apply Z.ltb_ge in Hfrac.
    by rewrite Hfrac, andb_false_r.
Qed.

Lemma validated_is_normalised (q : Query) from to amount :
  validateAndNormalizeQuery (Some q) = Valid from to amount ->
  Forall (fun k => In k ALLOWED_QUERY_PARAMS) (Object_keys q)
  /\ from = toUpperCase (q_String (prop "from" q))
  /\ to = toUpperCase (q_String (prop "to" q))
  /\ In from ALLOWED_CURRENCIES
  /\ In to ALLOWED_CURRENCIES
  /\ match amount with
     | None => prop "amount" q = None
     | Some n =>
         exists v, prop "amount" q = Some v
                   /\ amount_accepted (trim (q_String (Some v))) n
     end.
Proof.
  unfold validateAndNormalizeQuery.
  cbn [default from_option id mbind option_bind].
  destruct (find _ (Object_keys q)) as [k|] eqn:F; [ done | ].
  assert (Forall (fun k => In k ALLOWED_QUERY_PARAMS) (Object_keys q))
    as Hkeys.
  { apply List.Forall_forall. intros k Hin.
    apply (find_none _ _ F) in Hin. cbv beta in Hin.
    apply negb_false_iff in Hin. by apply has_In. }
  destruct (q_falsy (prop "from" q) || q_falsy (prop "to" q)); [ done | ].
  destruct (negb (ISO_CURRENCY_REGEX _) || negb (ISO_CURRENCY_REGEX _));
    [ done | ].
  destruct (negb (has ALLOWED_CURRENCIES _)
            || negb (has ALLOWED_CURRENCIES _)) eqn:W; [ done | ].
  apply orb_false_iff in W as [Wf Wt].
  apply negb_false_iff, has_In in Wf. apply negb_false_iff, has_In in Wt.
  destruct (has (Object_keys q) "amount") eqn:A.
  - apply has_keys_prop in A as [v Hv]. rewrite Hv.
    destruct (validateAmount _) as [e|n] eqn:V; [ done | ].
    intros [= <- <- <-]. repeat split; try done.
    exists v. split; [ done | ]. by apply validateAmount_accepts.
  - apply prop_absent in A. intros [= <- <- <-]. by repeat split.
Qed.

(** The validator accepts exactly the queries whose parameter names are
    among from, to and amount, whose from and to are, once in upper case
    by [toUpperCase], codes of the whitelist, and whose amount, when there
    is one, is once trimmed by [trim] a plain decimal whose number is
    finite, is not found above [MAX_AMOUNT] by the comparison of the code
    ([Math.abs(num) > MAX_AMOUNT], on the numbers of the runtime), is not
    negative, and which has at most [MAX_DECIMALS] digits after the
    point; it returns the codes in upper case and the amount as a
    number. *)
Lemma validator_accepts_exactly (q : Query) from to amount :
  validateAndNormalizeQuery (Some q) = Valid from to amount
  <-> Forall (fun k => In k ALLOWED_QUERY_PARAMS) (Object_keys q)
      /\ from = toUpperCase (q_String (prop "from" q))
      /\ to = toUpperCase (q_String (prop "to" q))
      /\ In from ALLOWED_CURRENCIES
      /\ In to ALLOWED_CURRENCIES
      /\ match amount with
         | None => prop "amount" q = None
         | Some n =>
             exists v, prop "amount" q = Some v
                       /\ amount_accepted (trim (q_String (Some v))) n
         end.
Proof.
  split; [ apply validated_is_normalised | ].
  unfold validateAndNormalizeQuery.
  cbn [default from_option id mbind option_bind].
  intros (Hkeys & -> & -> & Wf & Wt & Ha).
  assert (find (fun k => negb (has ALLOWED_QUERY_PARAMS k)) (Object_keys q)
          = None) as ->.
  { apply validate_expected. eapply Forall_impl; [ exact Hkeys | ].
    intros k Hk. by apply has_In. }
  rewrite (whitelisted_is_given _ Wf), (whitelisted_is_given _ Wt).
  rewrite (whitelisted_is_iso _ Wf), (whitelisted_is_iso _ Wt).
  rewrite (proj2 (has_In _ _) Wf), (proj2 (has_In _ _) Wt). simpl.
  destruct amount as [n|].
  - destruct Ha as (v & Hv & Hacc).
    rewrite (prop_has _ _ _ Hv), Hv.
    by rewrite (proj2 (validateAmount_accepts _ _) Hacc).
  - by rewrite (proj2 (prop_absent _ _) Ha).
Qed.

End Guarantees.

(** * What the upstream fetch guarantees *)

Section Upstream.

Context `{JsRuntime}.

Lemma emits_ret (P : Event -> Prop) {A : Type} (a : A) :
  emits P (mret a : M A).
Proof. split; [ apply logs_only_ret | constructor ]. Qed.

Lemma emits_emit (P : Event -> Prop) (e : Event) : P e -> emits P (emit e).
Proof. intros He. split; [ apply logs_only_emit | by constructor ]. Qed.

Lemma emits_bind (P : Event -> Prop) {A B : Type} (m : M A) (k : A -> M B) :
  emits P m -> (forall a, emits P (k a)) -> emits P (m ≫= k).
Proof.
  intros [Hm Fm] Hk. split.
  - apply logs_only_bind; [ done | intros a; apply Hk ].
  - unfold mbind, M_bind.
    destruct (m blank) as [a s1] eqn:E. simpl in Fm.
    destruct (Hk a) as [Hka Fk]. rewrite (Hka s1). simpl.
    apply Forall_app. split; [ exact Fm | exact Fk ].
Qed.

(** The loop emits calls of its URL with the configured timeout, log
    lines and sleeps, and nothing else. *)
Lemma emits_fetch_loop (P : Event -> Prop) cfg w fuel url attempt lastErr :
  P (Fetch url (TIMEOUT_MS cfg)) ->
  (forall level args, P (Console level args)) ->
  (forall ms, P (Sleep ms)) ->
  emits P (fetch_loop cfg w fuel url attempt lastErr).
Proof.
  intros Hfetch Hconsole Hsleep. revert attempt lastErr.
  induction fuel as [|fuel IH]; intros attempt lastErr; simpl.
  - apply emits_ret.
  - destruct (attempt <=? RETRIES cfg); [| apply emits_ret ].
    apply emits_bind.
    + unfold try_block, fetchWithTimeout.
      repeat first
        [ apply emits_ret
        | apply emits_emit; solve [ apply Hfetch | apply Hconsole ]
        | apply emits_bind; [| intros ? ]
        | match goal with
          | |- emits P (match ?x with _ => _ end) => destruct x
          | |- emits P (if ?b then _ else _) => destruct b
          end ].
    + intros [d | err |]; [ apply emits_ret | | apply IH ].
      apply emits_bind.
      * unfold catch_block.
        match goal with |- emits P (if ?b then _ else _) => destruct b end;
          [ apply emits_ret | ].
        apply emits_bind; [ by apply emits_emit | intros; apply emits_ret ].
      * intros [|]; [ apply emits_ret | apply IH ].
Qed.

Lemma try_block_returned cfg w url attempt s d s1 :
  try_block cfg w url attempt s = (Returned d, s1) ->
  well_formed d
  /\ exists res, fetcher w attempt = Resolves res
                 /\ res_ok res = true /\ res_json res = inr d.
Proof.
  unfold try_block, fetchWithTimeout, mbind, M_bind. simpl.
  destruct (fetcher w attempt) as [err | res]; [ done | ].
  destruct (res_ok res) eqn:Hok; simpl.
  - destruct (res_json res) as [err | d'] eqn:Hj; [ done | ].
    destruct (get d' "result") as [ | | | | r | | ] eqn:Hr; simpl; try done.
    destruct (String.eqb r "success") eqn:Hs; simpl; [| done ].
    destruct (truthy (get d' "conversion_rates")) eqn:Ht; simpl; [| done ].
    intros [= <- _]. apply String.eqb_eq in Hs. subst r.
    split; [ by split | by exists res ].
  - by destruct (negb _ || _).
Qed.

Lemma fetch_loop_returned cfg w fuel url attempt lastErr s d :
  fst (fetch_loop cfg w fuel url attempt lastErr s) = inr d ->
  well_formed d
  /\ exists call res,
       attempt <= call <= RETRIES cfg
       /\ fetcher w call = Resolves res
       /\ res_ok res = true /\ res_json res = inr d.
Proof.
  revert attempt lastErr s.
  induction fuel as [|fuel IH]; intros attempt lastErr s; cbn [fetch_loop];
    [ done | ].
  destruct (attempt <=? RETRIES cfg) eqn:Hle; [| done ].
  apply Z.leb_le in Hle. unfold mbind at 1, M_bind at 1.
  destruct (try_block cfg w url attempt s) as [[d' | err |] s1] eqn:Htry.
  - intros [= <-]. apply try_block_returned in Htry as [Hwf (res & Hres)].
    split; [ done | ]. exists attempt, res. split; [ lia | done ].
  - unfold mbind at 1, M_bind at 1.
    destruct (catch_block cfg attempt err s1) as [[|] s2]; [ done | ].
    intros Hd. apply IH in Hd as [Hwf (call & res & Hcall & Hres)].
    split; [ done | ]. exists call, res. split; [ lia | done ].
  - intros Hd. apply IH in Hd as [Hwf (call & res & Hcall & Hres)].
    split; [ done | ]. exists call, res. split; [ lia | done ].
Qed.

(** What [fetchRates] returns is the JSON body of a 2xx answer to one of
    its calls, and it has passed the shape check: its result is the string
    success and its conversion_rates is truthy. *)
Lemma fetched_payload_passed_the_check cfg w from apiKey s d :
  fst (fetchRates cfg w from apiKey s) = inr d ->
  well_formed d
  /\ exists call res,
       0 <= call <= RETRIES cfg
       /\ fetcher w call = Resolves res
       /\ res_ok res = true /\ res_json res = inr d.
Proof. apply fetch_loop_returned. Qed.

Lemma upstream_result_well_formed cfg w from d :
  upstream_result cfg w from = inr d -> well_formed d.
Proof. intros Hu. by apply fetch_loop_returned in Hu as [Hwf _]. Qed.

(** With a negative number of retries the loop is not entered:
    [fetchRates] makes no call and throws its own error; with zero or
    more it makes at least the first call. *)
Lemma no_call_without_budget cfg w from apiKey s :
  (calls (trace (snd (fetchRates cfg w from apiKey blank))) = 0%nat
   <-> RETRIES cfg < 0)
  /\ (RETRIES cfg < 0 ->
      fetchRates cfg w from apiKey s
      = (inl (Error "Upstream fetch failed"), s)).
Proof.
  assert (RETRIES cfg < 0 ->
          forall s', fetchRates cfg w from apiKey s'
                     = (inl (Error "Upstream fetch failed"), s')) as Hnone.
  { intros Hneg s'. unfold fetchRates.
    destruct (Z.to_nat (RETRIES cfg + 1)) as [|fuel]; [ done | ].
    cbn [fetch_loop].
    assert ((0 <=? RETRIES cfg) = false) as -> by (apply Z.leb_gt; lia).
    done. }
  split; [| intros Hneg; by apply Hnone ].
  split.
  - intros Hcalls. destruct (Z.lt_ge_cases (RETRIES cfg) 0) as [| Hge];
      [ done | exfalso ].
    unfold fetchRates in Hcalls. rewrite (fuel_one cfg Hge) in Hcalls.
    cbn [fetch_loop] in Hcalls.
    assert ((0 <=? RETRIES cfg) = true) as Hle by by apply Z.leb_le.
    rewrite Hle in Hcalls. rewrite trace_bind in Hcalls.
    2:{ intros [d | err |]; [ apply logs_only_ret | | apply logs_only_fetch_loop ].
        apply logs_only_bind; [ apply logs_only_catch_block | ].
        intros [|]; [ apply logs_only_ret | apply logs_only_fetch_loop ]. }
    rewrite calls_app, try_block_calls_once in Hcalls. lia.
  - intros Hneg. by rewrite (Hnone Hneg blank).
Qed.

Lemma try_block_rejected cfg w url attempt err s :
  fetcher w attempt = Rejects err ->
  try_block cfg w url attempt s
  = (Threw err, log s [Fetch url (TIMEOUT_MS cfg)]).
Proof.
  intros Hf. unfold try_block, fetchWithTimeout, mbind, M_bind. simpl.
  by rewrite Hf.
Qed.

Lemma log_log (s : St) (l1 l2 : list Event) :
  log (log s l1) l2 = log s (l1 ++ l2).
Proof. unfold log. simpl. by rewrite app_assoc. Qed.

Lemma fetch_loop_all_rejected cfg w url err n :
  catch_retryable err = true ->
  forall attempt lastErr s,
    RETRIES cfg = attempt + Z.of_nat n ->
    (forall call, attempt <= call <= RETRIES cfg ->
                  fetcher w call = Rejects err) ->
    fetch_loop cfg w (S n) url attempt lastErr s
    = (inl err, log s (backoff_schedule url (TIMEOUT_MS cfg) attempt n)).
Proof.
  intros Hc. induction n as [|n IH]; intros attempt lastErr s Hr Hall.
  - cbn [fetch_loop].
    assert ((attempt <=? RETRIES cfg) = true) as -> by (apply Z.leb_le; lia).
    unfold mbind at 1, M_bind at 1.
    rewrite (try_block_rejected _ _ _ _ err) by (apply Hall; lia).
    unfold mbind at 1, M_bind at 1. rewrite catch_block_run.
    assert ((attempt =? RETRIES cfg) = true) as -> by (apply Z.eqb_eq; lia).
    by rewrite orb_true_r.
  - cbn [fetch_loop backoff_schedule].
    assert ((attempt <=? RETRIES cfg) = true) as -> by (apply Z.leb_le; lia).
    unfold mbind at 1, M_bind at 1.
    rewrite (try_block_rejected _ _ _ _ err) by (apply Hall; lia).
    unfold mbind at 1, M_bind at 1. rewrite catch_block_run, Hc.
    assert ((attempt =? RETRIES cfg) = false) as -> by (apply Z.eqb_neq; lia).
    cbn [negb orb].
    rewrite (IH (attempt + 1) (Some err)) by (try intros call Hcall; first [ lia | apply Hall; lia ]).
    by rewrite !log_log.
Qed.

Lemma slept_app (l1 l2 : list Event) :
  slept (l1 ++ l2) = slept l1 + slept l2.
Proof.
  induction l1 as [|e l1 IH]; [ done | ].
  simpl. destruct e; simpl; rewrite ?IH; lia.
Qed.

Lemma slept_schedule url ms attempt n :
  0 <= attempt ->
  slept (backoff_schedule url ms attempt n)
  = 200 * (2 ^ (attempt + Z.of_nat n) - 2 ^ attempt).
Proof.
  revert attempt. induction n as [|n IH]; intros attempt Ha.
  - simpl. rewrite Z.add_0_r. lia.
  - cbn [backoff_schedule slept fold_right]. fold (slept (backoff_schedule url ms (attempt + 1) n)).
    rewrite IH by lia.
    replace (attempt + 1 + Z.of_nat n) with (attempt + Z.of_nat (S n)) by lia.
    rewrite (Z.pow_add_r 2 attempt 1) by lia. lia.
Qed.

Lemma calls_schedule url ms attempt n :
  calls (backoff_schedule url ms attempt n) = S n.
Proof.
  revert attempt. induction n as [|n IH]; intros attempt; [ done | ].
  cbn [backoff_schedule]. specialize (IH (attempt + 1)).
  unfold calls in *. simpl in *. by rewrite IH.
Qed.

(** When every attempt is rejected with an error that the [catch] block
    classifies as retryable (every call times out, say), [fetchRates]
    makes all its [RETRIES + 1] calls, sleeps 200 ms, 400 ms, 800 ms and
    so on between them, 200 * (2 ^ RETRIES - 1) ms in all, never after
    the last, and throws the error. *)
Lemma persistent_timeouts_follow_the_schedule cfg w from apiKey s err :
  0 <= RETRIES cfg ->
  (forall call, 0 <= call <= RETRIES cfg -> fetcher w call = Rejects err) ->
  catch_retryable err = true ->
  let schedule :=
    backoff_schedule (rates_url apiKey from) (TIMEOUT_MS cfg) 0
      (Z.to_nat (RETRIES cfg)) in
  fetchRates cfg w from apiKey s = (inl err, log s schedule)
  /\ calls schedule = Z.to_nat (RETRIES cfg + 1)
  /\ slept schedule = 200 * (2 ^ RETRIES cfg - 1).
Proof.
  intros Hr Hall Hc schedule. subst schedule. split; [| split ].
  - unfold fetchRates. rewrite (fuel_one cfg Hr).
    fold (rates_url apiKey from).
    apply fetch_loop_all_rejected; [ done | lia | done ].
  - rewrite calls_schedule. lia.
  - rewrite slept_schedule by lia. rewrite Z2Nat.id by lia.
    by rewrite Z.add_0_l, Z.pow_0_r.
Qed.

Lemma slept_try_block cfg w url attempt :
  slept (trace (snd (try_block cfg w url attempt blank))) = 0.
Proof.
  unfold try_block, fetchWithTimeout, mbind, M_bind. simpl.
  destruct (fetcher w attempt) as [err | res]; [ reflexivity | ].
  destruct (negb (res_ok res)); simpl.
  - destruct (negb _ || _); reflexivity.
  - destruct (res_json res) as [err | d]; [ reflexivity | ].
    destruct (negb _ || negb _); reflexivity.
Qed.

Lemma fetch_loop_slept cfg w fuel url attempt lastErr :
  0 <= attempt ->
  slept (trace (snd (fetch_loop cfg w fuel url attempt lastErr blank)))
  <= 200 * (2 ^ Z.max attempt (RETRIES cfg) - 2 ^ attempt).
Proof.
  revert attempt lastErr.
  induction fuel as [|fuel IH]; intros attempt lastErr Ha; cbn [fetch_loop].
  - simpl. assert (2 ^ attempt <= 2 ^ Z.max attempt (RETRIES cfg))
      by (apply Z.pow_le_mono_r; lia). lia.
  - assert (2 ^ attempt <= 2 ^ Z.max attempt (RETRIES cfg)) as Hmono
      by (apply Z.pow_le_mono_r; lia).
    destruct (attempt <=? RETRIES cfg) eqn:Hle; [| simpl; lia ].
    apply Z.leb_le in Hle.
    assert (2 ^ (attempt + 1) = 2 * 2 ^ attempt) as Hpow
      by (rewrite Z.pow_add_r by lia; lia).
    assert (0 < 2 ^ attempt) as Hpos by (apply Z.pow_pos_nonneg; lia).
    rewrite trace_bind.
    2:{ intros [d | err |]; [ apply logs_only_ret | | apply logs_only_fetch_loop ].
        apply logs_only_bind; [ apply logs_only_catch_block | ].
        intros [|]; [ apply logs_only_ret | apply logs_only_fetch_loop ]. }
    rewrite slept_app, slept_try_block.
    destruct (fst (try_block cfg w url attempt blank)) as [d | err |].
    + simpl. lia.
    + rewrite trace_bind.
      2:{ intros [|]; [ apply logs_only_ret | apply logs_only_fetch_loop ]. }
      rewrite slept_app, catch_block_run.
      destruct (negb (catch_retryable err)); simpl; [ lia | ].
      destruct (attempt =? RETRIES cfg) eqn:Hlast; simpl; [ lia | ].
      apply Z.eqb_neq in Hlast.
      specialize (IH (attempt + 1) (Some err) ltac:(lia)).
      replace (Z.max (attempt + 1) (RETRIES cfg)) with (RETRIES cfg) in IH
        by lia.
      replace (Z.max attempt (RETRIES cfg)) with (RETRIES cfg) by lia. lia.
    + specialize (IH (attempt + 1) lastErr ltac:(lia)).
      replace (Z.max attempt (RETRIES cfg)) with (RETRIES cfg) in *
        by lia.
      destruct (Z.eq_dec attempt (RETRIES cfg)) as [Heq | Hne].
      * replace (Z.max (attempt + 1) (RETRIES cfg)) with (attempt + 1) in IH
          by lia.
        simpl. lia.
      * replace (Z.max (attempt + 1) (RETRIES cfg)) with (RETRIES cfg) in IH
          by lia.
        simpl. lia.
Qed.

(** Whatever the upstream does, one run of [fetchRates] spends at most
    200 * (2 ^ RETRIES - 1) ms in back-off sleeps. *)
Lemma backoff_is_bounded cfg w from :
  0 <= RETRIES cfg ->
  slept (upstream_events cfg w from) <= 200 * (2 ^ RETRIES cfg - 1).
Proof.
  intros Hr. unfold upstream_events, fetchRates.
  etransitivity; [ apply fetch_loop_slept; lia | ].
  rewrite Z.max_r by lia. simpl. lia.
Qed.

End Upstream.

(** * What the handler guarantees *)

Section Handler.

Context `{JsRuntime}.

Lemma handler_paths cfg w req s :
  exists resp s', handler cfg w req s = (resp, s') /\ Run cfg w req s resp s'.
Proof.
  exists (fst (handler cfg w req s)), (snd (handler cfg w req s)).
  split; [ apply surjective_pairing | apply handler_run ].
Qed.

(** ** The base currency of a run *)

Lemma readFromCache_concerns cfg cfg' apiKey now base s :
  exists events,
    trace (snd (readFromCache cfg now base s)) = trace s ++ events
    /\ Forall (concerns cfg' apiKey base) events.
Proof.
  rewrite readFromCache_run. simpl.
  destruct (cache s !! getCacheKey base) as [e|];
    [ destruct (CACHE_TTL cfg <? now - ts e) | ];
    eexists; (split; [ reflexivity | by repeat constructor ]).
Qed.

Lemma upstream_events_concern cfg w from :
  Forall (concerns cfg (default EmptyString (EXCHANGE_RATE_API_KEY w)) from)
    (upstream_events cfg w from).
Proof. apply emits_fetch_loop; done. Qed.

Lemma handler_events cfg w req s :
  exists events,
    trace (snd (handler cfg w req s)) = trace s ++ events
    /\ match validateAndNormalizeQuery (Some (default [] (query req))) with
       | Valid from _ _ =>
           Forall (concerns cfg (default EmptyString (EXCHANGE_RATE_API_KEY w))
                     from) events
       | Invalid _ => Forall (fun e => consults e = false) events
       end.
Proof.
  destruct (method_allowed req) eqn:Hm.
  2:{ rewrite (handler_method_refused _ _ _ _ Hm). exists [].
      split; [ by rewrite app_nil_r | ]. by destruct (validateAndNormalizeQuery _). }
  destruct (validateAndNormalizeQuery (Some (default [] (query req))))
    as [error | from to amount] eqn:Hv.
  { rewrite (handler_invalid _ _ _ _ _ Hm Hv). eexists.
    split; [ reflexivity | by repeat constructor ]. }
  destruct (str_truthy (EXCHANGE_RATE_API_KEY w)) eqn:Hk.
  2:{ rewrite (handler_without_credential _ _ _ _ _ _ _ Hm Hv Hk). eexists.
      split; [ reflexivity | by repeat constructor ]. }
  set (P := concerns cfg (default EmptyString (EXCHANGE_RATE_API_KEY w)) from).
  destruct (readFromCache cfg (now_lookup w) from s) as [cached s1] eqn:Hr.
  destruct (readFromCache_concerns cfg cfg
              (default EmptyString (EXCHANGE_RATE_API_KEY w))
              (now_lookup w) from s) as (ev1 & Ht1 & Hp1).
  rewrite Hr in Ht1. simpl in Ht1. fold P in Hp1.
  destruct (cached_rate cached to) as [r|] eqn:Hc.
  { rewrite (handler_cache_hit _ _ _ _ _ _ _ _ _ _ Hm Hv Hk Hr Hc).
    by exists ev1. }
  assert (misses_cache cfg w req s from to amount s1) as Hmiss.
  { unfold misses_cache. eauto 10. }
  pose proof (upstream_events_concern cfg w from) as Hp2. fold P in Hp2.
  destruct (upstream_result cfg w from) as [err | d] eqn:Hu.
  - destruct (readFromCache cfg (now_resumed w) from
                (after_fetch cfg w from s1)) as [cached2 s3] eqn:Hr2.
    destruct (readFromCache_concerns cfg cfg
                (default EmptyString (EXCHANGE_RATE_API_KEY w))
                (now_resumed w) from (after_fetch cfg w from s1))
      as (ev3 & Ht3 & Hp3).
    rewrite Hr2 in Ht3. simpl in Ht3. fold P in Hp3.
    rewrite (handler_fetch_failed _ _ _ _ _ _ _ _ _ _ _ Hmiss Hu Hr2).
    destruct (cached_rate cached2 to); simpl; rewrite Ht3, Ht1;
      eexists; (split; [ by rewrite <- !app_assoc | ]);
      repeat (apply Forall_app; split); try done; by repeat constructor.
  - rewrite (handler_fetched _ _ _ _ _ _ _ _ _ Hmiss Hu).
    destruct (rate_in d to); simpl; rewrite Ht1;
      eexists; (split; [ by rewrite <- !app_assoc | ]);
      repeat (apply Forall_app; split); try done; by repeat constructor.
Qed.

(** Every cache access and every upstream call of a run is made for the
    validated base currency of the request, a code of the whitelist: the
    cache under the key of that base, the upstream at the URL of that
    base, with the configured timeout.  A request that fails validation
    causes neither. *)
Lemma handler_consults_only_validated_base cfg w req s :
  exists events,
    trace (snd (handler cfg w req s)) = trace s ++ events
    /\ forall e, In e events -> consults e = true ->
         exists from to amount,
           validateAndNormalizeQuery (Some (default [] (query req)))
           = Valid from to amount
           /\ In from ALLOWED_CURRENCIES
           /\ concerns cfg (default EmptyString (EXCHANGE_RATE_API_KEY w))
                from e.
Proof.
  destruct (handler_events cfg w req s) as (events & Ht & Hall).
  exists events. split; [ exact Ht | ]. intros e Hin Hcons.
  destruct (validateAndNormalizeQuery (Some (default [] (query req))))
    as [error | from to amount] eqn:Hv;
    rewrite List.Forall_forall in Hall; specialize (Hall e Hin).
  - by rewrite Hall in Hcons.
  - exists from, to, amount. split; [ done | ]. split; [| done ].
    by apply validated_is_normalised in Hv as (_ & _ & _ & Hfrom & _).
Qed.

(** ** The cache across requests *)



Lemma readFromCache_frame cfg now base s k :
  k <> getCacheKey base ->
  cache (snd (readFromCache cfg now base s)) !! k = cache s !! k.
Proof.
  intros Hk. rewrite readFromCache_run. simpl.
  destruct (cache s !! getCacheKey base) as [e|]; [| done ].
  destruct (CACHE_TTL cfg <? now - ts e); [| done ].
  simpl. by rewrite lookup_delete_ne.
Qed.

(** A run that is alone on the cache changes at most the entry of its own
    base currency: every other entry is after the run what it was
    before. *)
Lemma handler_leaves_other_entries cfg w req s k :
  (forall c, meanwhile w c = c) ->
  (forall from to amount,
      validateAndNormalizeQuery (Some (default [] (query req)))
      = Valid from to amount ->
      k <> getCacheKey from) ->
  cache (snd (handler cfg w req s)) !! k = cache s !! k.
Proof.
  intros Halone Hk.
  destruct (method_allowed req) eqn:Hm.
  2:{ by rewrite (handler_method_refused _ _ _ _ Hm). }
  destruct (validateAndNormalizeQuery (Some (default [] (query req))))
    as [error | from to amount] eqn:Hv.
  { by rewrite (handler_invalid _ _ _ _ _ Hm Hv). }
  specialize (Hk from to amount eq_refl).
  destruct (str_truthy (EXCHANGE_RATE_API_KEY w)) eqn:Hkey.
  2:{ by rewrite (handler_without_credential _ _ _ _ _ _ _ Hm Hv Hkey). }
  destruct (readFromCache cfg (now_lookup w) from s) as [cached s1] eqn:Hr.
  pose proof (readFromCache_frame cfg (now_lookup w) from s k Hk) as Hf1.
  rewrite Hr in Hf1. simpl in Hf1.
  destruct (cached_rate cached to) as [r|] eqn:Hc.
  { by rewrite (handler_cache_hit _ _ _ _ _ _ _ _ _ _ Hm Hv Hkey Hr Hc). }
  assert (misses_cache cfg w req s from to amount s1) as Hmiss.
  { unfold misses_cache. eauto 10. }
  destruct (upstream_result cfg w from) as [err | d] eqn:Hu.
  - destruct (readFromCache cfg (now_resumed w) from
                (after_fetch cfg w from s1)) as [cached2 s3] eqn:Hr2.
    pose proof (readFromCache_frame cfg (now_resumed w) from
                  (after_fetch cfg w from s1) k Hk) as Hf3.
    rewrite Hr2 in Hf3. simpl in Hf3. rewrite Halone in Hf3.
    rewrite (handler_fetch_failed _ _ _ _ _ _ _ _ _ _ _ Hmiss Hu Hr2).
    destruct (cached_rate cached2 to); simpl; congruence.
  - rewrite (handler_fetched _ _ _ _ _ _ _ _ _ Hmiss Hu).
    destruct (rate_in d to); simpl;
      rewrite lookup_insert_ne by done; rewrite Halone; done.
Qed.

Lemma readFromCache_keeps cfg now base s k e :
  cache (snd (readFromCache cfg now base s)) !! k = Some e ->
  cache s !! k = Some e.
Proof.
  rewrite readFromCache_run. simpl.
  destruct (cache s !! getCacheKey base) as [e0|]; [| done ].
  destruct (CACHE_TTL cfg <? now - ts e0); [| done ].
  simpl. intros Hd. by apply lookup_delete_Some in Hd as [_ Hd].
Qed.

(** The cache only ever holds payloads that passed the shape check: when
    that is so before a run, and the requests served in the meantime keep
    it so, it is so after the run. *)
Lemma handler_keeps_cache_well_formed cfg w req s :
  cache_well_formed (cache s) ->
  (forall c, cache_well_formed c -> cache_well_formed (meanwhile w c)) ->
  cache_well_formed (cache (snd (handler cfg w req s))).
Proof.
  intros Hs Hw.
  assert (forall now base s0,
             cache_well_formed (cache s0) ->
             cache_well_formed (cache (snd (readFromCache cfg now base s0))))
    as Hread.
  { intros now base s0 H0 k e Hke. apply readFromCache_keeps in Hke.
    by apply (H0 k). }
  destruct (method_allowed req) eqn:Hm.
  2:{ by rewrite (handler_method_refused _ _ _ _ Hm). }
  destruct (validateAndNormalizeQuery (Some (default [] (query req))))
    as [error | from to amount] eqn:Hv.
  { by rewrite (handler_invalid _ _ _ _ _ Hm Hv). }
  destruct (str_truthy (EXCHANGE_RATE_API_KEY w)) eqn:Hkey.
  2:{ by rewrite (handler_without_credential _ _ _ _ _ _ _ Hm Hv Hkey). }
  destruct (readFromCache cfg (now_lookup w) from s) as [cached s1] eqn:Hr.
  specialize (Hread (now_lookup w) from s Hs) as Hs1.
  rewrite Hr in Hs1. simpl in Hs1.
  destruct (cached_rate cached to) as [r|] eqn:Hc.
  { by rewrite (handler_cache_hit _ _ _ _ _ _ _ _ _ _ Hm Hv Hkey Hr Hc). }
  assert (misses_cache cfg w req s from to amount s1) as Hmiss.
  { unfold misses_cache. eauto 10. }
  destruct (upstream_result cfg w from) as [err | d] eqn:Hu.
  - destruct (readFromCache cfg (now_resumed w) from
                (after_fetch cfg w from s1)) as [cached2 s3] eqn:Hr2.
    specialize (Hread (now_resumed w) from (after_fetch cfg w from s1)
                  (Hw _ Hs1)) as Hs3.
    rewrite Hr2 in Hs3. simpl in Hs3.
    rewrite (handler_fetch_failed _ _ _ _ _ _ _ _ _ _ _ Hmiss Hu Hr2).
    by destruct (cached_rate cached2 to).
  - apply upstream_result_well_formed in Hu as Hwf.
    rewrite (handler_fetched _ _ _ _ _ _ _ _ _ Hmiss Hu).
    assert (cache_well_formed
              (<[getCacheKey from := {| ts := now_resumed w; data := d |}]>
                 (meanwhile w (cache s1)))) as Hins.
    { intros k e Hke. apply lookup_insert_Some in Hke as [[_ <-] | [_ Hke]];
        [ done | ].
      by apply (Hw _ Hs1 k). }
    by destruct (rate_in d to).
Qed.

(** ** The responses *)

(** In every success the converted amount is computed from the rate that
    the response itself reports: the amount of the request times that
    rate, rounded to 6 decimals, and null exactly when the request had no
    amount; and the codes are those of the validated request. *)
Lemma converted_amount_follows_reported_rate cfg w req s :
  let resp := fst (handler cfg w req s) in
  http_status resp = 200 ->
  exists from to amount r updated source,
    validateAndNormalizeQuery (Some (default [] (query req)))
    = Valid from to amount
    /\ body resp = success r (converted amount r) from to updated source
    /\ prop "rate" (body resp) = Some (JNum r)
    /\ prop "convertedAmount" (body resp)
       = Some (match amount with
               | Some a => JNum (Number (toFixed (num_mul a r) 6))
               | None => JNull
               end).
Proof.
  intros resp. subst resp.
  destruct (handler_paths cfg w req s) as (resp & s' & -> & Hrun). simpl.
  inversion Hrun; subst; simpl; try discriminate; intros _;
    repeat match goal with
      | Hmiss : misses_cache _ _ _ _ _ _ _ _ |- _ =>
          destruct Hmiss as (_ & ? & _)
      end;
    do 6 eexists; (split; [ eassumption | ]);
    (split; [ reflexivity | ]); (split; [ reflexivity | ]);
    by destruct amount.
Qed.

(** The handler answers with 200, 400 or 405 and nothing else, whatever
    the upstream does; the success flag of the body is true exactly for
    200, and the body of a failure has the two fields success and
    error. *)
Lemma status_tells_success cfg w req s :
  let resp := fst (handler cfg w req s) in
  In (http_status resp) [200; 400; 405]
  /\ prop "success" (body resp) = Some (JBool (http_status resp =? 200))
  /\ (http_status resp <> 200 -> exists error, body resp = failure error).
Proof.
  intros resp. subst resp.
  destruct (handler_paths cfg w req s) as (resp & s' & -> & Hrun). simpl.
  inversion Hrun; subst; simpl;
    (split; [ tauto | ]); (split; [ reflexivity | ]);
    intros Hne; try done; eauto.
Qed.

(** ** The static table *)

(** The static table knows four base currencies.  For every other code
    of the whitelist, whatever the target, the fallback rate is the
    default 1, flagged as defaulted.  (The codes of the whitelist are not
    names of properties that an object inherits, which a lookup in the
    table would find.) *)
Lemma fallback_defaults_outside_four_bases now from to :
  In from ALLOWED_CURRENCIES ->
  ~ In from ["USD"; "EUR"; "PHP"; "JPY"] ->
  getFallbackRate now from to
  = {| rate := Number "1.0"; lastUpdated := toISOString now;
       defaulted := true |}.
Proof.
  intros _ Hout. unfold getFallbackRate, prop, FALLBACK_RATES.
  cbn [find fst snd].
  repeat match goal with
    | |- context [String.eqb ?a from] =>
        destruct (String.eqb_spec a from) as [<- | _];
          [ exfalso; apply Hout; simpl; tauto | ]
    end.
  reflexivity.
Qed.

End Handler.

(** * The Express route and its guard *)

Section ServerProperties.

Context `{JsRuntime}.

(** ** The checks of the route *)

Lemma validateCurrencyCode_whitelisted code :
  validateCurrencyCode code = true <-> In code SERVER_ALLOWED_CURRENCIES.
Proof.
  unfold validateCurrencyCode. rewrite andb_true_iff, has_In.
  split; [ tauto | ]. intros Hin. split; [| done ].
  by apply whitelisted_is_iso.
Qed.

Lemma preceded_nil {A : Type} (run : list Effect * A) : preceded [] run = run.
Proof. by destruct run. Qed.

Lemma fetched_urls_app (l1 l2 : list Effect) :
  fetched_urls (l1 ++ l2) = fetched_urls l1 ++ fetched_urls l2.
Proof. apply omap_app. Qed.

(** What [respondWithRate] does with an amount it keeps, or with none. *)
Lemma respondWithRate_accepted rw req from to amount r source updated :
  match amount with
  | None => prop "amount" (default [] (req_query req)) = None
  | Some n =>
      exists v, prop "amount" (default [] (req_query req)) = Some v
                /\ route_amount_accepted (trim (q_String (Some v))) n
  end ->
  respondWithRate rw req from to r source updated
  = ([], {| http_status := 200;
            body := with_correlation req
                      (success r (converted amount r) from to
                         (if truthy updated then updated
                          else JStr (toISOString (route_now_respond rw)))
                         source) |}).
Proof.
  unfold respondWithRate. destruct amount as [n|].
  - intros (v & Hv & Hp & -> & Hf & Hn & Hl & Hfrac).
    rewrite (prop_has _ _ _ Hv), Hv, Hp, Hf, Hn, Hl. simpl.
    destruct (str_split "." _ !! 1%nat) as [frac|]; [| done ].
    specialize (Hfrac frac eq_refl). apply Z.ltb_ge in Hfrac.
    by rewrite Hfrac, andb_false_r.
  - intros Ha. by rewrite (proj2 (prop_absent _ _) Ha).
Qed.

(** What it does with an amount it does not keep. *)
Lemma respondWithRate_refused rw req from to r source updated v :
  prop "amount" (default [] (req_query req)) = Some v ->
  ~ route_amount_accepted (trim (q_String (Some v)))
      (Number (trim (q_String (Some v)))) ->
  exists details error,
    respondWithRate rw req from to r source updated
    = ([SiemCall "VALIDATION_FAILED" details], refuse req error).
Proof.
  intros Hv Hbad. unfold respondWithRate.
  rewrite (prop_has _ _ _ Hv), Hv.
  set (t := trim (q_String (Some v))) in *.
  destruct (PLAIN_DECIMAL_REGEX t) eqn:Hp; simpl; [| eauto ].
  destruct (Number_isFinite (Number t)) eqn:Hf; simpl; [| eauto ].
  destruct (Number_isNaN (Number t)) eqn:Hn; simpl; [ eauto | ].
  destruct (num_lt (Number t) (Number "0")) eqn:Hl; simpl; [ eauto | ].
  destruct (str_split "." t !! 1%nat) as [frac|] eqn:Hs.
  - destruct (negb (String.eqb frac EmptyString)
              && (8 <? Z.of_nat (String.length frac))) eqn:Hd; [ eauto | ].
    exfalso. apply Hbad. repeat split; try done.
    intros frac' Hf'. rewrite Hs in Hf'. injection Hf' as <-.
    apply andb_false_iff in Hd as [Hd | Hd].
    + apply negb_false_iff, String.eqb_eq in Hd. by subst frac.
    + by apply Z.ltb_ge in Hd.
  - exfalso. apply Hbad. repeat split; try done.
    intros frac' Hf'. by rewrite Hs in Hf'.
Qed.

(** [respondWithRate] answers 200 or 400, with the correlation id, after
    at most one call, to [logSiemEvent]. *)
Lemma respondWithRate_shape rw req from to r source updated :
  fetched_urls (fst (respondWithRate rw req from to r source updated)) = []
  /\ In (http_status (snd (respondWithRate rw req from to r source updated)))
       [200; 400]
  /\ prop "correlationId"
       (body (snd (respondWithRate rw req from to r source updated)))
     = Some (req_correlationId req).
Proof.
  unfold respondWithRate.
  destruct (has _ "amount"); [| simpl; tauto ].
  destruct (negb (PLAIN_DECIMAL_REGEX _)); [ simpl; tauto | ].
  destruct (negb _ || _ || _); [ simpl; tauto | ].
  destruct (str_split "." _ !! 1%nat) as [frac|]; [| simpl; tauto ].
  destruct (negb _ && _); simpl; tauto.
Qed.

(** The [try] block throws exactly when the upstream call fails. *)
Lemma route_try_throws rw req from to :
  upstream_failed (route_upstream rw)
  <-> exists error, route_try rw req from to = inl error.
Proof.
  unfold upstream_failed, route_try.
  destruct (route_upstream rw) as [err | response]; [ split; eauto | ].
  destruct (res_ok response); simpl; [| split; eauto ].
  destruct (res_json response) as [err | d]; [ split; eauto | ].
  assert (get d "result" <> JStr "success"
          \/ truthy (get d "conversion_rates") = false
          <-> negb match get d "result" with
                   | JStr s => String.eqb s "success"
                   | _ => false
                   end
              || negb (truthy (get d "conversion_rates")) = true) as Hshape.
  { rewrite orb_true_iff, !negb_true_iff.
    destruct (get d "result") as [ | | | | s | | ];
      try (split; [ by left | intros _; left; discriminate ]).
    destruct (String.eqb_spec s "success") as [-> | Hne].
    - split; (intros [Hl | Hr]; [ done | by right ]).
    - split; intros _; left; [ done | congruence ]. }
  destruct (negb _ || negb _) eqn:Hbad.
  - split; [ intros _ | intros _; right; by apply Hshape ].
    destruct d; eauto; destruct (truthy _); eauto.
  - split.
    + intros [Hf | Hf]; [ done | ].
      apply Hshape in Hf. discriminate Hf.
    + intros [error He]. exfalso.
      apply orb_false_iff in Hbad as [Hres _].
      destruct d; try discriminate Hres.
      destruct (get (get _ "conversion_rates") to); discriminate He.
Qed.

Lemma route_accepts_codes req from to amount :
  route_accepts req from to amount ->
  q_falsy (prop "from" (default [] (req_query req)))
  || q_falsy (prop "to" (default [] (req_query req))) = false
  /\ negb (validateCurrencyCode from) || negb (validateCurrencyCode to) = false.
Proof.
  intros (-> & -> & Hf & Ht & _). split.
  - by rewrite (whitelisted_is_given _ Hf), (whitelisted_is_given _ Ht).
  - by rewrite (proj2 (validateCurrencyCode_whitelisted _) Hf),
         (proj2 (validateCurrencyCode_whitelisted _) Ht).
Qed.

(** The route with a credential, past its checks of the codes. *)
Lemma convert_route_with_credential rw req from to amount :
  route_accepts req from to amount ->
  str_truthy (route_api_key rw) = true ->
  convert_route rw req
  = preceded [FetchCall (route_url rw from)]
      match route_try rw req from to with
      | inr answered => answered
      | inl error =>
          preceded
            [LogErrorCall error
               [("path", JStr (req_path req));
                ("fromCurrency", JStr from);
                ("toCurrency", JStr to);
                ("ip", JStr (getClientIP req));
                ("userAgent",
                 js_of_string (prop "user-agent" (req_headers req)))];
             LoggerCall "warn" "Using fallback rate due to upstream failure"
               [("fromCurrency", JStr from);
                ("toCurrency", JStr to);
                ("path", JStr (req_path req));
                ("fallbackDefaulted",
                 JBool (defaulted
                          (getFallbackRate (route_now_fallback rw) from to)))]]
            (respondWithRate rw req from to
               (rate (getFallbackRate (route_now_fallback rw) from to))
               "fallback"
               (JStr (lastUpdated
                        (getFallbackRate (route_now_fallback rw) from to))))
      end.
Proof.
  intros Hacc Hkey.
  destruct (route_accepts_codes _ _ _ _ Hacc) as [Hgiven Hcodes].
  destruct Hacc as (-> & -> & _).
  unfold convert_route. cbv zeta in *. rewrite Hgiven, Hcodes, Hkey.
  reflexivity.
Qed.

(** The route without a credential, past its checks of the codes. *)
Lemma convert_route_without_credential rw req from to amount :
  route_accepts req from to amount ->
  str_truthy (route_api_key rw) = false ->
  exists meta,
    convert_route rw req
    = preceded
        [LoggerCall "warn"
           "Exchange rate API key is not configured; using fallback data" meta]
        (respondWithRate rw req from to
           (rate (getFallbackRate (route_now_fallback rw) from to))
           "fallback"
           (JStr (lastUpdated
                    (getFallbackRate (route_now_fallback rw) from to)))).
Proof.
  intros Hacc Hkey.
  destruct (route_accepts_codes _ _ _ _ Hacc) as [Hgiven Hcodes].
  destruct Hacc as (-> & -> & _).
  unfold convert_route. cbv zeta in *. rewrite Hgiven, Hcodes, Hkey.
  eexists. reflexivity.
Qed.

Lemma respondWithRate_fallback rw req from to amount :
  route_accepts req from to amount ->
  respondWithRate rw req from to
    (rate (getFallbackRate (route_now_fallback rw) from to)) "fallback"
    (JStr (lastUpdated (getFallbackRate (route_now_fallback rw) from to)))
  = ([], route_fallback_response rw req from to amount).
Proof.
  intros (_ & _ & _ & _ & Ha).
  rewrite (respondWithRate_accepted _ _ _ _ amount) by exact Ha.
  unfold route_fallback_response. simpl.
  by destruct (String.eqb _ EmptyString).
Qed.

(** ** What the route does *)

(** Whatever way the one upstream call fails (it rejects, it resolves
    with a status that is not 2xx, its body is no JSON, its payload is
    null or not of the expected shape), a request that passes the checks
    of the route is answered with status 200 from the static table, with
    the source fallback, after that one call. *)
Lemma route_falls_back_on_any_upstream_failure rw req from to amount :
  route_accepts req from to amount ->
  str_truthy (route_api_key rw) = true ->
  upstream_failed (route_upstream rw) ->
  snd (convert_route rw req) = route_fallback_response rw req from to amount
  /\ fetched_urls (fst (convert_route rw req)) = [route_url rw from].
Proof.
  intros Hacc Hkey Hfail.
  rewrite (convert_route_with_credential _ _ _ _ _ Hacc Hkey).
  apply (route_try_throws rw req from to) in Hfail as [error ->].
  by rewrite (respondWithRate_fallback _ _ _ _ _ Hacc).
Qed.

Lemma route_try_answered rw req from to run :
  route_try rw req from to = inr run ->
  fetched_urls (fst run) = []
  /\ In (http_status (snd run)) [200; 400]
  /\ (prop "correlationId" (body (snd run)) = Some (req_correlationId req)
      \/ snd run = bad_request (E_PAIR from to)).
Proof.
  unfold route_try.
  destruct (route_upstream rw) as [err | response]; [ done | ].
  destruct (negb (res_ok response)); [ done | ].
  destruct (res_json response) as [err | d]; [ done | ].
  assert (forall answered,
             (exists r updated,
                 answered = respondWithRate rw req from to r "upstream" updated) ->
             fetched_urls (fst answered) = []
             /\ In (http_status (snd answered)) [200; 400]
             /\ (prop "correlationId" (body (snd answered))
                 = Some (req_correlationId req)
                 \/ snd answered = bad_request (E_PAIR from to))) as Hresp.
  { intros answered (r & updated & ->).
    destruct (respondWithRate_shape rw req from to r "upstream" updated)
      as (Hf & Hs & Hc). tauto. }
  destruct d; try done;
    (destruct (negb _ || negb _); [ by destruct (truthy _) | ]);
    (destruct (get (get _ "conversion_rates") to);
     intros [= <-]; first [ apply Hresp; by eauto | simpl; tauto ]).
Qed.

(** The handler of the route, with a credential configured, on a request
    whose codes pass the checks: it makes one upstream call, before it
    looks at the amount. *)
Lemma convert_route_checks_amount_late rw req from to :
  let query := default [] (req_query req) in
  from = toUpperCase (q_String (prop "from" query)) ->
  to = toUpperCase (q_String (prop "to" query)) ->
  In from SERVER_ALLOWED_CURRENCIES ->
  In to SERVER_ALLOWED_CURRENCIES ->
  str_truthy (route_api_key rw) = true ->
  (exists later,
      fst (convert_route rw req) = FetchCall (route_url rw from) :: later
      /\ fetched_urls later = [])
  /\ (forall v,
        prop "amount" query = Some v ->
        ~ route_amount_accepted (trim (q_String (Some v)))
            (Number (trim (q_String (Some v)))) ->
        http_status (snd (convert_route rw req)) = 400).
Proof.
  intros query Hfrom Hto Hf Ht Hkey.
  assert (q_falsy (prop "from" query) || q_falsy (prop "to" query) = false)
    as Hgiven.
  { subst from to.
    by rewrite (whitelisted_is_given _ Hf), (whitelisted_is_given _ Ht). }
  assert (negb (validateCurrencyCode from) || negb (validateCurrencyCode to)
          = false) as Hcodes.
  { by rewrite (proj2 (validateCurrencyCode_whitelisted _) Hf),
         (proj2 (validateCurrencyCode_whitelisted _) Ht). }
  unfold convert_route. fold query. cbv zeta.
  rewrite <- Hfrom, <- Hto, Hgiven, Hcodes, Hkey. cbn [negb].
  fold (route_url rw from).
  set (fb := getFallbackRate (route_now_fallback rw) from to).
  destruct (route_try rw req from to) as [error | run] eqn:Htry.
  - destruct (respondWithRate_shape rw req from to (rate fb) "fallback"
                (JStr (lastUpdated fb))) as (Hnone & _ & _).
    split.
    + eexists. split; [ reflexivity | ]. simpl. exact Hnone.
    + intros v Hv Hbad.
      destruct (respondWithRate_refused rw req from to (rate fb) "fallback"
                  (JStr (lastUpdated fb)) v Hv Hbad) as (details & e & ->).
      reflexivity.
  - destruct (route_try_answered _ _ _ _ _ Htry) as (Hnone & _ & _).
    split.
    + eexists. split; [ reflexivity | exact Hnone ].
    + intros v Hv Hbad. simpl.
      assert (forall r updated,
                 http_status
                   (snd (respondWithRate rw req from to r "upstream" updated))
                 = 400) as Hresp.
      { intros r updated.
        by destruct (respondWithRate_refused rw req from to r "upstream"
                       updated v Hv Hbad) as (details & e & ->). }
      clear Hnone Hcodes Hgiven. revert Htry. unfold route_try.
      destruct (route_upstream rw) as [err | response]; [ done | ].
      destruct (negb (res_ok response)); [ done | ].
      destruct (res_json response) as [err | d]; [ done | ].
      destruct d; try done;
        (destruct (negb _ || negb _); [ by destruct (truthy _) | ]);
        (destruct (get (get _ "conversion_rates") to);
         intros [= <-]; first [ apply Hresp | reflexivity ]).
Qed.


(** Every query that the validator of the serverless handler accepts
    passes the checks of the handler of the route, with the same codes and
    the same amount; and when no credential is configured, the handler of
    the route answers it with the body of the serverless handler, followed
    by the correlation id. *)
Lemma convert_route_agrees_with_handler
    cfg w s (req : Request) rw xreq from to amount :
  method_allowed req = true ->
  validateAndNormalizeQuery (Some (default [] (query req)))
  = Valid from to amount ->
  default [] (req_query xreq) = default [] (query req) ->
  str_truthy (EXCHANGE_RATE_API_KEY w) = false ->
  str_truthy (route_api_key rw) = false ->
  route_now_fallback rw = now_fallback w ->
  toISOString (now_fallback w) <> EmptyString ->
  route_accepts xreq from to amount
  /\ http_status (snd (convert_route rw xreq))
     = http_status (fst (handler cfg w req s))
  /\ body (snd (convert_route rw xreq))
     = body (fst (handler cfg w req s))
         ++ [("correlationId", req_correlationId xreq)].
Proof.
  intros Hm Hv Hq Hk Hk' Hnow Hiso.
  assert (route_accepts xreq from to amount) as Hacc.
  { apply validated_is_normalised in Hv as (_ & -> & -> & Hf & Ht & Ha).
    unfold route_accepts. rewrite Hq. repeat split; try done.
    destruct amount as [n|]; [| done ].
    destruct Ha as (v & Hv & _ & Hp & Hn & Hfin & Hnan & _ & Hl & Hfrac).
    exists v. by repeat split. }
  split; [ exact Hacc | ].
  rewrite (handler_without_credential _ _ _ _ _ _ _ Hm Hv Hk).
  destruct (convert_route_without_credential _ _ _ _ _ Hacc Hk')
    as [meta ->].
  rewrite (respondWithRate_fallback _ _ _ _ _ Hacc).
  unfold route_fallback_response, fallback_response, with_correlation.
  rewrite Hnow. simpl. split; [ done | ].
  apply String.eqb_neq in Hiso. by rewrite Hiso.
Qed.

(** ** The session store and the guard *)

(** A session is accepted until its expiry and refused from it on: a
    token created at [now0] with the lifetime [ttl] validates to its
    session at every time before [now0 + ttl]; at that time and later
    the validation fails and removes the session from the store. *)
Lemma session_lives_until_expiry token now0 ttl user sessions now :
  token <> EmptyString ->
  let created := createSession token now0 ttl user sessions in
  fst created = (token, now0 + ttl)
  /\ (now < now0 + ttl ->
      validateSession now (Some token) (snd created)
      = (Some {| username := user; expiresAt := now0 + ttl |}, snd created))
  /\ (now0 + ttl <= now ->
      validateSession now (Some token) (snd created)
      = (None, delete token sessions)).
Proof.
  intros Hne created. subst created.
  unfold createSession, validateSession, str_truthy.
  apply String.eqb_neq in Hne.
  cbn [fst snd default from_option id]. rewrite Hne. cbn [negb].
  unfold Sessions in *. rewrite lookup_insert_eq. cbn [expiresAt].
  split; [ done | ]. split; intros Hnow.
  - by assert ((now0 + ttl <=? now) = false) as -> by (apply Z.leb_gt; lia).
  - assert ((now0 + ttl <=? now) = true) as -> by (apply Z.leb_le; lia).
    by rewrite delete_insert_eq.
Qed.

Lemma bearer_token_nonempty header token :
  bearer_token header = Some token -> token <> EmptyString.
Proof.
  unfold bearer_token.
  destruct (strip_prefix_ci "Bearer" header) as [rest|]; [| done ].
  destruct (span_space rest) as [ws tok].
  destruct ws as [|c ws]; [ done | ].
  destruct tok as [|c' tok].
  - destruct (last_char ws) as [l|]; [| done ].
    destruct (line_terminator l); [ done | ]. by intros [= <-].
  - destruct (all_chars _ _); [| done ]. by intros [= <-].
Qed.

Lemma authorization_or_empty req :
  default EmptyString
    (str_or (prop "authorization" (req_headers req)) (Some EmptyString))
  = authorization req.
Proof.
  unfold authorization, str_or, str_truthy.
  destruct (prop "authorization" (req_headers req)) as [h|]; [| done ].
  destruct (String.eqb_spec h EmptyString) as [-> | _]; done.
Qed.

Lemma authMiddleware_run now req (sessions : Sessions) :
  match live_session now req sessions with
  | Some session =>
      exists token,
        bearer_token (authorization req) = Some token
        /\ sessions !! token = Some session
        /\ authMiddleware now req sessions
           = ([], Passes (username session) token, sessions)
  | None =>
      exists sessions' : Sessions,
        authMiddleware now req sessions
        = ([auth_failed req], Refuses (unauthorized req), sessions')
        /\ ((exists token session,
                bearer_token (authorization req) = Some token
                /\ sessions !! token = Some session
                /\ expiresAt session <= now
                /\ sessions' = delete token sessions)
            \/ ((forall token,
                    bearer_token (authorization req) = Some token ->
                    sessions !! token = None)
                /\ sessions' = sessions))
  end.
Proof.
  unfold live_session, authMiddleware, validateSession.
  rewrite authorization_or_empty.
  destruct (bearer_token (authorization req)) as [token|] eqn:Hb;
    cbn [mbind option_bind str_truthy default from_option id].
  2:{ exists sessions. split; [ done | right ]. by split. }
  pose proof (bearer_token_nonempty _ _ Hb) as Hne.
  apply String.eqb_neq in Hne. rewrite Hne.
  cbn [negb]. unfold Sessions in *.
  destruct (sessions !! token) as [session|] eqn:Hs;
    cbn [mbind option_bind].
  2:{ exists sessions. split; [ done | right ].
      split; [ by intros token' [= <-] | done ]. }
  destruct (expiresAt session <=? now) eqn:Hexp.
  - exists (delete token sessions). split; [ done | left ].
    exists token, session. apply Z.leb_le in Hexp. by repeat split.
  - by exists token.
Qed.

(** The guard hands the request of a live session to the handler of the
    route, as it is. *)
Lemma convert_endpoint_live now rw req (sessions : Sessions) session :
  live_session now req sessions = Some session ->
  convert_endpoint now rw req sessions = (convert_route rw req, sessions).
Proof.
  intros Hlive.
  pose proof (authMiddleware_run now req sessions) as Hauth.
  rewrite Hlive in Hauth. destruct Hauth as (token & _ & _ & Hrun).
  unfold convert_endpoint. by rewrite Hrun, preceded_nil.
Qed.


(** The route is served to the holders of a live session only.  A
    request whose Authorization header is Bearer, white space and the
    token of a session that has not expired is handed to the route as it
    is, and the session store is left as it was; any other request is
    answered with status 401 after one AUTH_FAILED event and nothing else:
    no upstream call, no rate.  The store is then what it was, but for
    one case: when the token is that of a stored session that has
    expired, that session, and no other, is removed. *)
Lemma convert_endpoint_serves_live_sessions_only
    now rw req (sessions : Sessions) :
  match live_session now req sessions with
  | Some _ =>
      convert_endpoint now rw req sessions = (convert_route rw req, sessions)
  | None =>
      exists sessions' : Sessions,
        convert_endpoint now rw req sessions
        = ([auth_failed req], unauthorized req, sessions')
        /\ ((exists token session,
                bearer_token (authorization req) = Some token
                /\ sessions !! token = Some session
                /\ expiresAt session <= now
                /\ sessions' = delete token sessions)
            \/ ((forall token,
                    bearer_token (authorization req) = Some token ->
                    sessions !! token = None)
                /\ sessions' = sessions))
  end.
Proof.
  pose proof (authMiddleware_run now req sessions) as Hauth.
  unfold convert_endpoint.
  destruct (live_session now req sessions) as [session|].
  - destruct Hauth as (token & _ & _ & ->). by rewrite preceded_nil.
  - destruct Hauth as (sessions' & -> & Hstore). by exists sessions'.
Qed.

(** ** The route behind its guard *)

(** For the holder of a live session, with a credential configured, a
    request whose codes pass the checks costs one upstream call, made
    before the amount is looked at: the URL is that of the base currency,
    no other call follows, and an amount that the route does not keep is
    answered with status 400 only afterwards. *)
Lemma route_checks_amount_after_the_fetch
    now rw req (sessions : Sessions) session from to :
  live_session now req sessions = Some session ->
  from = toUpperCase (q_String (prop "from" (default [] (req_query req)))) ->
  to = toUpperCase (q_String (prop "to" (default [] (req_query req)))) ->
  In from SERVER_ALLOWED_CURRENCIES ->
  In to SERVER_ALLOWED_CURRENCIES ->
  str_truthy (route_api_key rw) = true ->
  (exists later,
      fst (fst (convert_endpoint now rw req sessions))
      = FetchCall (route_url rw from) :: later
      /\ fetched_urls later = [])
  /\ (forall v,
        prop "amount" (default [] (req_query req)) = Some v ->
        ~ route_amount_accepted (trim (q_String (Some v)))
            (Number (trim (q_String (Some v)))) ->
        http_status (snd (fst (convert_endpoint now rw req sessions))) = 400).
Proof.
  intros Hlive Hfrom Hto Hf Ht Hkey.
  rewrite (convert_endpoint_live _ rw _ _ _ Hlive). cbn [fst].
  exact (convert_route_checks_amount_late rw req from to Hfrom Hto Hf Ht Hkey).
Qed.


(** Every query that the validator of the serverless handler accepts
    passes the checks of the route, with the same codes and the same
    amount; and when no credential is configured, the route answers the
    holder of a live session with the status and the body of the
    serverless handler, followed by the correlation id. *)
Lemma route_agrees_with_handler_without_credential
    cfg w s (req : Request) now rw xreq (sessions : Sessions) session
    from to amount :
  method_allowed req = true ->
  validateAndNormalizeQuery (Some (default [] (query req)))
  = Valid from to amount ->
  default [] (req_query xreq) = default [] (query req) ->
  live_session now xreq sessions = Some session ->
  str_truthy (EXCHANGE_RATE_API_KEY w) = false ->
  str_truthy (route_api_key rw) = false ->
  route_now_fallback rw = now_fallback w ->
  toISOString (now_fallback w) <> EmptyString ->
  route_accepts xreq from to amount
  /\ http_status (snd (fst (convert_endpoint now rw xreq sessions)))
     = http_status (fst (handler cfg w req s))
  /\ body (snd (fst (convert_endpoint now rw xreq sessions)))
     = body (fst (handler cfg w req s))
         ++ [("correlationId", req_correlationId xreq)].
Proof.
  intros Hm Hv Hq Hlive Hk Hk' Hnow Hiso.
  rewrite (convert_endpoint_live _ rw _ _ _ Hlive). cbn [fst].
  exact (convert_route_agrees_with_handler cfg w s req rw xreq from to amount
           Hm Hv Hq Hk Hk' Hnow Hiso).
Qed.

(** Logging out revokes the token: after a logout that was answered with
    status 200, the same request is not that of a live session at any
    later or earlier time, and the route answers it with status 401. *)
Lemma logout_revokes_the_session now req (sessions : Sessions) :
  is_Some (live_session now req sessions) ->
  let out := logout_endpoint now req sessions in
  http_status (snd (fst out)) = 200
  /\ forall later,
       live_session later req (snd out) = None
       /\ forall rw,
            snd (fst (convert_endpoint later rw req (snd out)))
            = unauthorized req.
Proof.
  intros [session Hlive] out. subst out.
  pose proof (authMiddleware_run now req sessions) as Hauth.
  rewrite Hlive in Hauth. destruct Hauth as (token & Hb & Hs & Hrun).
  unfold logout_endpoint. rewrite Hrun.
  pose proof (bearer_token_nonempty _ _ Hb) as Hne.
  apply String.eqb_neq in Hne. rewrite Hne.
  cbn [negb fst snd http_status]. split; [ done | ].
  intros later.
  assert (live_session later req (delete token sessions) = None) as Hdead.
  { unfold live_session. rewrite Hb. cbn [mbind option_bind].
    unfold Sessions in *. by rewrite lookup_delete_eq. }
  split; [ exact Hdead | ]. intros rw.
  pose proof (authMiddleware_run later req (delete token sessions)) as Hauth.
  rewrite Hdead in Hauth. destruct Hauth as (sessions' & Hrefused & _).
  unfold convert_endpoint. by rewrite Hrefused.
Qed.

(** ** The address of the client *)

(** [getClientIP] never returns the empty string, and the forwarding
    headers, which the client writes, are looked at only when the request
    has no address of its own: when [req.ip] or one of the two remote
    addresses is there, the headers do not matter. *)
Lemma getClientIP_prefers_the_connection req req' :
  getClientIP req <> EmptyString
  /\ (str_truthy (req_ip req)
        || str_truthy (req_connection_remoteAddress req)
        || str_truthy (req_socket_remoteAddress req) = true ->
      req_ip req' = req_ip req ->
      req_connection_remoteAddress req' = req_connection_remoteAddress req ->
      req_socket_remoteAddress req' = req_socket_remoteAddress req ->
      getClientIP req' = getClientIP req).
Proof.
  unfold getClientIP, str_or. split.
  - repeat match goal with
      | |- context [if str_truthy ?x then _ else _] =>
          let E := fresh "E" in
          destruct (str_truthy x) eqn:E;
            [ destruct x as [a|]; [| done ]; simpl in *;
              apply negb_true_iff, String.eqb_neq in E; exact E | ]
      end.
    done.
  - intros Hsome -> -> ->.
    destruct (str_truthy (req_ip req)); [ done | ].
    destruct (str_truthy (req_connection_remoteAddress req)); [ done | ].
    destruct (str_truthy (req_socket_remoteAddress req)); done.
Qed.

End ServerProperties.

(** * Request signing *)

Section SigningProperties.

Context `{NodeRuntime}.

Lemma timingSafeEqual_true a b : timingSafeEqual a b = inr true <-> a = b.
Proof.
  unfold timingSafeEqual. split.
  - destruct (Nat.eqb _ _); [| done ]. intros [= Heq]. by apply String.eqb_eq.
  - intros ->. by rewrite Nat.eqb_refl, String.eqb_refl.
Qed.

Lemma str_truthy_Some s : s <> EmptyString -> str_truthy (Some s) = true.
Proof. intros Hne. apply String.eqb_neq in Hne. simpl. by rewrite Hne. Qed.

Lemma str_truthy_inv v :
  str_truthy v = true -> exists s, v = Some s /\ s <> EmptyString.
Proof.
  destruct v as [s|]; [| done ]. simpl. intros Hs.
  apply negb_true_iff, String.eqb_neq in Hs. eauto.
Qed.

(** The verification of a request that carries the three headers and a
    timestamp within the window comes down to the comparison of the
    signatures. *)
Lemma verifySignature_fresh
    now req secret signature timestamp clientId requestTime :
  prop "x-signature" (req_headers req) = Some signature ->
  prop "x-timestamp" (req_headers req) = Some timestamp ->
  prop "x-client-id" (req_headers req) = Some clientId ->
  signature <> EmptyString -> timestamp <> EmptyString ->
  clientId <> EmptyString ->
  Date_getTime timestamp = Some requestTime ->
  Z.abs (now - requestTime) <= MAX_TIMESTAMP_SKEW ->
  verifySignature now req secret
  = match timingSafeEqual signature
            (generateSignature (req_method req) (req_path req) timestamp
               (req_body req) secret) with
    | inl err => inl err
    | inr false => inr (Unverified "Invalid signature" None)
    | inr true => inr (Verified clientId)
    end.
Proof.
  intros Hs Ht Hc Hsne Htne Hcne Hparse Hfresh. unfold verifySignature.
  change (toLowerCase SIGNATURE_HEADER) with "x-signature".
  change (toLowerCase TIMESTAMP_HEADER) with "x-timestamp".
  change (toLowerCase CLIENT_ID_HEADER) with "x-client-id".
  rewrite Hs, Ht, Hc.
  rewrite (str_truthy_Some _ Hsne), (str_truthy_Some _ Htne),
    (str_truthy_Some _ Hcne).
  cbn [negb default from_option id]. rewrite Hparse.
  apply Z.ltb_ge in Hfresh. by rewrite Hfresh.
Qed.

Lemma verifySignature_verified now req secret clientId :
  verifySignature now req secret = inr (Verified clientId) ->
  exists signature timestamp requestTime,
    prop "x-signature" (req_headers req) = Some signature
    /\ prop "x-timestamp" (req_headers req) = Some timestamp
    /\ prop "x-client-id" (req_headers req) = Some clientId
    /\ signature <> EmptyString /\ timestamp <> EmptyString
    /\ clientId <> EmptyString
    /\ Date_getTime timestamp = Some requestTime
    /\ Z.abs (now - requestTime) <= MAX_TIMESTAMP_SKEW
    /\ signature
       = generateSignature (req_method req) (req_path req) timestamp
           (req_body req) secret.
Proof.
  unfold verifySignature.
  change (toLowerCase SIGNATURE_HEADER) with "x-signature".
  change (toLowerCase TIMESTAMP_HEADER) with "x-timestamp".
  change (toLowerCase CLIENT_ID_HEADER) with "x-client-id".
  destruct (str_truthy (prop "x-signature" (req_headers req))) eqn:Hs;
    [| done ].
  destruct (str_truthy (prop "x-timestamp" (req_headers req))) eqn:Ht;
    [| done ].
  destruct (str_truthy (prop "x-client-id" (req_headers req))) eqn:Hc;
    [| done ].
  apply str_truthy_inv in Hs as (signature & -> & Hsne).
  apply str_truthy_inv in Ht as (timestamp & -> & Htne).
  apply str_truthy_inv in Hc as (client & -> & Hcne).
  cbn [negb default from_option id].
  destruct (Date_getTime timestamp) as [requestTime|] eqn:Hparse; [| done ].
  destruct (MAX_TIMESTAMP_SKEW <? Z.abs (now - requestTime)) eqn:Hfresh;
    [ done | ].
  apply Z.ltb_ge in Hfresh.
  destruct (timingSafeEqual signature _) as [err | [|]] eqn:Heq; try done.
  intros [= <-]. apply timingSafeEqual_true in Heq.
  exists signature, timestamp, requestTime. by repeat split.
Qed.

(** [verifySignature] accepts exactly the requests that carry the three
    headers, each not empty, whose timestamp parses to a time at most
    five minutes before or after the clock, the bound included, and whose
    signature is the digest, under the secret, of the method, the path,
    the timestamp and the body of the request; it then reports the
    client id of the header. *)
Lemma verifySignature_accepts_exactly now req secret clientId :
  verifySignature now req secret = inr (Verified clientId)
  <-> exists signature timestamp requestTime,
        prop "x-signature" (req_headers req) = Some signature
        /\ prop "x-timestamp" (req_headers req) = Some timestamp
        /\ prop "x-client-id" (req_headers req) = Some clientId
        /\ signature <> EmptyString /\ timestamp <> EmptyString
        /\ clientId <> EmptyString
        /\ Date_getTime timestamp = Some requestTime
        /\ Z.abs (now - requestTime) <= 300000
        /\ signature
           = createHmac "sha256" secret
               (req_method req +:+ newline +:+ req_path req +:+ newline
                  +:+ timestamp +:+ newline
                  +:+ (if truthy (req_body req)
                       then JSON_stringify (req_body req) else EmptyString)).
Proof.
  split; [ apply verifySignature_verified | ].
  intros (signature & timestamp & requestTime & Hs & Ht & Hc & Hsne & Htne
          & Hcne & Hparse & Hfresh & Heq).
  change (signature
          = generateSignature (req_method req) (req_path req) timestamp
              (req_body req) secret) in Heq.
  rewrite (verifySignature_fresh _ _ _ _ _ _ _ Hs Ht Hc Hsne Htne Hcne
             Hparse Hfresh).
  by rewrite (proj2 (timingSafeEqual_true _ _) Heq).
Qed.

(** The signature covers the method, the path, the timestamp and the
    body, and nothing else: a request that is verified stays verified
    when its client id, its query string, its URL or its other headers
    are replaced, and the client id that is reported is the replaced
    one. *)
Lemma signature_does_not_cover_the_client_id
    now req req' secret clientId clientId' :
  verifySignature now req secret = inr (Verified clientId) ->
  signed_part req' = signed_part req ->
  prop "x-client-id" (req_headers req') = Some clientId' ->
  clientId' <> EmptyString ->
  verifySignature now req' secret = inr (Verified clientId').
Proof.
  intros Hv Hsame Hc' Hne'.
  apply verifySignature_verified in Hv
    as (signature & timestamp & requestTime & Hs & Ht & _ & Hsne & Htne
        & _ & Hparse & Hfresh & Heq).
  unfold signed_part in Hsame.
  change (toLowerCase SIGNATURE_HEADER) with "x-signature" in Hsame.
  change (toLowerCase TIMESTAMP_HEADER) with "x-timestamp" in Hsame.
  injection Hsame as Hm Hp Hb Hs' Ht'. rewrite Hs in Hs'. rewrite Ht in Ht'.
  rewrite (verifySignature_fresh _ _ _ _ _ _ _ Hs' Ht' Hc' Hsne Htne Hne'
             Hparse Hfresh).
  rewrite Hm, Hp, Hb.
  by rewrite (proj2 (timingSafeEqual_true _ _) Heq).
Qed.

(** A signature of another length than the expected one is not answered
    with a failure: the comparison throws, out of [verifySignature] and
    out of the middleware, which neither logs nor answers. *)
Lemma wrong_length_signature_throws
    now req secret signature timestamp clientId requestTime :
  prop "x-signature" (req_headers req) = Some signature ->
  prop "x-timestamp" (req_headers req) = Some timestamp ->
  prop "x-client-id" (req_headers req) = Some clientId ->
  signature <> EmptyString -> timestamp <> EmptyString ->
  clientId <> EmptyString ->
  Date_getTime timestamp = Some requestTime ->
  Z.abs (now - requestTime) <= MAX_TIMESTAMP_SKEW ->
  secret <> EmptyString ->
  byteLength signature
  <> byteLength (generateSignature (req_method req) (req_path req) timestamp
                   (req_body req) secret) ->
  let thrown := {| err_name := "RangeError";
                   err_message :=
                     "Input buffers must have the same byte length" |} in
  verifySignature now req secret = inl thrown
  /\ forall options now_passed,
       hmacAuthMiddleware (SecretValue (Some secret)) options now now_passed
         req
       = inl thrown.
Proof.
  intros Hs Ht Hc Hsne Htne Hcne Hparse Hfresh Hsecret Hlen thrown.
  assert (verifySignature now req secret = inl thrown) as Hthrows.
  { rewrite (verifySignature_fresh _ _ _ _ _ _ _ Hs Ht Hc Hsne Htne Hcne
               Hparse Hfresh).
    unfold timingSafeEqual. apply Nat.eqb_neq in Hlen. by rewrite Hlen. }
  split; [ exact Hthrows | ]. intros options now_passed.
  unfold hmacAuthMiddleware.
  change (toLowerCase SIGNATURE_HEADER) with "x-signature".
  rewrite Hs, (str_truthy_Some _ Hsne), andb_false_r.
  rewrite (str_truthy_Some _ Hsecret). cbn [negb default from_option id].
  by rewrite Hthrows.
Qed.

(** The headers that [createSignedRequestHeaders] makes are accepted:
    when they arrive, under their names in lower case, with a request of
    the method, the path and the body that were signed, at most five
    minutes before or after the time of the signature, the verification
    succeeds with the client id, and the middleware calls [next] with the
    client attached and nothing logged. *)
Lemma signed_request_verifies
    sent now method path body clientId secret req :
  let headers :=
    received (createSignedRequestHeaders sent method path body clientId
                secret) in
  req_method req = method ->
  req_path req = path ->
  req_body req = body ->
  (forall name, In name ["x-signature"; "x-timestamp"; "x-client-id"] ->
                prop name (req_headers req) = prop name headers) ->
  clientId <> EmptyString ->
  secret <> EmptyString ->
  toISOString sent <> EmptyString ->
  generateSignature method path (toISOString sent) body secret
  <> EmptyString ->
  Date_getTime (toISOString sent) = Some sent ->
  Z.abs (now - sent) <= MAX_TIMESTAMP_SKEW ->
  verifySignature now req secret = inr (Verified clientId)
  /\ forall options now_passed,
       hmacAuthMiddleware (SecretValue (Some secret)) options now now_passed
         req
       = inr ([], HmacNext
                    (Some [("clientId", JStr clientId);
                           ("authenticatedAt", JStr (toISOString now_passed));
                           ("method", JStr "HMAC-SHA256")])).
Proof.
  intros headers Hm Hp Hb Hheaders Hcne Hsecret Htne Hsne Hparse Hfresh.
  assert (prop "x-signature" (req_headers req)
          = Some (generateSignature method path (toISOString sent) body
                    secret)) as Hs.
  { rewrite Hheaders by (simpl; tauto). reflexivity. }
  assert (prop "x-timestamp" (req_headers req) = Some (toISOString sent))
    as Ht.
  { rewrite Hheaders by (simpl; tauto). reflexivity. }
  assert (prop "x-client-id" (req_headers req) = Some clientId) as Hc.
  { rewrite Hheaders by (simpl; tauto). reflexivity. }
  assert (verifySignature now req secret = inr (Verified clientId))
    as Hverified.
  { rewrite (verifySignature_fresh _ _ _ _ _ _ _ Hs Ht Hc Hsne Htne Hcne
               Hparse Hfresh).
    rewrite Hm, Hp, Hb.
    by rewrite (proj2 (timingSafeEqual_true _ _) eq_refl). }
  split; [ exact Hverified | ]. intros options now_passed.
  unfold hmacAuthMiddleware.
  change (toLowerCase SIGNATURE_HEADER) with "x-signature".
  rewrite Hs, (str_truthy_Some _ Hsne), andb_false_r.
  rewrite (str_truthy_Some _ Hsecret). cbn [negb default from_option id].
  by rewrite Hverified.
Qed.

(** The middleware lets a request through in two cases only: in optional
    mode, a request without signature header, unverified and with no
    client attached; and a request that [verifySignature] accepts under
    a secret that is configured and not empty, with the verified client
    id attached.  It answers a request itself in two cases only, with
    status 401 and the correlation id: with the error Authentication
    required when no secret is configured, after one event that says so;
    and with the error Authentication failed when [verifySignature]
    refuses the request under the configured secret, whatever the check
    that failed, which only the event tells, when failures are logged.
    It throws what [verifySignature] throws, the error of a signature of
    the wrong length.  Hence every request that fails the verification
    gets one and the same response. *)
Lemma hmac_middleware_passes_verified_requests_only
    secret options now now_passed req :
  let actualSecret :=
    match secret with
    | SecretFunction lookup => lookup (prop "x-client-id" (req_headers req))
    | SecretValue s => s
    end in
  let clientId :=
    js_of_string (str_or (prop "x-client-id" (req_headers req))
                    (Some "unknown")) in
  let skipped :=
    optional options
    && negb (str_truthy (prop "x-signature" (req_headers req))) in
  match hmacAuthMiddleware secret options now now_passed req with
  | inr (effects, HmacNext None) => effects = [] /\ skipped = true
  | inr (effects, HmacNext (Some client)) =>
      effects = [] /\ skipped = false
      /\ exists key verified,
           actualSecret = Some key /\ key <> EmptyString
           /\ verifySignature now req key = inr (Verified verified)
           /\ prop "clientId" client = Some (JStr verified)
  | inr (effects, HmacAnswered resp) =>
      skipped = false
      /\ ((str_truthy actualSecret = false
           /\ resp = hmac_refusal req "Authentication required"
           /\ effects
              = [SiemCall "UNAUTHORIZED_ACCESS"
                   [("reason", JStr "No secret configured for client");
                    ("clientId", clientId)]])
          \/ (exists key error timeDiff,
                 actualSecret = Some key /\ key <> EmptyString
                 /\ verifySignature now req key
                    = inr (Unverified error timeDiff)
                 /\ resp = hmac_refusal req "Authentication failed"
                 /\ effects
                    = if logFailures options
                      then [SiemCall "UNAUTHORIZED_ACCESS"
                              [("reason", JStr "HMAC verification failed");
                               ("error", JStr error);
                               ("clientId", clientId);
                               ("timeDiff", js_of_string timeDiff)]]
                      else []))
  | inl err =>
      skipped = false
      /\ err_name err = "RangeError"
      /\ exists key,
           actualSecret = Some key /\ key <> EmptyString
           /\ verifySignature now req key = inl err
  end
  /\ (forall key error timeDiff,
        skipped = false ->
        actualSecret = Some key ->
        key <> EmptyString ->
        verifySignature now req key = inr (Unverified error timeDiff) ->
        exists effects,
          hmacAuthMiddleware secret options now now_passed req
          = inr (effects,
                 HmacAnswered (hmac_refusal req "Authentication failed"))).
Proof.
  intros actualSecret clientId skipped. unfold hmacAuthMiddleware.
  change (toLowerCase SIGNATURE_HEADER) with "x-signature".
  change (toLowerCase CLIENT_ID_HEADER) with "x-client-id".
  fold actualSecret. fold clientId. fold skipped.
  split.
  - destruct skipped eqn:Hskip; [ done | ].
    destruct (str_truthy actualSecret) eqn:Hkey; cbn [negb];
      [| split; [ done | by left ] ].
    apply str_truthy_inv in Hkey as (key & Hkey & Hkne). rewrite Hkey.
    cbn [default from_option id].
    destruct (verifySignature now req key) as [err | [error diff | id]]
      eqn:Hv.
    + split; [ done | ]. split; [| by exists key ].
      revert Hv. unfold verifySignature.
      repeat match goal with
        | |- context [if ?b then _ else _] => destruct b; try done
        | |- context [match Date_getTime ?t with _ => _ end] =>
            destruct (Date_getTime t); try done
        end.
      unfold timingSafeEqual.
      (destruct (Nat.eqb _ _); [ by destruct (String.eqb _ _) | ]).
      by intros [= <-].
    + split; [ done | right ]. exists key, error, diff. by repeat split.
    + split; [ done | ]. split; [ done | ]. exists key, id. by repeat split.
  - intros key error timeDiff -> Hkey Hkne Hv.
    rewrite Hkey. rewrite (str_truthy_Some _ Hkne).
    cbn [negb default from_option id]. rewrite Hv. eauto.
Qed.

End SigningProperties.

(** * The metrics store *)

Section SiemProperties.

Context `{JsRuntime}.

Lemma addEvent_bounded now_added now_cleanup event events :
  let added := {| stamp := now_added; stored := event |} in
  let recent :=
    List.filter (fun e => now_cleanup - maxAge <? stamp e)
      (events ++ [added]) in
  let kept := addEvent now_added now_cleanup event events in
  Z.of_nat (length kept) <= maxEvents
  /\ Forall (fun e => now_cleanup - stamp e < maxAge) kept
  /\ (exists dropped, recent = dropped ++ kept)
  /\ (now_cleanup - now_added < maxAge -> last kept = Some added).
Proof.
  intros added recent kept. subst kept. unfold addEvent, cleanup.
  fold added. fold recent.
  assert (Forall (fun e => now_cleanup - stamp e < maxAge) recent) as Hrecent.
  { apply List.Forall_forall. intros e He. subst recent.
    apply filter_In in He as [_ He]. apply Z.ltb_lt in He. lia. }
  assert (now_cleanup - now_added < maxAge -> last recent = Some added)
    as Hlast.
  { intros Hage. subst recent. rewrite List.filter_app. simpl.
    assert ((now_cleanup - maxAge <? now_added) = true) as ->
      by (apply Z.ltb_lt; lia).
    apply last_snoc. }
  destruct (maxEvents <? Z.of_nat (length recent)) eqn:Hfull.
  - apply Z.ltb_lt in Hfull. unfold maxEvents in *.
    split; [| split; [| split ] ].
    + rewrite length_drop. lia.
    + by apply Forall_drop.
    + exists (take (length recent - Z.to_nat 10000) recent).
      by rewrite take_drop.
    + intros Hage. specialize (Hlast Hage).
      apply last_Some in Hlast as [l' Hl']. rewrite Hl'.
      rewrite Hl', length_app in Hfull. simpl in Hfull.
      rewrite length_app. simpl.
      rewrite drop_app_le by lia. apply last_snoc.
  - apply Z.ltb_ge in Hfull.
    split; [ done | split; [ done | split; [ by exists [] | done ] ] ].
Qed.

(** The store of the security metrics is bounded.  After every call of
    [logSiemEvent] it holds at most [maxEvents] events, all of them
    younger than twenty-four hours on the clock of the cleanup; the call
    logs one line, which carries the event with the correlation id that
    the call returns; and that event, stamped with the clock of its
    addition, is the last of the store when it is of that age. *)
Lemma logSiemEvent_keeps_the_store_bounded
    sw eventType details req correlationId metrics :
  let out := logSiemEvent sw eventType details req correlationId metrics in
  Z.of_nat (length (snd out)) <= maxEvents
  /\ Forall (fun e => siem_now_cleanup sw - stamp e < maxAge) (snd out)
  /\ exists level event,
       snd (fst out) = [LoggerCall level "SIEM Security Event" event]
       /\ prop "correlationId" event = Some (fst (fst out))
       /\ (siem_now_cleanup sw - siem_now_added sw < maxAge ->
           last (snd out)
           = Some {| stamp := siem_now_added sw; stored := event |}).
Proof.
  intros out. subst out. unfold logSiemEvent, createSiemEvent.
  cbn [fst snd].
  match goal with
  | |- context [addEvent _ _ ?e metrics] => set (event := e)
  end.
  destruct (addEvent_bounded (siem_now_added sw) (siem_now_cleanup sw) event
              metrics) as (Hlen & Hage & _ & Hlast).
  split; [ exact Hlen | split; [ exact Hage | ] ].
  eexists _, event. split; [ reflexivity | ]. split; [ reflexivity | ].
  exact Hlast.
Qed.

End SiemProperties.

(** [trim] strips the white space of Unicode, such as U+00A0, U+3000 and
    U+FEFF, and keeps the zero width space U+200B, which is no white
    space; in a header value the code unit 160 is white space. *)
Example trim_strips_unicode_white_space :
  trim (bytes [194; 160]%N +:+ " 5" +:+ bytes [227; 128; 128; 10]%N) = "5"
  /\ trim (bytes [239; 187; 191; 9]%N +:+ "1 2" +:+ bytes [226; 128; 137]%N)
     = "1 2"
  /\ trim (bytes [226; 128; 139]%N +:+ "5")
     = bytes [226; 128; 139]%N +:+ "5"
  /\ header_trim (bytes [160]%N +:+ "10.0.0.1 ") = "10.0.0.1".
Proof. repeat split; vm_compute; reflexivity. Qed.

(** With the long s, U+017F, whose capital is S, usd is a code of the
    whitelist; and an amount after U+00A0 is the amount. *)
Example long_s_and_no_break_space_are_accepted :
  validateAndNormalizeQuery
    (Some [("from", QStr ("u" +:+ bytes [197; 191]%N +:+ "d"));
           ("to", QStr "eur");
           ("amount", QStr (bytes [194; 160]%N +:+ "5"))])
  = Valid "USD" "EUR" (Some (Number "5"))
  /\ http_status
       (snd (convert_route (route_world None (Rejects network_error))
               (express_request
                  (usd_to "eur" ++ [("amount", QStr (bytes [194; 160]%N +:+ "5"))])
                  [])))
     = 200
  /\ toUpperCase ("tr" +:+ bytes [196; 177]%N) = "TRI"
  /\ toUpperCase "sha256" = "SHA256".
Proof. repeat split; evaluated. Qed.

Example bearer_token_examples :
  bearer_token "Bearer t-1" = Some "t-1"
  /\ bearer_token "bearer   a b" = Some "a b"
  /\ bearer_token "Bearert-1" = None
  /\ bearer_token "Basic t-1" = None
  /\ bearer_token "Bearer " = None
  /\ bearer_token "Bearer  " = Some " "
  /\ bearer_token ("Bearer a" +:+ newline +:+ "b") = None.
Proof. repeat split; reflexivity. Qed.

Example sha256_known_answer :
  Sha256.hex (Sha256.digest (Sha256.utf8 "abc"))
  = "ba7816bf8f01cfea414140de5dae2223b00361a396177a9cb410ff61f20015ad".
Proof. vm_compute. reflexivity. Qed.

Example hmac_known_answer :
  createHmac "sha256" "key" "The quick brown fox jumps over the lazy dog"
  = "f7bc83f430538424b13298e6aa6fb143ef4d59a14946175997479dbc2d1a3cd8".
Proof. vm_compute. reflexivity. Qed.

Example stringify_known_answer :
  JSON_stringify (JObj [("key", JStr "value"); ("amount", JNum (Number "100"));
                        ("rate", JNum (Number "0.85")); ("none", JUndefined);
                        ("list", JArr [JNull; JBool true; JUndefined])])
  = "{" +:+ quoted "key" +:+ ":" +:+ quoted "value" +:+ ","
      +:+ quoted "amount" +:+ ":100," +:+ quoted "rate" +:+ ":0.85,"
      +:+ quoted "list" +:+ ":[null,true,null]}".
Proof. vm_compute. reflexivity. Qed.

Example getTime_reads_toISOString :
  Date_getTime (toISOString 1793620800123) = Some 1793620800123
  /\ Date_getTime "2026-11-02T12:00:00.000Z" = Some 1793620800000
  /\ Date_getTime "yesterday" = None.
Proof. repeat split; vm_compute; reflexivity. Qed.

(** * The scenarios, evaluated *)

Example pair_error_text :
  E_PAIR "USD" "GBP" = "Exchange rate from USD to GBP not available.".
Proof. reflexivity. Qed.

Example exponent_is_not_plain : not_plain "1e5" /\ not_plain "abc".
Proof. split; reflexivity. Qed.

Example nine_decimals_too_precise : too_precise "12.123456789".
Proof. exists "123456789". split; reflexivity. Qed.

Example minus_one_negative : negative "-1".
Proof. reflexivity. Qed.

Example above_ceiling_too_large : too_large "1000000000001".
Proof. reflexivity. Qed.

Example spec_scenario_upstream :
  fst (handler default_config (world_with (fun _ => answers usd_table) 120)
         (get_request (usd_to "eur" ++ [("amount", QStr "100")])) blank)
  = {| http_status := 200;
       body := [("success", JBool true); ("rate", JNum (Number "0.85"));
                ("convertedAmount", JNum (Number "85"));
                ("from", JStr "USD"); ("to", JStr "EUR");
                ("lastUpdated", JStr "Sun, 01 Nov 2026 00:00:01 +0000");
                ("source", JStr "upstream")] |}.
Proof. evaluated. Qed.

(** A POST whose query is valid is answered with a failure that is neither
    a validation error nor the pair error. *)
Lemma C1_method_counterexample :
  let req := post_request (usd_to "eur") in
  let resp := fst (handler default_config
                     (world_with (fun _ => answers usd_table) 120) req blank) in
  validateAndNormalizeQuery (query req) = Valid "USD" "EUR" None
  /\ resp = {| http_status := 405;
               body := [("success", JBool false);
                        ("error", JStr "Method Not Allowed. Use GET.")] |}
  /\ resp <> bad_request (E_PAIR "USD" "EUR").
Proof. repeat split; evaluated. Qed.

(** With a TTL of 5 seconds: the entry stored for USD at 10.5 s holds a
    rate for EUR and is 15.7 s old when the handler resumes after the
    failure; it is evicted and the static table answers. *)
Lemma C2_stale_entry_counterexample :
  let w := world_outage 10500 in
  let req := get_request (usd_to "eur") in
  let found := meanwhile w (cache (snd (readFromCache short_ttl (now_lookup w)
                                          "USD" blank))) in
  let run := handler short_ttl w req blank in
  found !! "latest:USD" = Some {| ts := 10500; data := usd_table |}
  /\ CACHE_TTL short_ttl < now_resumed w - 10500
  /\ rate_in usd_table "EUR" = Some (Number "0.85")
  /\ upstream_result short_ttl w "USD" = inl abort_error
  /\ prop "source" (body (fst run)) = Some (JStr "fallback")
  /\ prop "source" (body (fst run)) <> Some (JStr "cache-fallback")
  /\ cache (snd run) !! "latest:USD" = None.
Proof. repeat split; evaluated. Qed.

(** A request from USD to USD with a credential goes to the cache and to
    the upstream, and its converted amount is rounded. *)
Lemma C4_same_currency_counterexample :
  let req := get_request [("from", QStr "USD"); ("to", QStr "USD");
                          ("amount", QStr "0.12345678")] in
  let run := handler default_config
               (world_with (fun _ => answers usd_table) 120) req blank in
  validateAndNormalizeQuery (query req)
  = Valid "USD" "USD" (Some (Number "0.12345678"))
  /\ trace (snd run)
     = [CacheGet "latest:USD"; Fetch url_usd 8000;
        CacheSet "latest:USD" {| ts := 3600120; data := usd_table |}]
  /\ prop "source" (body (fst run)) = Some (JStr "upstream")
  /\ prop "convertedAmount" (body (fst run)) = Some (JNum (Number "0.123457"))
  /\ Number "0.123457" <> Number "0.12345678".
Proof. repeat split; evaluated. Qed.

(** An amount that is negative, in a query without from and to, fails with
    the error of the missing parameters, as the empty query does; a
    negative amount that is too large as well fails with the message of
    the range, as a positive one does; and a POST whose amount is in
    exponent notation is answered with the error of the method. *)
Lemma C8_precedence_counterexample :
  let q : Query := [("amount", QStr "-5")] in
  let req := post_request (usd_to "eur" ++ [("amount", QStr "1e5")]) in
  let resp := fst (handler default_config
                     (world_with (fun _ => answers usd_table) 120) req blank) in
  negative "-5"
  /\ validateAndNormalizeQuery (Some q) = Invalid E_MISSING
  /\ validateAndNormalizeQuery (Some []) = Invalid E_MISSING
  /\ negative "-2000000000000"
  /\ validateAndNormalizeQuery
       (Some (usd_to "eur" ++ [("amount", QStr "-2000000000000")]))
     = Invalid E_AMOUNT_RANGE
  /\ validateAndNormalizeQuery
       (Some (usd_to "eur" ++ [("amount", QStr "2000000000000")]))
     = Invalid E_AMOUNT_RANGE
  /\ not_plain "1e5"
  /\ validateAndNormalizeQuery (query req) = Invalid E_AMOUNT_PLAIN
  /\ resp = {| http_status := 405; body := failure E_METHOD |}
  /\ resp <> bad_request E_AMOUNT_PLAIN.
Proof. repeat split; evaluated. Qed.

(** A query without from whose only parameter is unexpected fails with the
    error of the unexpected parameter. *)
Lemma C10_unexpected_parameter_counterexample :
  let q : Query := [("page", QStr "2")] in
  prop "from" q = None
  /\ validateAndNormalizeQuery (Some q) = Invalid "Unexpected parameter 'page'."
  /\ validateAndNormalizeQuery (Some q) <> Invalid E_MISSING.
Proof. repeat split; evaluated. Qed.

Lemma C1_witness :
  let req := get_request (usd_to "eur") in
  let w := world_with flaky 350 in
  method_allowed req = true
  /\ validateAndNormalizeQuery (Some (default [] (query req)))
     = Valid "USD" "EUR" None
  /\ (answers_rate (fst (handler default_config w req blank)) "USD" "EUR"
        ["upstream"; "cache"; "cache-fallback"; "fallback"]
      \/ (fst (handler default_config w req blank)
          = bad_request (E_PAIR "USD" "EUR")
          /\ exists d, upstream_result default_config w "USD" = inr d
                       /\ rate_in d "EUR" = None)).
Proof.
  intros req w.
  assert (method_allowed req = true) as Hm by evaluated.
  assert (validateAndNormalizeQuery (Some (default [] (query req)))
          = Valid "USD" "EUR" None) as Hv by evaluated.
  split; [ exact Hm | split; [ exact Hv | ] ].
  exact (proj1 (C1_answered_unless_pair_missing default_config w req blank
                  "USD" "EUR" None Hm Hv)).
Defined.

Lemma C2_witness :
  let req := get_request (usd_to "eur") in
  let w := world_outage 25000 in
  let s1 := log blank [CacheGet "latest:USD"] in
  misses_cache short_ttl w req blank "USD" "EUR" None s1
  /\ upstream_result short_ttl w "USD" = inl abort_error
  /\ fst (handler short_ttl w req blank)
     = table_response (Number "0.85") usd_table "USD" "EUR" None
         "cache-fallback".
Proof.
  intros req w s1.
  assert (misses_cache short_ttl w req blank "USD" "EUR" None s1) as Hmiss
    by misses.
  assert (upstream_result short_ttl w "USD" = inl abort_error) as Hu
    by evaluated.
  split; [ exact Hmiss | split; [ exact Hu | ] ].
  apply (proj2 (proj2 (C2_degraded_read_checks_ttl short_ttl w req blank
                         "USD" "EUR" None s1 abort_error Hmiss Hu))
           {| ts := 25000; data := usd_table |} (Number "0.85"));
    [ evaluated | vm_compute; discriminate | evaluated ].
Defined.

Lemma C3_witness :
  let w := world_with (fun _ => Rejects network_error) 40 in
  0 <= RETRIES default_config
  /\ fetcher w 0 = Rejects network_error
  /\ catch_retryable network_error = false
  /\ fetchRates default_config w "USD" "secret" blank
     = (inl network_error, log blank [Fetch url_usd 8000]).
Proof.
  intros w.
  assert (0 <= RETRIES default_config) as Hr by (vm_compute; discriminate).
  assert (catch_retryable network_error = false) as Hc by evaluated.
  split; [ exact Hr | split; [ reflexivity | split; [ exact Hc | ] ] ].
  exact (C3_network_error_is_not_retried default_config w "USD" "secret"
           blank network_error Hr eq_refl Hc).
Defined.

Lemma C4_witness :
  let req := get_request [("from", QStr "eur"); ("to", QStr "EUR");
                          ("amount", QStr "12.5")] in
  method_allowed req = true
  /\ validateAndNormalizeQuery (Some (default [] (query req)))
     = Valid "EUR" "EUR" (Some (Number "12.5"))
  /\ str_truthy (EXCHANGE_RATE_API_KEY world_without_credential) = false
  /\ fst (handler default_config world_without_credential req blank)
     = {| http_status := 200;
          body := success (Number "1.0")
                    (converted (Some (Number "12.5")) (Number "1.0"))
                    "EUR" "EUR" (JStr (toISOString 3600000)) "fallback" |}.
Proof.
  intros req.
  assert (method_allowed req = true) as Hm by evaluated.
  assert (validateAndNormalizeQuery (Some (default [] (query req)))
          = Valid "EUR" "EUR" (Some (Number "12.5"))) as Hv by evaluated.
  split; [ exact Hm | split; [ exact Hv | split; [ reflexivity | ] ] ].
  exact (f_equal fst
           (C4_same_currency_without_credential default_config
              world_without_credential req blank "EUR"
              (Some (Number "12.5")) Hm Hv eq_refl)).
Defined.

Lemma C5_witness :
  let w := world_with flaky 350 in
  0 < RETRIES default_config
  /\ fetcher w 0 = refuses 503 "Service Unavailable"
  /\ fetcher w 1 = answers usd_table
  /\ exists details,
       fetchRates default_config w "USD" "secret" blank
       = (inr usd_table,
          log blank [Fetch url_usd 8000; Console "error" details;
                     Fetch url_usd 8000]).
Proof.
  intros w.
  assert (0 < RETRIES default_config) as Hr by reflexivity.
  split; [ exact Hr | split; [ reflexivity | split; [ reflexivity | ] ] ].
  exact (C5_retried_status_skips_backoff default_config w "USD" "secret" blank
           _ _ usd_table Hr eq_refl eq_refl eq_refl eq_refl eq_refl eq_refl
           eq_refl eq_refl).
Defined.

Lemma C6_witness :
  let req := get_request (usd_to "gbp") in
  let w := world_with (fun _ => answers usd_table) 120 in
  let s1 := log blank [CacheGet "latest:USD"] in
  misses_cache default_config w req blank "USD" "GBP" None s1
  /\ upstream_result default_config w "USD" = inr usd_table
  /\ rate_in usd_table "GBP" = None
  /\ fst (handler default_config w req blank)
     = {| http_status := 400;
          body := [("success", JBool false);
                   ("error",
                    JStr "Exchange rate from USD to GBP not available.")] |}
  /\ cache (snd (handler default_config w req blank)) !! "latest:USD"
     = Some {| ts := 3600120; data := usd_table |}.
Proof.
  intros req w s1.
  assert (misses_cache default_config w req blank "USD" "GBP" None s1)
    as Hmiss by misses.
  assert (upstream_result default_config w "USD" = inr usd_table) as Hu
    by evaluated.
  assert (rate_in usd_table "GBP" = None) as Hn by evaluated.
  split; [ exact Hmiss | split; [ exact Hu | split; [ exact Hn | ] ] ].
  rewrite (C6_pair_not_available_is_terminal default_config w req blank
             "USD" "GBP" None s1 usd_table Hmiss Hu Hn).
  split; evaluated.
Defined.

Lemma C7_witness :
  let req := get_request (usd_to "gbp") in
  let w := world_outage 25000 in
  let s1 := log blank [CacheGet "latest:USD"] in
  let kept := {| ts := 25000; data := usd_table |} in
  misses_cache short_ttl w req blank "USD" "GBP" None s1
  /\ upstream_result short_ttl w "USD" = inl abort_error
  /\ meanwhile w (cache s1) !! "latest:USD" = Some kept
  /\ cache (snd (handler short_ttl w req blank)) !! "latest:USD" = Some kept.
Proof.
  intros req w s1 kept.
  assert (misses_cache short_ttl w req blank "USD" "GBP" None s1) as Hmiss
    by misses.
  assert (upstream_result short_ttl w "USD" = inl abort_error) as Hu
    by evaluated.
  assert (meanwhile w (cache s1) !! "latest:USD" = Some kept) as Hk
    by evaluated.
  split; [ exact Hmiss | split; [ exact Hu | split; [ exact Hk | ] ] ].
  destruct (proj2 (proj2 (proj2 (C7_cache_contract short_ttl w)))
              req blank "USD" "GBP" None s1 abort_error Hmiss Hu)
    as [_ Hkeep].
  apply (Hkeep "latest:USD" kept Hk).
  intros _. vm_compute. discriminate.
Defined.

Lemma C8_witness :
  let req := get_request (usd_to "eur" ++ [("amount", QStr "1e5")]) in
  let w := world_with (fun _ => answers usd_table) 120 in
  (exists v, prop "amount" (default [] (query req)) = Some v
             /\ malformed_amount (trim (q_String (Some v))))
  /\ exists e,
       validateAndNormalizeQuery (Some (default [] (query req))) = Invalid e
       /\ rejected_untouched (handler default_config w req blank) blank.
Proof.
  intros req w.
  assert (exists v, prop "amount" (default [] (query req)) = Some v
                    /\ malformed_amount (trim (q_String (Some v)))) as Hbad.
  { exists (QStr "1e5"). split; [ reflexivity | left; reflexivity ]. }
  split; [ exact Hbad | ].
  destruct (C8_validator_fails_closed default_config w req blank
              (or_intror Hbad)) as (e & He & _ & _ & Hrej & _).
  exists e. split; [ exact He | exact Hrej ].
Defined.

Lemma C9_witness :
  let req := get_request (usd_to "gbp") in
  let run := handler default_config world_without_credential req blank in
  prop "source" (body (fst run)) = Some (JStr "fallback")
  /\ Object_keys (body (fst run))
     = ["success"; "rate"; "convertedAmount"; "from"; "to"; "lastUpdated";
        "source"].
Proof.
  intros req run.
  assert (prop "source" (body (fst run)) = Some (JStr "fallback")) as Hs
    by evaluated.
  split; [ exact Hs | ].
  exact (proj1 (C9_defaulted_flag_is_logged_not_served default_config
                  world_without_credential req blank Hs)).
Defined.

Lemma C10_witness :
  let req := get_request [("to", QStr "eur"); ("amount", QStr "5")] in
  let w := world_with (fun _ => answers usd_table) 120 in
  Forall (fun k => has ALLOWED_QUERY_PARAMS k = true)
    (Object_keys (default [] (query req)))
  /\ absent_or_empty (prop "from" (default [] (query req)))
  /\ validateAndNormalizeQuery (Some (default [] (query req)))
     = Invalid E_MISSING
  /\ rejected_untouched (handler default_config w req blank) blank.
Proof.
  intros req w.
  assert (Forall (fun k => has ALLOWED_QUERY_PARAMS k = true)
            (Object_keys (default [] (query req)))) as Hall
    by (repeat constructor).
  assert (absent_or_empty (prop "from" (default [] (query req)))) as Ha
    by (left; reflexivity).
  split; [ exact Hall | split; [ exact Ha | ] ].
  destruct (C10_missing_from_or_to default_config w req blank Hall
              (or_introl Ha)) as (Hv & Hrej & _).
  split; [ exact Hv | exact Hrej ].
Defined.


Lemma client_error_witness :
  let w := world_with (fun _ => refuses 404 "Not Found") 90 in
  0 <= RETRIES default_config
  /\ fetcher w 0 = refuses 404 "Not Found"
  /\ exists details,
       fetchRates default_config w "USD" "secret" blank
       = (inl (Error "Upstream status 404"),
          log blank [Fetch url_usd 8000; Console "error" details]).
Proof.
  intros w.
  assert (0 <= RETRIES default_config) as Hr by (vm_compute; discriminate).
  split; [ exact Hr | split; [ reflexivity | ] ].
  apply (client_error_fails_at_once default_config w "USD" "secret" blank
           _ Hr eq_refl eq_refl); cbn; lia.
Defined.


Lemma fetched_payload_witness :
  let w := world_with flaky 350 in
  fst (fetchRates default_config w "USD" "secret" blank) = inr usd_table
  /\ well_formed usd_table
  /\ exists call res,
       0 <= call <= RETRIES default_config
       /\ fetcher w call = Resolves res
       /\ res_ok res = true /\ res_json res = inr usd_table.
Proof.
  intros w.
  assert (fst (fetchRates default_config w "USD" "secret" blank)
          = inr usd_table) as Hf by evaluated.
  split; [ exact Hf | ].
  exact (fetched_payload_passed_the_check default_config w "USD" "secret"
           blank usd_table Hf).
Defined.

Lemma persistent_timeouts_witness :
  let w := world_with (fun _ => Rejects abort_error) 16200 in
  0 <= RETRIES default_config
  /\ catch_retryable abort_error = true
  /\ fetchRates default_config w "USD" "secret" blank
     = (inl abort_error,
        log blank [Fetch url_usd 8000; Sleep 200; Fetch url_usd 8000]).
Proof.
  intros w.
  assert (0 <= RETRIES default_config) as Hr by (vm_compute; discriminate).
  assert (catch_retryable abort_error = true) as Hc by reflexivity.
  split; [ exact Hr | split; [ exact Hc | ] ].
  exact (proj1 (persistent_timeouts_follow_the_schedule default_config w
                  "USD" "secret" blank abort_error Hr
                  (fun _ _ => eq_refl) Hc)).
Defined.

Lemma backoff_is_bounded_witness :
  let w := world_with (fun _ => Rejects abort_error) 16200 in
  0 <= RETRIES default_config
  /\ slept (upstream_events default_config w "USD") <= 200 * (2 ^ 1 - 1).
Proof.
  intros w.
  assert (0 <= RETRIES default_config) as Hr by (vm_compute; discriminate).
  split; [ exact Hr | ].
  exact (backoff_is_bounded default_config w "USD" Hr).
Defined.


Lemma other_entries_witness :
  let w := world_with (fun _ => answers usd_table) 120 in
  let req := get_request (usd_to "eur") in
  (forall c, meanwhile w c = c)
  /\ validateAndNormalizeQuery (Some (default [] (query req)))
     = Valid "USD" "EUR" None
  /\ cache (snd (handler default_config w req eur_cached)) !! "latest:EUR"
     = cache eur_cached !! "latest:EUR".
Proof.
  intros w req.
  assert (validateAndNormalizeQuery (Some (default [] (query req)))
          = Valid "USD" "EUR" None) as Hv by evaluated.
  split; [ reflexivity | split; [ exact Hv | ] ].
  apply (handler_leaves_other_entries default_config w req eur_cached
           "latest:EUR"); [ reflexivity | ].
  intros from to amount Hv'. rewrite Hv in Hv'.
  injection Hv' as <- <- <-. discriminate.
Defined.

Lemma cache_well_formed_witness :
  let w := world_with (fun _ => answers usd_table) 120 in
  let req := get_request (usd_to "eur") in
  cache_well_formed (cache blank)
  /\ cache (snd (handler default_config w req blank)) !! "latest:USD"
     = Some {| ts := 3600120; data := usd_table |}
  /\ cache_well_formed (cache (snd (handler default_config w req blank))).
Proof.
  intros w req.
  assert (cache_well_formed (cache blank)) as Hb.
  { intros k e Hk. simpl in Hk. rewrite lookup_empty in Hk. discriminate. }
  split; [ exact Hb | split; [ evaluated | ] ].
  exact (handler_keeps_cache_well_formed default_config w req blank Hb
           (fun c Hc => Hc)).
Defined.

Lemma converted_amount_witness :
  let w := world_with (fun _ => answers usd_table) 120 in
  let req := get_request (usd_to "eur" ++ [("amount", QStr "100")]) in
  let resp := fst (handler default_config w req blank) in
  http_status resp = 200
  /\ exists from to amount r updated source,
       validateAndNormalizeQuery (Some (default [] (query req)))
       = Valid from to amount
       /\ body resp = success r (converted amount r) from to updated source
       /\ prop "rate" (body resp) = Some (JNum r)
       /\ prop "convertedAmount" (body resp)
          = Some (match amount with
                  | Some a => JNum (Number (toFixed (num_mul a r) 6))
                  | None => JNull
                  end).
Proof.
  intros w req resp.
  assert (http_status resp = 200) as Hs by evaluated.
  split; [ exact Hs | ].
  exact (converted_amount_follows_reported_rate default_config w req blank Hs).
Defined.

Lemma fallback_defaults_witness :
  In "GBP" ALLOWED_CURRENCIES
  /\ ~ In "GBP" ["USD"; "EUR"; "PHP"; "JPY"]
  /\ getFallbackRate 3600000 "GBP" "JPY"
     = {| rate := Number "1.0"; lastUpdated := "1970-01-01T01:00:00.000Z";
          defaulted := true |}.
Proof.
  assert (In "GBP" ALLOWED_CURRENCIES) as Hin by (simpl; tauto).
  assert (~ In "GBP" ["USD"; "EUR"; "PHP"; "JPY"]) as Hout.
  { simpl. intros [Hx | [Hx | [Hx | [Hx | []]]]]; discriminate Hx. }
  split; [ exact Hin | split; [ exact Hout | ] ].
  rewrite (fallback_defaults_outside_four_bases 3600000 "GBP" "JPY" Hin Hout).
  evaluated.
Defined.


Lemma route_falls_back_witness :
  let rw := route_world (Some "secret") (refuses 503 "Service Unavailable") in
  let req := express_request (usd_to "eur" ++ [("amount", QStr "100")]) [] in
  route_accepts req "USD" "EUR" (Some (Number "100"))
  /\ upstream_failed (route_upstream rw)
  /\ snd (convert_route rw req)
     = {| http_status := 200;
          body := [("success", JBool true); ("rate", JNum (Number "0.85"));
                   ("convertedAmount", JNum (Number "85"));
                   ("from", JStr "USD"); ("to", JStr "EUR");
                   ("lastUpdated", JStr "1970-01-01T01:00:00.000Z");
                   ("source", JStr "fallback");
                   ("correlationId", JStr "c-1")] |}
  /\ fetched_urls (fst (convert_route rw req)) = [url_usd].
Proof.
  intros rw req.
  assert (route_accepts req "USD" "EUR" (Some (Number "100"))) as Hacc.
  { split; [ evaluated | split; [ evaluated | ] ].
    split; [ simpl; tauto | split; [ simpl; tauto | ] ].
    exists (QStr "100"). split; [ reflexivity | ].
    repeat split; try evaluated.
    intros frac Hfrac. vm_compute in Hfrac. discriminate Hfrac. }
  assert (upstream_failed (route_upstream rw)) as Hfail by (left; reflexivity).
  split; [ exact Hacc | split; [ exact Hfail | ] ].
  destruct (route_falls_back_on_any_upstream_failure rw req "USD" "EUR"
              (Some (Number "100")) Hacc eq_refl Hfail) as [Hresp Hcalls].
  split; [ rewrite Hresp; evaluated | rewrite Hcalls; evaluated ].
Defined.

Lemma route_checks_amount_witness :
  let rw := route_world (Some "secret") (answers usd_table) in
  let req := express_request (usd_to "eur" ++ [("amount", QStr "1e5")])
               [("authorization", "Bearer t-1")] in
  let run := fst (convert_endpoint 3600000 rw req one_session) in
  live_session 3600000 req one_session = Some ann_session
  /\ In "USD" SERVER_ALLOWED_CURRENCIES
  /\ In "EUR" SERVER_ALLOWED_CURRENCIES
  /\ str_truthy (route_api_key rw) = true
  /\ ~ route_amount_accepted "1e5" (Number "1e5")
  /\ (exists later,
        fst run = FetchCall (route_url rw "USD") :: later
        /\ fetched_urls later = [])
  /\ http_status (snd run) = 400.
Proof.
  intros rw req run.
  assert (live_session 3600000 req one_session = Some ann_session) as Hlive
    by evaluated.
  assert (In "USD" SERVER_ALLOWED_CURRENCIES) as Hf by (simpl; tauto).
  assert (In "EUR" SERVER_ALLOWED_CURRENCIES) as Ht by (simpl; tauto).
  assert (~ route_amount_accepted "1e5" (Number "1e5")) as Hbad.
  { intros (Hp & _). vm_compute in Hp. discriminate Hp. }
  split; [ exact Hlive | ].
  split; [ exact Hf | split; [ exact Ht | split; [ reflexivity | ] ] ].
  split; [ exact Hbad | ].
  destruct (route_checks_amount_after_the_fetch 3600000 rw req one_session
              ann_session "USD" "EUR" Hlive eq_refl eq_refl Hf Ht eq_refl)
    as [Hcall Hamount].
  split; [ exact Hcall | ].
  exact (Hamount (QStr "1e5") eq_refl Hbad).
Defined.

Lemma route_agrees_witness :
  let q := usd_to "gbp" ++ [("amount", QStr "2.5")] in
  let req := get_request q in
  let xreq := express_request q [("authorization", "Bearer t-1")] in
  let rw := route_world None (Rejects network_error) in
  let w := world_without_credential in
  method_allowed req = true
  /\ validateAndNormalizeQuery (Some (default [] (query req)))
     = Valid "USD" "GBP" (Some (Number "2.5"))
  /\ live_session 3600000 xreq one_session = Some ann_session
  /\ toISOString (now_fallback w) <> EmptyString
  /\ body (snd (fst (convert_endpoint 3600000 rw xreq one_session)))
     = body (fst (handler default_config w req blank))
         ++ [("correlationId", JStr "c-1")].
Proof.
  intros q req xreq rw w.
  assert (method_allowed req = true) as Hm by evaluated.
  assert (validateAndNormalizeQuery (Some (default [] (query req)))
          = Valid "USD" "GBP" (Some (Number "2.5"))) as Hv by evaluated.
  assert (live_session 3600000 xreq one_session = Some ann_session) as Hlive
    by evaluated.
  assert (toISOString (now_fallback w) <> EmptyString) as Hiso by evaluated.
  split; [ exact Hm | split; [ exact Hv | ] ].
  split; [ exact Hlive | split; [ exact Hiso | ] ].
  exact (proj2 (proj2 (route_agrees_with_handler_without_credential
                         default_config w blank req 3600000 rw xreq
                         one_session ann_session "USD" "GBP"
                         (Some (Number "2.5")) Hm Hv eq_refl Hlive eq_refl
                         eq_refl eq_refl Hiso))).
Defined.

Lemma session_lives_witness :
  let created := createSession "t-1" 1000 3600000 "ann@example.org" ∅ in
  "t-1" <> EmptyString
  /\ fst created = ("t-1", 3601000)
  /\ validateSession 3600999 (Some "t-1") (snd created)
     = (Some ann_session, snd created)
  /\ validateSession 3601000 (Some "t-1") (snd created) = (None, delete "t-1" ∅).
Proof.
  intros created.
  assert ("t-1" <> EmptyString) as Hne by discriminate.
  destruct (session_lives_until_expiry "t-1" 1000 3600000 "ann@example.org"
              ∅ 3600999 Hne) as (Hc & Hlive & _).
  destruct (session_lives_until_expiry "t-1" 1000 3600000 "ann@example.org"
              ∅ 3601000 Hne) as (_ & _ & Hdead).
  split; [ exact Hne | split; [ exact Hc | split ] ].
  - apply Hlive. reflexivity.
  - apply Hdead. discriminate.
Defined.

Lemma logout_revokes_witness :
  let req := express_request (usd_to "eur") [("authorization", "Bearer t-1")] in
  let out := logout_endpoint 3600000 req one_session in
  live_session 3600000 req one_session = Some ann_session
  /\ http_status (snd (fst out)) = 200
  /\ live_session 3600001 req (snd out) = None.
Proof.
  intros req out.
  assert (live_session 3600000 req one_session = Some ann_session) as Hlive
    by evaluated.
  split; [ exact Hlive | ].
  destruct (logout_revokes_the_session 3600000 req one_session
              (ex_intro _ ann_session Hlive)) as [Hok Hlater].
  split; [ exact Hok | exact (proj1 (Hlater 3600001)) ].
Defined.


Lemma signed_request_witness :
  let req := signed_request (received signed_headers ++ [("host", "localhost")])
               [] in
  let now := noon + 120000 in
  toISOString noon = "2026-11-02T12:00:00.000Z"
  /\ Date_getTime (toISOString noon) = Some noon
  /\ Z.abs (now - noon) <= MAX_TIMESTAMP_SKEW
  /\ verifySignature now req "s3cret" = inr (Verified "example-app").
Proof.
  intros req now.
  assert (toISOString noon = "2026-11-02T12:00:00.000Z") as Hiso by evaluated.
  assert (Date_getTime (toISOString noon) = Some noon) as Hparse by evaluated.
  assert (Z.abs (now - noon) <= MAX_TIMESTAMP_SKEW) as Hfresh
    by (vm_compute; discriminate).
  split; [ exact Hiso | split; [ exact Hparse | split; [ exact Hfresh | ] ] ].
  apply (signed_request_verifies noon now "POST" "/api/some-endpoint" order
           "example-app" "s3cret" req).
  - reflexivity.
  - reflexivity.
  - reflexivity.
  - intros name [<- | [<- | [<- | []]]]; evaluated.
  - discriminate.
  - discriminate.
  - rewrite Hiso. discriminate.
  - evaluated.
  - exact Hparse.
  - exact Hfresh.
Defined.

Lemma client_id_witness :
  let req := signed_request (received signed_headers) [] in
  let req' := signed_request
                [("x-client-id", "someone-else");
                 ("x-signature",
                  "8500e3587577b189660f0a0c545c0499034fa9442c25a18d6e89359451358b32");
                 ("x-timestamp", "2026-11-02T12:00:00.000Z")]
                [("admin", QStr "1")] in
  let now := noon + 120000 in
  verifySignature now req "s3cret" = inr (Verified "example-app")
  /\ signed_part req' = signed_part req
  /\ verifySignature now req' "s3cret" = inr (Verified "someone-else").
Proof.
  intros req req' now.
  assert (verifySignature now req "s3cret" = inr (Verified "example-app"))
    as Hv by evaluated.
  assert (signed_part req' = signed_part req) as Hsame by evaluated.
  split; [ exact Hv | split; [ exact Hsame | ] ].
  apply (signature_does_not_cover_the_client_id now req req' "s3cret"
           "example-app" "someone-else" Hv Hsame).
  - reflexivity.
  - discriminate.
Defined.

Lemma wrong_length_witness :
  let req := signed_request
               [("x-signature", "deadbeef");
                ("x-timestamp", "2026-11-02T12:00:00.000Z");
                ("x-client-id", "example-app")] [] in
  let now := noon + 120000 in
  byteLength "deadbeef"
  <> byteLength (generateSignature "POST" "/api/some-endpoint"
                   "2026-11-02T12:00:00.000Z" order "s3cret")
  /\ verifySignature now req "s3cret"
     = inl {| err_name := "RangeError";
              err_message := "Input buffers must have the same byte length" |}.
Proof.
  intros req now.
  assert (byteLength "deadbeef"
          <> byteLength (generateSignature "POST" "/api/some-endpoint"
                           "2026-11-02T12:00:00.000Z" order "s3cret"))
    as Hlen by evaluated.
  split; [ exact Hlen | ].
  apply (wrong_length_signature_throws now req "s3cret" "deadbeef"
           "2026-11-02T12:00:00.000Z" "example-app" noon).
  - reflexivity.
  - reflexivity.
  - reflexivity.
  - discriminate.
  - discriminate.
  - discriminate.
  - evaluated.
  - vm_compute. discriminate.
  - discriminate.
  - exact Hlen.
Defined.
